(** * Bitcomm voice client: a shallow embedding of the React front end

    The development follows the JavaScript sources of the front end:

    - [frontend/src/context/VoiceContext.js]: the voice provider (channel,
      microphone streaming, playback queue, UI updates pushed by the far end);
    - [frontend/src/pages/Products.js]: the product page, its voice callbacks
      and its HTTP refresh;
    - [frontend/src/components/CompareModal.js]: the comparison view;
    - [frontend/src/context/CartContext.js]: the cart.

    React state and refs become record fields, every handler becomes a
    function from state to state, and what the browser does (sockets opening,
    audio sources ending, timers firing, HTTP responses arriving) becomes an
    event of a step function.  The suspension points of the async functions
    ([await]) split a handler in two: the part before the [await] and the
    continuation that a later event runs. *)

From Stdlib Require Import ZArith QArith Qabs Lia Floats Uint63.
From stdpp Require Import gmap strings list.

Local Open Scope Z_scope.

(** ** JSON values carried by events

    The values that reach the handlers come out of [JSON.parse] (or out of
    React state initialised with string literals), so they are JSON scalars.
    Numbers are kept integral here: the handlers below only test them for
    truthiness and compare them with [===]. *)

Inductive jsval : Type :=
  | JNull
  | JBool (b : bool)
  | JNum (n : Z)
  | JStr (s : string).

#[global] Instance jsval_eq_dec : EqDecision jsval.
Proof. solve_decision. Defined.

(** ToBoolean: what [if (v)] tests.  A key that is absent from an object
    reads as [undefined], which is falsy; it is modelled by [None]. *)
Definition truthy (v : jsval) : bool :=
  match v with
  | JNull => false
  | JBool b => b
  | JNum n => negb (n =? 0)
  | JStr s => negb (String.eqb s "")
  end.

Definition truthy_opt (v : option jsval) : bool :=
  match v with
  | Some v => truthy v
  | None => false
  end.

(** A JSON object with scalar fields, such as the [filters] of a
    [ui_update] event. *)
Abbreviation jsobj := (gmap string jsval).

(** ** Audio transport codec (VoiceContext.js, [startAudioStreaming] and
    [playNextAudio])

    Samples are modelled as rationals.  The samples of a [Float32Array] are
    dyadic rationals with a 24-bit significand; their products with 32767 and
    32768 and the quotients of 16-bit integers by 32768 are exact in double
    precision, so on them the rational model computes the very values the
    JavaScript code computes.  [NaN] is outside the model (and outside
    [[-1,1]]). *)

Module Codec.
Local Open Scope Q_scope.

Definition Math_max (a b : Q) : Q := if Qlt_le_dec a b then b else a.
Definition Math_min (a b : Q) : Q := if Qlt_le_dec b a then b else a.

(** [Math.max(-1, Math.min(1, inputData[i]))] *)
Definition clamp (x : Q) : Q := Math_max (-1) (Math_min 1 x).

(** [s < 0 ? s * 0x8000 : s * 0x7FFF] *)
Definition scale (s : Q) : Q :=
  if Qlt_le_dec s 0 then s * 32768 else s * 32767.

(** Storing a number in an [Int16Array] applies ToInt16: the fractional
    part is dropped (rounding toward zero) and the integer is reduced
    modulo 2^16 into [[-32768, 32767]]. *)
Definition trunc (v : Q) : Z := (Qnum v ÷ Zpos (Qden v))%Z.

Definition toInt16 (v : Q) : Z :=
  let k := (trunc v mod 65536)%Z in
  if (32768 <=? k)%Z then (k - 65536)%Z else k.

Definition encodeSample (x : Q) : Z := toInt16 (scale (clamp x)).

(** The loop of [processor.onaudioprocess] over [inputData]. *)
Definition encode (inputData : list Q) : list Z := map encodeSample inputData.

(** [int16Array[i] / 32768.0] *)
Definition decodeSample (v : Z) : Q := inject_Z v / 32768.

(** The loop of [playNextAudio] over [int16Array]. *)
Definition decode (int16Array : list Z) : list Q := map decodeSample int16Array.

(** One quantization step of the 16-bit format: decoded values are
    multiples of [1/32768]. *)
Definition quantum : Q := 1 # 32768.

Definition in_range (x : Q) : Prop := -1 <= x /\ x <= 1.
End Codec.

(** The same two loops on IEEE double-precision numbers, the numbers of
    JavaScript, to run the codec on given samples and compare with the
    rational model. *)

Module CodecDouble.
Local Open Scope float_scope.

Definition Math_max (a b : float) : float := if PrimFloat.ltb a b then b else a.
Definition Math_min (a b : float) : float := if PrimFloat.ltb b a then b else a.

Definition clamp (x : float) : float := Math_max (-1) (Math_min 1 x).

Definition scale (s : float) : float :=
  if PrimFloat.ltb s 0 then s * 32768 else s * 32767.

(** The integer part of a finite double: its 53-bit significand shifted by
    its exponent, with its sign. *)
Definition trunc (v : float) : Z :=
  let '(m, e) := PrimFloat.frshiftexp (PrimFloat.abs v) in
  let significand := Uint63.to_Z (PrimFloat.normfr_mantissa m) in
  let exponent := (Uint63.to_Z e - 2101 - 53)%Z in
  let a := if (0 <=? exponent)%Z then Z.shiftl significand exponent
           else Z.shiftr significand (- exponent) in
  if PrimFloat.ltb v 0 then (- a)%Z else a.

Definition toInt16 (v : float) : Z :=
  let k := (trunc v mod 65536)%Z in
  if (32768 <=? k)%Z then (k - 65536)%Z else k.

Definition encodeSample (x : float) : Z := toInt16 (scale (clamp x)).

Definition ofInt16 (v : Z) : float :=
  if (v <? 0)%Z then - PrimFloat.of_uint63 (Uint63.of_Z (- v))
  else PrimFloat.of_uint63 (Uint63.of_Z v).

Definition decodeSample (v : Z) : float := ofInt16 v / 32768.
End CodecDouble.

(** ** Cart (CartContext.js) *)

Module Cart.
(** A product as the catalog sends it: an [id] and further fields that the
    cart copies without looking at them. *)
Record product : Type := Product {
  product_id : jsval;
  product_fields : jsobj
}.

(** A cart entry: the product's own fields spread into the entry, plus
    [quantity]. *)
Record item : Type := Item {
  id : jsval;
  fields : jsobj;
  quantity : Z
}.

(** [Array.prototype.find] *)
Fixpoint find (p : item -> bool) (l : list item) : option item :=
  match l with
  | [] => None
  | x :: l' => if p x then Some x else find p l'
  end.

(** [item.id === product.id]: strict equality, which on JSON scalars is
    equality of the values. *)
Definition same_id (pr : product) (it : item) : bool :=
  bool_decide (id it = product_id pr).

(** A quantity is a JavaScript number, a double.  On the integers from
    [-2^53] to [2^53 - 1] the sum [quantity + 1] of the code is the integer
    successor; from [2^53] on the double sum is rounded (at [2^53] it is
    [2^53] again).  [safe q] is the range on which the integer arithmetic
    below is the arithmetic of the code; what is stated about a sum is
    stated for quantities in this range. *)
Definition safe (q : Z) : Prop := - 2 ^ 53 <= q < 2 ^ 53.

(** [{ ...item, quantity: item.quantity + 1 }], for a [safe] quantity. *)
Definition bump (it : item) : item :=
  Item (id it) (fields it) (quantity it + 1).

(** The updater passed to [setItems] by [addToCart]. *)
Definition addToCart (pr : product) (prev : list item) : list item :=
  match find (same_id pr) prev with
  | Some _existing =>
      map (fun it => if same_id pr it then bump it else it) prev
  | None => prev ++ [Item (product_id pr) (product_fields pr) 1]
  end.

Definition ids (l : list item) : list jsval := map id l.
End Cart.

(** ** The product page (pages/Products.js) and the comparison view
    (components/CompareModal.js) *)

Module Page.
Import Cart.

Record PriceRange : Type := { min : jsval; max : jsval }.

(** The [useState] cells of [Products] that its voice callbacks, its HTTP
    refresh and the comparison view read or write ([metadata] and
    [showFilters] are left out: none of these touches them). *)
Record Products : Type := {
  products : list product;
  total : option jsval;            (* [None]: [undefined] *)
  loading : bool;
  error : option string;           (* [None]: [null] *)
  searchQuery : jsval;
  selectedCategory : jsval;
  selectedBrand : jsval;
  priceRange : PriceRange;
  sortBy : jsval;
  selectedProduct : option product;
  isModalOpen : bool;
  compareList : list product;
  isCompareOpen : bool
}.

(** The initial values given to [useState]. *)
Definition initial : Products := {|
  products := [];
  total := Some (JNum 0);
  loading := true;
  error := None;
  searchQuery := JStr "";
  selectedCategory := JStr "";
  selectedBrand := JStr "";
  priceRange := {| min := JStr ""; max := JStr "" |};
  sortBy := JStr "relevance";
  selectedProduct := None;
  isModalOpen := false;
  compareList := [];
  isCompareOpen := false
|}.

(** *** State setters *)

Definition setProducts (v : list product) (p : Products) : Products :=
  {| products := v; total := total p; loading := loading p; error := error p;
     searchQuery := searchQuery p; selectedCategory := selectedCategory p;
     selectedBrand := selectedBrand p; priceRange := priceRange p;
     sortBy := sortBy p; selectedProduct := selectedProduct p;
     isModalOpen := isModalOpen p; compareList := compareList p;
     isCompareOpen := isCompareOpen p |}.

Definition setTotal (v : option jsval) (p : Products) : Products :=
  {| products := products p; total := v; loading := loading p; error := error p;
     searchQuery := searchQuery p; selectedCategory := selectedCategory p;
     selectedBrand := selectedBrand p; priceRange := priceRange p;
     sortBy := sortBy p; selectedProduct := selectedProduct p;
     isModalOpen := isModalOpen p; compareList := compareList p;
     isCompareOpen := isCompareOpen p |}.

Definition setLoading (v : bool) (p : Products) : Products :=
  {| products := products p; total := total p; loading := v; error := error p;
     searchQuery := searchQuery p; selectedCategory := selectedCategory p;
     selectedBrand := selectedBrand p; priceRange := priceRange p;
     sortBy := sortBy p; selectedProduct := selectedProduct p;
     isModalOpen := isModalOpen p; compareList := compareList p;
     isCompareOpen := isCompareOpen p |}.

Definition setError (v : option string) (p : Products) : Products :=
  {| products := products p; total := total p; loading := loading p; error := v;
     searchQuery := searchQuery p; selectedCategory := selectedCategory p;
     selectedBrand := selectedBrand p; priceRange := priceRange p;
     sortBy := sortBy p; selectedProduct := selectedProduct p;
     isModalOpen := isModalOpen p; compareList := compareList p;
     isCompareOpen := isCompareOpen p |}.

Definition setSearchQuery (v : jsval) (p : Products) : Products :=
  {| products := products p; total := total p; loading := loading p;
     error := error p;
     searchQuery := v; selectedCategory := selectedCategory p;
     selectedBrand := selectedBrand p; priceRange := priceRange p;
     sortBy := sortBy p; selectedProduct := selectedProduct p;
     isModalOpen := isModalOpen p; compareList := compareList p;
     isCompareOpen := isCompareOpen p |}.

Definition setSelectedCategory (v : jsval) (p : Products) : Products :=
  {| products := products p; total := total p; loading := loading p;
     error := error p;
     searchQuery := searchQuery p; selectedCategory := v;
     selectedBrand := selectedBrand p; priceRange := priceRange p;
     sortBy := sortBy p; selectedProduct := selectedProduct p;
     isModalOpen := isModalOpen p; compareList := compareList p;
     isCompareOpen := isCompareOpen p |}.

Definition setSelectedBrand (v : jsval) (p : Products) : Products :=
  {| products := products p; total := total p; loading := loading p;
     error := error p;
     searchQuery := searchQuery p; selectedCategory := selectedCategory p;
     selectedBrand := v; priceRange := priceRange p;
     sortBy := sortBy p; selectedProduct := selectedProduct p;
     isModalOpen := isModalOpen p; compareList := compareList p;
     isCompareOpen := isCompareOpen p |}.

(** [setPriceRange] is always called with an updater function. *)
Definition setPriceRange (f : PriceRange -> PriceRange) (p : Products)
  : Products :=
  {| products := products p; total := total p; loading := loading p;
     error := error p;
     searchQuery := searchQuery p; selectedCategory := selectedCategory p;
     selectedBrand := selectedBrand p; priceRange := f (priceRange p);
     sortBy := sortBy p; selectedProduct := selectedProduct p;
     isModalOpen := isModalOpen p; compareList := compareList p;
     isCompareOpen := isCompareOpen p |}.

Definition setSortBy (v : jsval) (p : Products) : Products :=
  {| products := products p; total := total p; loading := loading p;
     error := error p;
     searchQuery := searchQuery p; selectedCategory := selectedCategory p;
     selectedBrand := selectedBrand p; priceRange := priceRange p;
     sortBy := v; selectedProduct := selectedProduct p;
     isModalOpen := isModalOpen p; compareList := compareList p;
     isCompareOpen := isCompareOpen p |}.

Definition setSelectedProduct (v : option product) (p : Products) : Products :=
  {| products := products p; total := total p; loading := loading p;
     error := error p;
     searchQuery := searchQuery p; selectedCategory := selectedCategory p;
     selectedBrand := selectedBrand p; priceRange := priceRange p;
     sortBy := sortBy p; selectedProduct := v;
     isModalOpen := isModalOpen p; compareList := compareList p;
     isCompareOpen := isCompareOpen p |}.

Definition setIsModalOpen (v : bool) (p : Products) : Products :=
  {| products := products p; total := total p; loading := loading p;
     error := error p;
     searchQuery := searchQuery p; selectedCategory := selectedCategory p;
     selectedBrand := selectedBrand p; priceRange := priceRange p;
     sortBy := sortBy p; selectedProduct := selectedProduct p;
     isModalOpen := v; compareList := compareList p;
     isCompareOpen := isCompareOpen p |}.

Definition setCompareList (f : list product -> list product) (p : Products)
  : Products :=
  {| products := products p; total := total p; loading := loading p;
     error := error p;
     searchQuery := searchQuery p; selectedCategory := selectedCategory p;
     selectedBrand := selectedBrand p; priceRange := priceRange p;
     sortBy := sortBy p; selectedProduct := selectedProduct p;
     isModalOpen := isModalOpen p; compareList := f (compareList p);
     isCompareOpen := isCompareOpen p |}.

Definition setIsCompareOpen (v : bool) (p : Products) : Products :=
  {| products := products p; total := total p; loading := loading p;
     error := error p;
     searchQuery := searchQuery p; selectedCategory := selectedCategory p;
     selectedBrand := selectedBrand p; priceRange := priceRange p;
     sortBy := sortBy p; selectedProduct := selectedProduct p;
     isModalOpen := isModalOpen p; compareList := compareList p;
     isCompareOpen := v |}.

(** *** Voice callbacks registered by the page *)

(** [if (filters.k) set(filters.k)]: a key is applied when its value is
    truthy; an absent key reads as [undefined]. *)
Definition whenTruthy (filters : jsobj) (k : string)
    (set : jsval -> Products -> Products) (p : Products) : Products :=
  match filters !! k with
  | Some v => if truthy v then set v p else p
  | None => p
  end.

(** The callback given to [registerFiltersCallback]; the same six lines
    apply the filters of a pending update on mount. *)
Definition applyFilters (filters : jsobj) (p : Products) : Products :=
  let p := whenTruthy filters "category" setSelectedCategory p in
  let p := whenTruthy filters "brand" setSelectedBrand p in
  let p := whenTruthy filters "min_price"
             (fun v => setPriceRange (fun prev => {| min := v; max := max prev |})) p in
  let p := whenTruthy filters "max_price"
             (fun v => setPriceRange (fun prev => {| min := min prev; max := v |})) p in
  let p := whenTruthy filters "sort_by" setSortBy p in
  whenTruthy filters "query" setSearchQuery p.

(** The six filter cells of the page, by the key of the event that is
    written into them. *)
Definition filterKeys : list string :=
  ["category"; "brand"; "min_price"; "max_price"; "sort_by"; "query"].

Definition filterCell (k : string) (p : Products) : option jsval :=
  if String.eqb k "category" then Some (selectedCategory p)
  else if String.eqb k "brand" then Some (selectedBrand p)
  else if String.eqb k "min_price" then Some (min (priceRange p))
  else if String.eqb k "max_price" then Some (max (priceRange p))
  else if String.eqb k "sort_by" then Some (sortBy p)
  else if String.eqb k "query" then Some (searchQuery p)
  else None.

(** The callback given to [registerProductsCallback]. *)
Definition onProductsUpdate (newProducts : list product)
    (newTotal : option jsval) (p : Products) : Products :=
  setLoading false (setTotal newTotal (setProducts newProducts p)).

(** The callback given to [registerProductDetailCallback]. *)
Definition onProductDetail (pr : product) (p : Products) : Products :=
  setIsModalOpen true (setSelectedProduct (Some pr) p).

(** The callback given to [registerCompareCallback]. *)
Definition onCompare (productsToCompare : list product) (p : Products)
  : Products :=
  setIsCompareOpen true (setCompareList (fun _ => productsToCompare) p).

(** *** Manual handlers *)

(** [prev.some(p => p.id === product.id)] *)
Definition isSelected (pr : product) (prev : list product) : bool :=
  existsb (fun q => bool_decide (product_id q = product_id pr)) prev.

(** The updater of [handleCompareToggle]; the [alert] of the branch that
    refuses a fifth product is not recorded. *)
Definition handleCompareToggle (pr : product) (p : Products) : Products :=
  setCompareList (fun prev =>
    if isSelected pr prev
    then List.filter (fun q => negb (bool_decide (product_id q = product_id pr))) prev
    else if (4 <=? length prev)%nat then prev
    else prev ++ [pr]) p.

(** *** HTTP refresh *)

(** [URLSearchParams]: the appended pairs in order. *)
Definition appendIf (c : bool) (k : string) (v : jsval)
    (params : list (string * jsval)) : list (string * jsval) :=
  if c then params ++ [(k, v)] else params.

Definition queryParams (p : Products) : list (string * jsval) :=
  let params := [] in
  let params := appendIf (truthy (searchQuery p)) "query" (searchQuery p) params in
  let params := appendIf (truthy (selectedCategory p)) "category" (selectedCategory p) params in
  let params := appendIf (truthy (selectedBrand p)) "brand" (selectedBrand p) params in
  let params := appendIf (truthy (min (priceRange p))) "min_price" (min (priceRange p)) params in
  let params := appendIf (truthy (max (priceRange p))) "max_price" (max (priceRange p)) params in
  appendIf (negb (bool_decide (sortBy p = JStr "relevance"))) "sort_by" (sortBy p) params.

(** How the [fetch] of [fetchProducts] ends. *)
Inductive fetchResult : Type :=
  | FetchSuccess (ps : list product) (t : option jsval)   (* [data.success] *)
  | FetchFailure                                           (* [!data.success] *)
  | FetchThrows.                                           (* network, JSON *)

(** [fetchProducts] up to its [await fetch(...)]. *)
Definition fetchProducts_issue (p : Products) : Products :=
  setError None (setLoading true p).

(** [fetchProducts] from the response on. *)
Definition fetchProducts_settle (r : fetchResult) (p : Products) : Products :=
  let p :=
    match r with
    | FetchSuccess ps t => setTotal t (setProducts ps p)
    | FetchFailure => setError (Some "Failed to fetch products") p
    | FetchThrows => setError (Some "Failed to connect to server") p
    end in
  setLoading false p.

(** *** CompareModal

    [if (!isOpen || !products || products.length < 2) return null;] with
    [products = compareList] and [isOpen = isCompareOpen]: whether the
    comparison view is rendered. *)
Definition CompareModal_renders (products_ : list product) (isOpen : bool)
  : bool :=
  negb (negb isOpen || (length products_ <? 2)%nat).

Definition compareViewOpen (p : Products) : bool :=
  CompareModal_renders (compareList p) (isCompareOpen p).
End Page.

(** ** The voice provider (context/VoiceContext.js) in its browser *)

Module Voice.
Import Cart.

(** An inbound audio frame: the bytes of the [ArrayBuffer] read from a
    binary message. *)
Definition frame : Type := list Z.

(** [WebSocket.readyState] *)
Inductive readyState : Type := CONNECTING | OPEN | CLOSING | CLOSED.

(** [AudioContext.state] *)
Inductive contextState : Type := suspended | running | closed.

(** The audio track of a microphone stream. *)
Record Track : Type := { enabled : bool; stopped : bool }.

(** What a navigation-carrying SHOW_PRODUCTS event leaves for the page
    that is about to mount. *)
Record PendingUpdate : Type := {
  pending_products : list product;
  pending_total : option jsval;
  pending_filters : jsobj
}.

(** *** React state of [VoiceProvider]: its [useState] cells *)

Record State : Type := {
  isConnected : bool;
  isListening : bool;
  isProcessing : bool;
  isSpeaking : bool;
  userTranscript : string;
  assistantTranscript : string;
  lastProducts : list product;
  lastFilters : jsobj;
  isMuted : bool
}.

Definition setIsConnected (v : bool) (s : State) : State :=
  {| isConnected := v; isListening := isListening s;
     isProcessing := isProcessing s; isSpeaking := isSpeaking s;
     userTranscript := userTranscript s;
     assistantTranscript := assistantTranscript s;
     lastProducts := lastProducts s; lastFilters := lastFilters s;
     isMuted := isMuted s |}.

Definition setIsListening (v : bool) (s : State) : State :=
  {| isConnected := isConnected s; isListening := v;
     isProcessing := isProcessing s; isSpeaking := isSpeaking s;
     userTranscript := userTranscript s;
     assistantTranscript := assistantTranscript s;
     lastProducts := lastProducts s; lastFilters := lastFilters s;
     isMuted := isMuted s |}.

Definition setIsProcessing (v : bool) (s : State) : State :=
  {| isConnected := isConnected s; isListening := isListening s;
     isProcessing := v; isSpeaking := isSpeaking s;
     userTranscript := userTranscript s;
     assistantTranscript := assistantTranscript s;
     lastProducts := lastProducts s; lastFilters := lastFilters s;
     isMuted := isMuted s |}.

Definition setIsSpeaking (v : bool) (s : State) : State :=
  {| isConnected := isConnected s; isListening := isListening s;
     isProcessing := isProcessing s; isSpeaking := v;
     userTranscript := userTranscript s;
     assistantTranscript := assistantTranscript s;
     lastProducts := lastProducts s; lastFilters := lastFilters s;
     isMuted := isMuted s |}.

Definition setUserTranscript (v : string) (s : State) : State :=
  {| isConnected := isConnected s; isListening := isListening s;
     isProcessing := isProcessing s; isSpeaking := isSpeaking s;
     userTranscript := v; assistantTranscript := assistantTranscript s;
     lastProducts := lastProducts s; lastFilters := lastFilters s;
     isMuted := isMuted s |}.

Definition setAssistantTranscript (v : string) (s : State) : State :=
  {| isConnected := isConnected s; isListening := isListening s;
     isProcessing := isProcessing s; isSpeaking := isSpeaking s;
     userTranscript := userTranscript s; assistantTranscript := v;
     lastProducts := lastProducts s; lastFilters := lastFilters s;
     isMuted := isMuted s |}.

Definition setLastProducts (v : list product) (s : State) : State :=
  {| isConnected := isConnected s; isListening := isListening s;
     isProcessing := isProcessing s; isSpeaking := isSpeaking s;
     userTranscript := userTranscript s;
     assistantTranscript := assistantTranscript s; lastProducts := v;
     lastFilters := lastFilters s; isMuted := isMuted s |}.

Definition setLastFilters (v : jsobj) (s : State) : State :=
  {| isConnected := isConnected s; isListening := isListening s;
     isProcessing := isProcessing s; isSpeaking := isSpeaking s;
     userTranscript := userTranscript s;
     assistantTranscript := assistantTranscript s;
     lastProducts := lastProducts s; lastFilters := v; isMuted := isMuted s |}.

Definition setIsMuted (v : bool) (s : State) : State :=
  {| isConnected := isConnected s; isListening := isListening s;
     isProcessing := isProcessing s; isSpeaking := isSpeaking s;
     userTranscript := userTranscript s;
     assistantTranscript := assistantTranscript s;
     lastProducts := lastProducts s; lastFilters := lastFilters s;
     isMuted := v |}.

(** *** Refs of [VoiceProvider]: its [useRef] cells

    A ref that holds a browser object holds its index in the table of the
    objects of its kind, so that two holders of one object see the same
    object.  The callback refs hold closures of the product page; only
    whether they are set is recorded, a call runs the page's function on
    the page that is mounted. *)

Record Refs : Type := {
  voiceUpdateFlagRef : bool;
  pendingVoiceUpdateRef : option PendingUpdate;   (* [None]: [null] *)
  onProductsUpdateRef : bool;   (* callbacks: [false] is [null] *)
  onFiltersUpdateRef : bool;
  onProductDetailRef : bool;
  onCompareRef : bool;
  onAddToCartRef : bool;
  wsRef : option nat;   (* index into [sockets] *)
  audioContextRef : option nat;   (* index into [contexts] *)
  mediaStreamRef : option nat;   (* index into [streams] *)
  processorRef : option nat;   (* index into [processors] *)
  playbackQueueRef : list frame;
  isPlayingRef : bool
}.

Definition set_voiceUpdateFlagRef (v : bool) (r : Refs) : Refs :=
  {| voiceUpdateFlagRef := v;
     pendingVoiceUpdateRef := pendingVoiceUpdateRef r;
     onProductsUpdateRef := onProductsUpdateRef r;
     onFiltersUpdateRef := onFiltersUpdateRef r;
     onProductDetailRef := onProductDetailRef r;
     onCompareRef := onCompareRef r; onAddToCartRef := onAddToCartRef r;
     wsRef := wsRef r; audioContextRef := audioContextRef r;
     mediaStreamRef := mediaStreamRef r; processorRef := processorRef r;
     playbackQueueRef := playbackQueueRef r; isPlayingRef := isPlayingRef r |}.

Definition set_pendingVoiceUpdateRef (v : option PendingUpdate) (r : Refs) : Refs :=
  {| voiceUpdateFlagRef := voiceUpdateFlagRef r; pendingVoiceUpdateRef := v;
     onProductsUpdateRef := onProductsUpdateRef r;
     onFiltersUpdateRef := onFiltersUpdateRef r;
     onProductDetailRef := onProductDetailRef r;
     onCompareRef := onCompareRef r; onAddToCartRef := onAddToCartRef r;
     wsRef := wsRef r; audioContextRef := audioContextRef r;
     mediaStreamRef := mediaStreamRef r; processorRef := processorRef r;
     playbackQueueRef := playbackQueueRef r; isPlayingRef := isPlayingRef r |}.

Definition set_onProductsUpdateRef (v : bool) (r : Refs) : Refs :=
  {| voiceUpdateFlagRef := voiceUpdateFlagRef r;
     pendingVoiceUpdateRef := pendingVoiceUpdateRef r;
     onProductsUpdateRef := v; onFiltersUpdateRef := onFiltersUpdateRef r;
     onProductDetailRef := onProductDetailRef r;
     onCompareRef := onCompareRef r; onAddToCartRef := onAddToCartRef r;
     wsRef := wsRef r; audioContextRef := audioContextRef r;
     mediaStreamRef := mediaStreamRef r; processorRef := processorRef r;
     playbackQueueRef := playbackQueueRef r; isPlayingRef := isPlayingRef r |}.

Definition set_onFiltersUpdateRef (v : bool) (r : Refs) : Refs :=
  {| voiceUpdateFlagRef := voiceUpdateFlagRef r;
     pendingVoiceUpdateRef := pendingVoiceUpdateRef r;
     onProductsUpdateRef := onProductsUpdateRef r; onFiltersUpdateRef := v;
     onProductDetailRef := onProductDetailRef r;
     onCompareRef := onCompareRef r; onAddToCartRef := onAddToCartRef r;
     wsRef := wsRef r; audioContextRef := audioContextRef r;
     mediaStreamRef := mediaStreamRef r; processorRef := processorRef r;
     playbackQueueRef := playbackQueueRef r; isPlayingRef := isPlayingRef r |}.

Definition set_onProductDetailRef (v : bool) (r : Refs) : Refs :=
  {| voiceUpdateFlagRef := voiceUpdateFlagRef r;
     pendingVoiceUpdateRef := pendingVoiceUpdateRef r;
     onProductsUpdateRef := onProductsUpdateRef r;
     onFiltersUpdateRef := onFiltersUpdateRef r; onProductDetailRef := v;
     onCompareRef := onCompareRef r; onAddToCartRef := onAddToCartRef r;
     wsRef := wsRef r; audioContextRef := audioContextRef r;
     mediaStreamRef := mediaStreamRef r; processorRef := processorRef r;
     playbackQueueRef := playbackQueueRef r; isPlayingRef := isPlayingRef r |}.

Definition set_onCompareRef (v : bool) (r : Refs) : Refs :=
  {| voiceUpdateFlagRef := voiceUpdateFlagRef r;
     pendingVoiceUpdateRef := pendingVoiceUpdateRef r;
     onProductsUpdateRef := onProductsUpdateRef r;
     onFiltersUpdateRef := onFiltersUpdateRef r;
     onProductDetailRef := onProductDetailRef r; onCompareRef := v;
     onAddToCartRef := onAddToCartRef r; wsRef := wsRef r;
     audioContextRef := audioContextRef r;
     mediaStreamRef := mediaStreamRef r; processorRef := processorRef r;
     playbackQueueRef := playbackQueueRef r; isPlayingRef := isPlayingRef r |}.

Definition set_onAddToCartRef (v : bool) (r : Refs) : Refs :=
  {| voiceUpdateFlagRef := voiceUpdateFlagRef r;
     pendingVoiceUpdateRef := pendingVoiceUpdateRef r;
     onProductsUpdateRef := onProductsUpdateRef r;
     onFiltersUpdateRef := onFiltersUpdateRef r;
     onProductDetailRef := onProductDetailRef r;
     onCompareRef := onCompareRef r; onAddToCartRef := v; wsRef := wsRef r;
     audioContextRef := audioContextRef r;
     mediaStreamRef := mediaStreamRef r; processorRef := processorRef r;
     playbackQueueRef := playbackQueueRef r; isPlayingRef := isPlayingRef r |}.

Definition set_wsRef (v : option nat) (r : Refs) : Refs :=
  {| voiceUpdateFlagRef := voiceUpdateFlagRef r;
     pendingVoiceUpdateRef := pendingVoiceUpdateRef r;
     onProductsUpdateRef := onProductsUpdateRef r;
     onFiltersUpdateRef := onFiltersUpdateRef r;
     onProductDetailRef := onProductDetailRef r;
     onCompareRef := onCompareRef r; onAddToCartRef := onAddToCartRef r;
     wsRef := v; audioContextRef := audioContextRef r;
     mediaStreamRef := mediaStreamRef r; processorRef := processorRef r;
     playbackQueueRef := playbackQueueRef r; isPlayingRef := isPlayingRef r |}.

Definition set_audioContextRef (v : option nat) (r : Refs) : Refs :=
  {| voiceUpdateFlagRef := voiceUpdateFlagRef r;
     pendingVoiceUpdateRef := pendingVoiceUpdateRef r;
     onProductsUpdateRef := onProductsUpdateRef r;
     onFiltersUpdateRef := onFiltersUpdateRef r;
     onProductDetailRef := onProductDetailRef r;
     onCompareRef := onCompareRef r; onAddToCartRef := onAddToCartRef r;
     wsRef := wsRef r; audioContextRef := v;
     mediaStreamRef := mediaStreamRef r; processorRef := processorRef r;
     playbackQueueRef := playbackQueueRef r; isPlayingRef := isPlayingRef r |}.

Definition set_mediaStreamRef (v : option nat) (r : Refs) : Refs :=
  {| voiceUpdateFlagRef := voiceUpdateFlagRef r;
     pendingVoiceUpdateRef := pendingVoiceUpdateRef r;
     onProductsUpdateRef := onProductsUpdateRef r;
     onFiltersUpdateRef := onFiltersUpdateRef r;
     onProductDetailRef := onProductDetailRef r;
     onCompareRef := onCompareRef r; onAddToCartRef := onAddToCartRef r;
     wsRef := wsRef r; audioContextRef := audioContextRef r;
     mediaStreamRef := v; processorRef := processorRef r;
     playbackQueueRef := playbackQueueRef r; isPlayingRef := isPlayingRef r |}.

Definition set_processorRef (v : option nat) (r : Refs) : Refs :=
  {| voiceUpdateFlagRef := voiceUpdateFlagRef r;
     pendingVoiceUpdateRef := pendingVoiceUpdateRef r;
     onProductsUpdateRef := onProductsUpdateRef r;
     onFiltersUpdateRef := onFiltersUpdateRef r;
     onProductDetailRef := onProductDetailRef r;
     onCompareRef := onCompareRef r; onAddToCartRef := onAddToCartRef r;
     wsRef := wsRef r; audioContextRef := audioContextRef r;
     mediaStreamRef := mediaStreamRef r; processorRef := v;
     playbackQueueRef := playbackQueueRef r; isPlayingRef := isPlayingRef r |}.

Definition set_playbackQueueRef (v : list frame) (r : Refs) : Refs :=
  {| voiceUpdateFlagRef := voiceUpdateFlagRef r;
     pendingVoiceUpdateRef := pendingVoiceUpdateRef r;
     onProductsUpdateRef := onProductsUpdateRef r;
     onFiltersUpdateRef := onFiltersUpdateRef r;
     onProductDetailRef := onProductDetailRef r;
     onCompareRef := onCompareRef r; onAddToCartRef := onAddToCartRef r;
     wsRef := wsRef r; audioContextRef := audioContextRef r;
     mediaStreamRef := mediaStreamRef r; processorRef := processorRef r;
     playbackQueueRef := v; isPlayingRef := isPlayingRef r |}.

Definition set_isPlayingRef (v : bool) (r : Refs) : Refs :=
  {| voiceUpdateFlagRef := voiceUpdateFlagRef r;
     pendingVoiceUpdateRef := pendingVoiceUpdateRef r;
     onProductsUpdateRef := onProductsUpdateRef r;
     onFiltersUpdateRef := onFiltersUpdateRef r;
     onProductDetailRef := onProductDetailRef r;
     onCompareRef := onCompareRef r; onAddToCartRef := onAddToCartRef r;
     wsRef := wsRef r; audioContextRef := audioContextRef r;
     mediaStreamRef := mediaStreamRef r; processorRef := processorRef r;
     playbackQueueRef := playbackQueueRef r; isPlayingRef := v |}.

(** *** The browser: the objects the provider created and what it was
    asked to do *)

Record Browser : Type := {
  sockets : list readyState;   (* every [new WebSocket], by creation *)
  micRequests : nat;   (* [getUserMedia] calls not yet settled *)
  streams : list Track;   (* every granted microphone stream *)
  contexts : list contextState;   (* every playback [AudioContext] *)
  processors : list bool;   (* script processors; [true]: connected *)
  sent : list (nat * list Z);   (* every [ws.send], oldest first *)
  resuming : list (frame * nat);   (* [playNextAudio] calls waiting in [resume()] *)
  sounding : list frame;   (* started sources that have not ended *)
  rendered : list frame;   (* every [source.start()], oldest first *)
  pushed : list frame;   (* every push on the playback queue *)
  navigations : list jsval;   (* every [navigate(...)] *)
  flagTimers : nat;   (* pending [setTimeout] callbacks *)
  requests : list (list (string * jsval));   (* product fetches in flight *)
  alerts : nat;   (* [alert] calls *)
  captures : nat   (* capture [AudioContext]s of [startAudioStreaming], each
                      with its [MediaStreamSource]: no ref holds one and
                      nothing ever closes one *)
}.

Definition set_sockets (v : list readyState) (b : Browser) : Browser :=
  {| sockets := v; micRequests := micRequests b; streams := streams b;
     contexts := contexts b; processors := processors b; sent := sent b;
     resuming := resuming b; sounding := sounding b; rendered := rendered b;
     pushed := pushed b; navigations := navigations b;
     flagTimers := flagTimers b; requests := requests b; alerts := alerts b;
     captures := captures b |}.

Definition set_micRequests (v : nat) (b : Browser) : Browser :=
  {| sockets := sockets b; micRequests := v; streams := streams b;
     contexts := contexts b; processors := processors b; sent := sent b;
     resuming := resuming b; sounding := sounding b; rendered := rendered b;
     pushed := pushed b; navigations := navigations b;
     flagTimers := flagTimers b; requests := requests b; alerts := alerts b;
     captures := captures b |}.

Definition set_streams (v : list Track) (b : Browser) : Browser :=
  {| sockets := sockets b; micRequests := micRequests b; streams := v;
     contexts := contexts b; processors := processors b; sent := sent b;
     resuming := resuming b; sounding := sounding b; rendered := rendered b;
     pushed := pushed b; navigations := navigations b;
     flagTimers := flagTimers b; requests := requests b; alerts := alerts b;
     captures := captures b |}.

Definition set_contexts (v : list contextState) (b : Browser) : Browser :=
  {| sockets := sockets b; micRequests := micRequests b;
     streams := streams b; contexts := v; processors := processors b;
     sent := sent b; resuming := resuming b; sounding := sounding b;
     rendered := rendered b; pushed := pushed b;
     navigations := navigations b; flagTimers := flagTimers b;
     requests := requests b; alerts := alerts b;
     captures := captures b |}.

Definition set_processors (v : list bool) (b : Browser) : Browser :=
  {| sockets := sockets b; micRequests := micRequests b;
     streams := streams b; contexts := contexts b; processors := v;
     sent := sent b; resuming := resuming b; sounding := sounding b;
     rendered := rendered b; pushed := pushed b;
     navigations := navigations b; flagTimers := flagTimers b;
     requests := requests b; alerts := alerts b;
     captures := captures b |}.

Definition set_sent (v : list (nat * list Z)) (b : Browser) : Browser :=
  {| sockets := sockets b; micRequests := micRequests b;
     streams := streams b; contexts := contexts b;
     processors := processors b; sent := v; resuming := resuming b;
     sounding := sounding b; rendered := rendered b; pushed := pushed b;
     navigations := navigations b; flagTimers := flagTimers b;
     requests := requests b; alerts := alerts b;
     captures := captures b |}.

Definition set_resuming (v : list (frame * nat)) (b : Browser) : Browser :=
  {| sockets := sockets b; micRequests := micRequests b;
     streams := streams b; contexts := contexts b;
     processors := processors b; sent := sent b; resuming := v;
     sounding := sounding b; rendered := rendered b; pushed := pushed b;
     navigations := navigations b; flagTimers := flagTimers b;
     requests := requests b; alerts := alerts b;
     captures := captures b |}.

Definition set_sounding (v : list frame) (b : Browser) : Browser :=
  {| sockets := sockets b; micRequests := micRequests b;
     streams := streams b; contexts := contexts b;
     processors := processors b; sent := sent b; resuming := resuming b;
     sounding := v; rendered := rendered b; pushed := pushed b;
     navigations := navigations b; flagTimers := flagTimers b;
     requests := requests b; alerts := alerts b;
     captures := captures b |}.

Definition set_rendered (v : list frame) (b : Browser) : Browser :=
  {| sockets := sockets b; micRequests := micRequests b;
     streams := streams b; contexts := contexts b;
     processors := processors b; sent := sent b; resuming := resuming b;
     sounding := sounding b; rendered := v; pushed := pushed b;
     navigations := navigations b; flagTimers := flagTimers b;
     requests := requests b; alerts := alerts b;
     captures := captures b |}.

Definition set_pushed (v : list frame) (b : Browser) : Browser :=
  {| sockets := sockets b; micRequests := micRequests b;
     streams := streams b; contexts := contexts b;
     processors := processors b; sent := sent b; resuming := resuming b;
     sounding := sounding b; rendered := rendered b; pushed := v;
     navigations := navigations b; flagTimers := flagTimers b;
     requests := requests b; alerts := alerts b;
     captures := captures b |}.

Definition set_navigations (v : list jsval) (b : Browser) : Browser :=
  {| sockets := sockets b; micRequests := micRequests b;
     streams := streams b; contexts := contexts b;
     processors := processors b; sent := sent b; resuming := resuming b;
     sounding := sounding b; rendered := rendered b; pushed := pushed b;
     navigations := v; flagTimers := flagTimers b; requests := requests b;
     alerts := alerts b;
     captures := captures b |}.

Definition set_flagTimers (v : nat) (b : Browser) : Browser :=
  {| sockets := sockets b; micRequests := micRequests b;
     streams := streams b; contexts := contexts b;
     processors := processors b; sent := sent b; resuming := resuming b;
     sounding := sounding b; rendered := rendered b; pushed := pushed b;
     navigations := navigations b; flagTimers := v; requests := requests b;
     alerts := alerts b;
     captures := captures b |}.

Definition set_requests (v : list (list (string * jsval))) (b : Browser) : Browser :=
  {| sockets := sockets b; micRequests := micRequests b;
     streams := streams b; contexts := contexts b;
     processors := processors b; sent := sent b; resuming := resuming b;
     sounding := sounding b; rendered := rendered b; pushed := pushed b;
     navigations := navigations b; flagTimers := flagTimers b;
     requests := v; alerts := alerts b;
     captures := captures b |}.

Definition set_alerts (v : nat) (b : Browser) : Browser :=
  {| sockets := sockets b; micRequests := micRequests b;
     streams := streams b; contexts := contexts b;
     processors := processors b; sent := sent b; resuming := resuming b;
     sounding := sounding b; rendered := rendered b; pushed := pushed b;
     navigations := navigations b; flagTimers := flagTimers b;
     requests := requests b; alerts := v;
     captures := captures b |}.

Definition set_captures (v : nat) (b : Browser) : Browser :=
  {| sockets := sockets b; micRequests := micRequests b;
     streams := streams b; contexts := contexts b;
     processors := processors b; sent := sent b; resuming := resuming b;
     sounding := sounding b; rendered := rendered b; pushed := pushed b;
     navigations := navigations b; flagTimers := flagTimers b;
     requests := requests b; alerts := alerts b; captures := v |}.

(** *** The whole front end

    [page] is the mounted instance of [Products], if any; [cart] is the
    [items] cell of [CartProvider]. *)

Record World : Type := {
  state : State;
  refs : Refs;
  page : option Page.Products;
  cart : list item;
  browser : Browser
}.

Definition onState (f : State -> State) (w : World) : World :=
  {| state := f (state w); refs := refs w; page := page w; cart := cart w;
     browser := browser w |}.

Definition onRefs (f : Refs -> Refs) (w : World) : World :=
  {| state := state w; refs := f (refs w); page := page w; cart := cart w;
     browser := browser w |}.

(** A state setter of the page called from outside: it acts on the mounted
    instance; on an unmounted one React drops the update. *)
Definition onPage (f : Page.Products -> Page.Products) (w : World) : World :=
  {| state := state w; refs := refs w; page := f <$> page w; cart := cart w;
     browser := browser w |}.

Definition setPage (p : option Page.Products) (w : World) : World :=
  {| state := state w; refs := refs w; page := p; cart := cart w;
     browser := browser w |}.

Definition onCart (f : list item -> list item) (w : World) : World :=
  {| state := state w; refs := refs w; page := page w; cart := f (cart w);
     browser := browser w |}.

Definition onBrowser (f : Browser -> Browser) (w : World) : World :=
  {| state := state w; refs := refs w; page := page w; cart := cart w;
     browser := f (browser w) |}.

Definition initialState : State := {|
  isConnected := false; isListening := false; isProcessing := false;
  isSpeaking := false; userTranscript := ""; assistantTranscript := "";
  lastProducts := []; lastFilters := ∅; isMuted := false
|}.

Definition initialRefs : Refs := {|
  voiceUpdateFlagRef := false; pendingVoiceUpdateRef := None;
  onProductsUpdateRef := false; onFiltersUpdateRef := false;
  onProductDetailRef := false; onCompareRef := false;
  onAddToCartRef := false;
  wsRef := None; audioContextRef := None; mediaStreamRef := None;
  processorRef := None; playbackQueueRef := []; isPlayingRef := false
|}.

Definition initialBrowser : Browser := {|
  sockets := []; micRequests := 0; streams := []; contexts := [];
  processors := []; sent := []; resuming := []; sounding := [];
  rendered := []; pushed := []; navigations := []; flagTimers := 0;
  requests := []; alerts := 0; captures := 0
|}.

(** The application right after [index.js] has rendered the providers, on
    a route other than the product page. *)
Definition initial : World := {|
  state := initialState; refs := initialRefs; page := None; cart := [];
  browser := initialBrowser
|}.

(** *** Structured events of the far end *)

Record UIData : Type := {
  data_products : option (list product);
  data_product : option product;
  data_total : option jsval
}.

(** A [ui_update] message.  An absent (or [null]) member is [None]. *)
Record UIUpdate : Type := {
  action : string;
  navigate_to : option jsval;
  data : option UIData;
  filters : option jsobj
}.

(** A parsed message, by its [type]. *)
Inductive Message : Type :=
  | user_transcript (transcript : string)
  | assistant_transcript (transcript : string)
  | ui_update (event : UIUpdate)
  | clear_audio_queue
  | error (err : string)
  | other (type : string).

(** *** UI updates *)

Definition navigate (to : jsval) (w : World) : World :=
  onBrowser (fun b => set_navigations (navigations b ++ [to]) b) w.

(** [setTimeout(() => { voiceUpdateFlagRef.current = false; }, 500)] *)
Definition setTimeout_clearFlag (w : World) : World :=
  onBrowser (fun b => set_flagTimers (S (flagTimers b)) b) w.

(** [data?.products] and [data?.product] *)
Definition products_of (event : UIUpdate) : option (list product) :=
  data event ≫= data_products.

Definition product_of (event : UIUpdate) : option product :=
  data event ≫= data_product.

Definition total_of (event : UIUpdate) : option jsval :=
  data event ≫= data_total.

(** [filters || {}] *)
Definition filters_or_empty (event : UIUpdate) : jsobj :=
  default ∅ (filters event).

Definition showProducts (event : UIUpdate) (w : World) : World :=
  match products_of event with
  | Some ps =>
      let w := onState (setLastProducts ps) w in
      let w := onState (setLastFilters (filters_or_empty event)) w in
      let w := onRefs (set_voiceUpdateFlagRef true) w in
      let w :=
        if truthy_opt (navigate_to event)
        then onRefs (set_pendingVoiceUpdateRef
                       (Some {| pending_products := ps;
                                pending_total := total_of event;
                                pending_filters := filters_or_empty event |})) w
        else w in
      let w :=
        if onProductsUpdateRef (refs w)
        then onPage (Page.onProductsUpdate ps (total_of event)) w
        else w in
      let w :=
        match filters event with
        | Some fs =>
            if onFiltersUpdateRef (refs w) then onPage (Page.applyFilters fs) w
            else w
        | None => w
        end in
      setTimeout_clearFlag w
  | None => w
  end.

Definition handleUIUpdate (event : UIUpdate) (w : World) : World :=
  let w :=
    match navigate_to event with
    | Some to => if truthy to then navigate to w else w
    | None => w
    end in
  if String.eqb (action event) "SHOW_PRODUCTS" then showProducts event w
  else if String.eqb (action event) "SHOW_PRODUCT_DETAILS" then
    match product_of event with
    | Some pr =>
        if onProductDetailRef (refs w) then onPage (Page.onProductDetail pr) w
        else w
    | None => w
    end
  else if String.eqb (action event) "COMPARE_PRODUCTS" then
    match products_of event with
    | Some ps =>
        if onCompareRef (refs w) then onPage (Page.onCompare ps) w else w
    | None => w
    end
  else if String.eqb (action event) "ADD_TO_CART" then
    match product_of event with
    | Some pr =>
        if onAddToCartRef (refs w) then onCart (addToCart pr) w else w
    | None => w
    end
  else w.   (* NAVIGATE: handled above; anything else: logged *)

Definition isVoiceUpdateInProgress (w : World) : bool :=
  voiceUpdateFlagRef (refs w).

Definition consumePendingVoiceData (w : World)
  : option PendingUpdate * World :=
  let data := pendingVoiceUpdateRef (refs w) in
  (data, onRefs (set_pendingVoiceUpdateRef None) w).

(** *** Playback *)

(** Whether decoding and scheduling a frame throws: [new Int16Array(buf)]
    raises a [RangeError] on an odd number of bytes, and
    [createBuffer(1, 0, 24000)] a [NotSupportedError] on an empty frame. *)
Definition render_throws (audioData : frame) : bool :=
  Nat.odd (length audioData) || (length audioData =? 0)%nat.

(** [source.start()] *)
Definition start (audioData : frame) (w : World) : World :=
  onBrowser (fun b =>
    set_rendered (rendered b ++ [audioData])
      (set_sounding (sounding b ++ [audioData]) b)) w.

(** [playNextAudio] once its guard has let it in, with [queue] the
    playback queue it found.  The [catch] block clears the guard and calls
    [playNextAudio] again, which finds the guard clear and the rest of the
    queue: that is the recursive call. *)
Fixpoint playNextAudio_from (queue : list frame) (w : World) : World :=
  match queue with
  | [] => onState (setIsSpeaking false) w
  | audioData :: rest =>
      let w := onRefs (set_isPlayingRef true) w in
      let w := onRefs (set_playbackQueueRef rest) w in
      match audioContextRef (refs w) with
      | None => w                       (* [if (!audioContext) return;] *)
      | Some c =>
          match contexts (browser w) !! c with
          | Some suspended =>            (* [await audioContext.resume()] *)
              onBrowser (fun b => set_resuming (resuming b ++ [(audioData, c)]) b) w
          | _ =>
              if render_throws audioData
              then playNextAudio_from rest (onRefs (set_isPlayingRef false) w)
              else start audioData w
          end
      end
  end.

Definition playNextAudio (w : World) : World :=
  if isPlayingRef (refs w)
  then match playbackQueueRef (refs w) with
       | [] => onState (setIsSpeaking false) w
       | _ :: _ => w
       end
  else playNextAudio_from (playbackQueueRef (refs w)) w.

(** The [catch] block of [playNextAudio]. *)
Definition playNextAudio_catch (w : World) : World :=
  playNextAudio (onRefs (set_isPlayingRef false) w).

(** [playNextAudio] from the point where [audioContext.resume()] settles,
    for the call that holds [audioData] and the context [c]: on a closed
    context the promise is rejected, otherwise the context runs. *)
Definition playNextAudio_resumed (audioData : frame) (c : nat) (w : World)
  : World :=
  match contexts (browser w) !! c with
  | Some closed => playNextAudio_catch w
  | _ =>
      let w := onBrowser (fun b => set_contexts (<[c := running]> (contexts b)) b) w in
      if render_throws audioData then playNextAudio_catch w
      else start audioData w
  end.

(** [source.onended] *)
Definition onended (w : World) : World :=
  playNextAudio (onRefs (set_isPlayingRef false) w).

(** [ws.onmessage] for a binary message, from the point where
    [event.data.arrayBuffer()] has produced the bytes. *)
Definition onmessage_audio (arrayBuffer : frame) (w : World) : World :=
  let w := onRefs (fun r => set_playbackQueueRef (playbackQueueRef r ++ [arrayBuffer]) r) w in
  let w := onBrowser (fun b => set_pushed (pushed b ++ [arrayBuffer]) b) w in
  let w := onState (setIsSpeaking true) w in
  playNextAudio w.

Definition handleWebSocketEvent (data : Message) (w : World) : World :=
  match data with
  | user_transcript t =>
      onState (setIsProcessing true) (onState (setUserTranscript t) w)
  | assistant_transcript t =>
      onState (setIsProcessing false) (onState (setAssistantTranscript t) w)
  | ui_update event => handleUIUpdate event w
  | clear_audio_queue =>
      onState (setIsSpeaking false) (onRefs (set_playbackQueueRef []) w)
  | error _ => w
  | other _ => w
  end.

(** *** Session *)

Definition closeSocket (i : nat) (l : list readyState) : list readyState :=
  match l !! i with
  | Some CLOSED => l
  | Some _ => <[i := CLOSING]> l
  | None => l
  end.

Definition cleanup (w : World) : World :=
  let w :=
    match wsRef (refs w) with
    | Some i =>
        onRefs (set_wsRef None)
          (onBrowser (fun b => set_sockets (closeSocket i (sockets b)) b) w)
    | None => w
    end in
  let w :=
    match mediaStreamRef (refs w) with
    | Some k =>
        onRefs (set_mediaStreamRef None)
          (onBrowser (fun b =>
             set_streams (alter (fun t => {| enabled := enabled t; stopped := true |}) k
                            (streams b)) b) w)
    | None => w
    end in
  let w :=
    match processorRef (refs w) with
    | Some p =>
        onRefs (set_processorRef None)
          (onBrowser (fun b => set_processors (<[p := false]> (processors b)) b) w)
    | None => w
    end in
  let w :=
    match audioContextRef (refs w) with
    | Some c =>
        onRefs (set_audioContextRef None)
          (onBrowser (fun b => set_contexts (<[c := closed]> (contexts b)) b) w)
    | None => w
    end in
  onRefs (set_playbackQueueRef []) w.

Definition stopVoice (w : World) : World :=
  let w := cleanup w in
  onState (fun s =>
    setIsMuted false (setIsProcessing false (setIsSpeaking false
      (setIsListening false (setIsConnected false s))))) w.

(** [startVoice] up to its [await getUserMedia(...)]. *)
Definition startVoice (w : World) : World :=
  onBrowser (fun b => set_micRequests (S (micRequests b)) b) w.

(** [startVoice] from the granted stream on: the stream, a playback
    context and a socket are created and the refs are pointed at them. *)
Definition startVoice_granted (w : World) : World :=
  let b := browser w in
  let stream := length (streams b) in
  let ctx := length (contexts b) in
  let ws := length (sockets b) in
  let w := onBrowser (fun b =>
             set_streams (streams b ++ [{| enabled := true; stopped := false |}]) b) w in
  let w := onRefs (set_mediaStreamRef (Some stream)) w in
  let w := onBrowser (fun b => set_contexts (contexts b ++ [suspended]) b) w in
  let w := onRefs (set_audioContextRef (Some ctx)) w in
  let w := onBrowser (fun b => set_sockets (sockets b ++ [CONNECTING]) b) w in
  onRefs (set_wsRef (Some ws)) w.

(** The [catch] block of [startVoice]. *)
Definition startVoice_denied (w : World) : World :=
  onBrowser (fun b => set_alerts (S (alerts b)) b) w.

Definition toggleVoice (w : World) : World :=
  if isConnected (state w) then stopVoice w else startVoice w.

Definition toggleMute (w : World) : World :=
  match mediaStreamRef (refs w) with
  | Some k =>
      match streams (browser w) !! k with
      | Some audioTrack =>
          let e := negb (enabled audioTrack) in
          let w := onBrowser (fun b =>
                     set_streams (<[k := {| enabled := e; stopped := stopped audioTrack |}]>
                                    (streams b)) b) w in
          onState (setIsMuted (negb e)) w
      | None => w
      end
  | None => w
  end.

(** [startAudioStreaming]: a capture context is created for the stream
    ([new AudioContext], [createMediaStreamSource]) and kept in no ref; a
    script processor is created, kept in [processorRef] and connected. *)
Definition startAudioStreaming (w : World) : World :=
  let w := onBrowser (fun b => set_captures (S (captures b)) b) w in
  let p := length (processors (browser w)) in
  let w := onBrowser (fun b => set_processors (processors b ++ [true]) b) w in
  onRefs (set_processorRef (Some p)) w.

(** [wsRef.current?.readyState === WebSocket.OPEN] *)
Definition channelOpen (w : World) : option nat :=
  match wsRef (refs w) with
  | Some i =>
      match sockets (browser w) !! i with
      | Some OPEN => Some i
      | _ => None
      end
  | None => None
  end.

(** [processor.onaudioprocess] *)
Definition onaudioprocess (inputData : list Q) (w : World) : World :=
  match channelOpen w with
  | Some i =>
      let pcm16 := Codec.encode inputData in
      onBrowser (fun b => set_sent (sent b ++ [(i, pcm16)]) b) w
  | None => w
  end.

Definition onopen (w : World) : World :=
  let w := onState (setIsConnected true) w in
  let w := onState (setIsListening true) w in
  startAudioStreaming w.

Definition onerror (w : World) : World :=
  onState (setIsConnected false) w.

Definition onclose (w : World) : World :=
  let w := onState (setIsConnected false) w in
  let w := onState (setIsListening false) w in
  cleanup w.

(** *** Effects of the product page *)

(** The first effect of [Products]: it registers the five callbacks, then
    reads the pending update. *)
Definition voiceEffect (w : World) : World :=
  let w := onRefs (fun r =>
             set_onAddToCartRef true (set_onCompareRef true
               (set_onProductDetailRef true (set_onFiltersUpdateRef true
                 (set_onProductsUpdateRef true r))))) w in
  let '(pendingData, w) := consumePendingVoiceData w in
  match pendingData with
  | Some d =>
      if isVoiceUpdateInProgress w
      then onPage (fun p =>
             Page.applyFilters (pending_filters d)
               (Page.setLoading false
                  (Page.setTotal (pending_total d)
                     (Page.setProducts (pending_products d) p)))) w
      else w
  | None => w
  end.

(** [fetchProducts] up to its [await]: the request leaves. *)
Definition fetchProducts (w : World) : World :=
  match page w with
  | Some p =>
      onBrowser (fun b => set_requests (requests b ++ [Page.queryParams p]) b)
        (onPage Page.fetchProducts_issue w)
  | None => w
  end.

(** The effect that refreshes the products when the filters change. *)
Definition refreshEffect (w : World) : World :=
  if isVoiceUpdateInProgress w then w else fetchProducts w.

(** The Try Again button, rendered while [error] is set:
    [onClick={fetchProducts}]. *)
Definition tryAgain (w : World) : World :=
  match page w with
  | Some p => if Page.error p is Some _ then fetchProducts w else w
  | None => w
  end.

(** The response to the [i]-th request in flight arrives. *)
Definition fetchSettled (i : nat) (r : Page.fetchResult) (w : World) : World :=
  match requests (browser w) !! i with
  | Some _ =>
      onPage (Page.fetchProducts_settle r)
        (onBrowser (fun b => set_requests (delete i (requests b)) b) w)
  | None => w
  end.

(** The page mounts: fresh state, then its effects in order. *)
Definition mount (w : World) : World :=
  refreshEffect (voiceEffect (setPage (Some Page.initial) w)).

(** The page unmounts.  The continuations of its requests in flight would
    set the state of the unmounted instance only: they are dropped. *)
Definition unmount (w : World) : World :=
  onBrowser (set_requests []) (setPage None w).

(** *** Events and the step function

    An event is what the browser or the user does next.  The step function
    checks what the handlers themselves depend on (a socket opens once, a
    timer that fires was armed, a response answers a request in flight); it
    does not ask that a socket be open for a message to arrive, so that the
    runs of a browser are among the runs considered. *)

Inductive event : Type :=
  (* command surface *)
  | StartVoice | StopVoice | ToggleVoice | ToggleMute
  (* microphone permission *)
  | MicGranted | MicDenied
  (* sockets *)
  | WsOpen (i : nat) | WsError (i : nat) | WsClose (i : nat)
  | WsMessage (data : Message)          (* a text message that parses *)
  | WsUnparseable                       (* a text message that does not *)
  | WsAudio (arrayBuffer : frame)       (* the bytes of a binary message *)
  (* audio *)
  | AudioProcess (p : nat) (inputData : list Q)
  | ContextState (c : nat) (st : contextState)
  | ResumeSettled
  | SourceEnded
  (* timers *)
  | FlagTimer
  (* product page *)
  | PageMount | PageUnmount | FiltersChanged | TryAgain
  | FetchSettled (i : nat) (r : Page.fetchResult)
  | CompareToggle (pr : product).

Definition step (w : World) (e : event) : World :=
  match e with
  | StartVoice => startVoice w
  | StopVoice => stopVoice w
  | ToggleVoice => toggleVoice w
  | ToggleMute => toggleMute w
  | MicGranted =>
      match micRequests (browser w) with
      | S n => startVoice_granted (onBrowser (set_micRequests n) w)
      | O => w
      end
  | MicDenied =>
      match micRequests (browser w) with
      | S n => startVoice_denied (onBrowser (set_micRequests n) w)
      | O => w
      end
  | WsOpen i =>
      match sockets (browser w) !! i with
      | Some CONNECTING =>
          onopen (onBrowser (fun b => set_sockets (<[i := OPEN]> (sockets b)) b) w)
      | _ => w
      end
  | WsError i =>
      match sockets (browser w) !! i with
      | Some _ => onerror w
      | None => w
      end
  | WsClose i =>
      match sockets (browser w) !! i with
      | Some CLOSED | None => w
      | Some _ =>
          onclose (onBrowser (fun b => set_sockets (<[i := CLOSED]> (sockets b)) b) w)
      end
  | WsMessage data => handleWebSocketEvent data w
  | WsUnparseable => w
  | WsAudio arrayBuffer => onmessage_audio arrayBuffer w
  | AudioProcess p inputData =>
      match processors (browser w) !! p with
      | Some true => onaudioprocess inputData w
      | _ => w
      end
  | ContextState c st =>
      match contexts (browser w) !! c with
      | Some closed | None => w
      | Some _ => onBrowser (fun b => set_contexts (<[c := st]> (contexts b)) b) w
      end
  | ResumeSettled =>
      match resuming (browser w) with
      | (audioData, c) :: rest =>
          playNextAudio_resumed audioData c (onBrowser (set_resuming rest) w)
      | [] => w
      end
  | SourceEnded =>
      match sounding (browser w) with
      | _ :: rest => onended (onBrowser (set_sounding rest) w)
      | [] => w
      end
  | FlagTimer =>
      match flagTimers (browser w) with
      | S n => onRefs (set_voiceUpdateFlagRef false) (onBrowser (set_flagTimers n) w)
      | O => w
      end
  | PageMount =>
      match page w with
      | None => mount w
      | Some _ => w
      end
  | PageUnmount => unmount w
  | FiltersChanged => refreshEffect w
  | TryAgain => tryAgain w
  | FetchSettled i r => fetchSettled i r w
  | CompareToggle pr => onPage (Page.handleCompareToggle pr) w
  end.

(** A run of the front end: the events in the order they are handled. *)
Definition run (w : World) (events : list event) : World :=
  fold_left step events w.
End Voice.

(** ** Views of the world

    What each concern of the front end owns: the UI synchronization layer,
    the playback queue, and the channel with the microphone. *)

Module View.
Import Voice.

Definition ui (w : World) :=
  (voiceUpdateFlagRef (refs w), pendingVoiceUpdateRef (refs w),
   (onProductsUpdateRef (refs w), onFiltersUpdateRef (refs w),
    onProductDetailRef (refs w), onCompareRef (refs w), onAddToCartRef (refs w)),
   (lastProducts (state w), lastFilters (state w)),
   page w, cart w,
   (navigations (browser w), flagTimers (browser w), requests (browser w))).

(** The playback queue proper: the queue, its re-entrancy guard, the
    speaking flag, and what is being and has been rendered. *)
Definition playback (w : World) :=
  (playbackQueueRef (refs w), isPlayingRef (refs w), isSpeaking (state w),
   (resuming (browser w), sounding (browser w), rendered (browser w),
    pushed (browser w))).

Definition channel (w : World) :=
  (wsRef (refs w), mediaStreamRef (refs w), processorRef (refs w),
   (isConnected (state w), isListening (state w), isMuted (state w)),
   (sockets (browser w), micRequests (browser w), streams (browser w),
    processors (browser w), sent (browser w), alerts (browser w))).

(** The frames in decode and render: those of the calls of [playNextAudio]
    that wait for [resume()], then those of the sources that sound. *)
Definition waiting (w : World) : list frame := (resuming (browser w)).*1.

Definition active (w : World) : list frame := waiting w ++ sounding (browser w).

(** The state of a playback queue in order: a frame is in decode and render
    only under the guard, at most one is, and the frames rendered so far,
    then the one in decode, then the queued ones, are in the order of their
    pushes (frames that failed to decode or were flushed are missing). *)
Definition playback_ok (w : World) : Prop :=
  (isPlayingRef (refs w) = false -> active w = []) /\
  (length (active w) <= 1)%nat /\
  sublist (rendered (browser w) ++ waiting w ++ playbackQueueRef (refs w))
          (pushed (browser w)).

(** A flushed queue that has rendered [done] so far and still owes the
    frames [owed] to calls that were waiting in [resume()] when it was
    flushed: nothing is queued, the speaking flag is down, and the frames
    rendered since, then those still waiting, are among [owed]. *)
Definition flushed (done owed : list frame) (w : World) : Prop :=
  playbackQueueRef (refs w) = [] /\
  isSpeaking (state w) = false /\
  exists since, rendered (browser w) = done ++ since /\
                sublist (since ++ waiting w) owed.

(** An event other than the push of a new frame. *)
Definition not_push (e : event) : Prop := forall f, e <> WsAudio f.

(** A started session whose channel is open and whose playback context
    runs. *)
Definition ready : World :=
  run initial [StartVoice; MicGranted; WsOpen 0; ContextState 0 running].



(** An event other than a [ui_update] message of the far end. *)
Definition not_ui_update (e : event) : Prop :=
  forall event, e <> WsMessage (ui_update event).

(** The events that run the playback queue: a frame is pushed, a pending
    [resume()] settles, a source ends. *)
Definition drives_playback (e : event) : bool :=
  match e with
  | WsAudio _ | ResumeSettled | SourceEnded => true
  | _ => false
  end.

(** The events that the UI synchronization layer and the product page
    handle. *)
Definition drives_ui (e : event) : bool :=
  match e with
  | WsMessage (ui_update _) | FlagTimer | PageMount | PageUnmount
  | FiltersChanged | TryAgain | FetchSettled _ _ | CompareToggle _ => true
  | _ => false
  end.
End View.

(** ** Scenarios

    Concrete products, frames and events on which the operations are run. *)

Module Scenario.
Import Voice.

Definition P1 : Cart.product := Cart.Product (JNum 1) {["name" := JStr "Phone"]}.
Definition P2 : Cart.product := Cart.Product (JNum 2) {["name" := JStr "Laptop"]}.
Definition Q1 : Cart.product := Cart.Product (JNum 9) {["name" := JStr "Cable"]}.

(** Four frames of one 16-bit sample each. *)
Definition A : frame := [1; 0].
Definition B : frame := [2; 0].
Definition C : frame := [3; 0].
Definition D : frame := [4; 0].

(** [{ action: 'SHOW_PRODUCTS', navigate_to: '/products',
       filters: { category: 'mobiles', max_price: 10000 },
       data: { products: [P1, P2], total: 2 } }] *)
Definition showTwo : UIUpdate := {|
  action := "SHOW_PRODUCTS";
  navigate_to := Some (JStr "/products");
  data := Some {| data_products := Some [P1; P2]; data_product := None;
                  data_total := Some (JNum 2) |};
  filters := Some {["category" := JStr "mobiles"; "max_price" := JNum 10000]}
|}.

(** [{ action: 'COMPARE_PRODUCTS', data: { products: [P1] } }] *)
Definition compareOne : UIUpdate := {|
  action := "COMPARE_PRODUCTS";
  navigate_to := None;
  data := Some {| data_products := Some [P1]; data_product := None;
                  data_total := None |};
  filters := None
|}.

(** [{ action: 'SHOW_PRODUCTS', filters: { min_price: 500 },
       data: { products: [P1], total: 1 } }] *)
Definition fromFiveHundred : UIUpdate := {|
  action := "SHOW_PRODUCTS";
  navigate_to := None;
  data := Some {| data_products := Some [P1]; data_product := None;
                  data_total := Some (JNum 1) |};
  filters := Some {["min_price" := JNum 500]}
|}.

(** [{ action: 'SHOW_PRODUCTS', filters: { category: 'mobiles', min_price: 0 },
       data: { products: [P1, P2], total: 2 } }] *)
Definition mobilesFromZero : UIUpdate := {|
  action := "SHOW_PRODUCTS";
  navigate_to := None;
  data := Some {| data_products := Some [P1; P2]; data_product := None;
                  data_total := Some (JNum 2) |};
  filters := Some {["category" := JStr "mobiles"; "min_price" := JNum 0]}
|}.

(** A live session: the channel is open. *)
Definition live : World :=
  run initial [ToggleVoice; MicGranted; WsOpen 0].

(** In a live session the product page is mounted, its first fetch has
    failed (the Try Again button shows), and the far end has just pushed
    [showTwo]: the in-flight flag is up. *)
Definition voiceWindow : World :=
  run live [PageMount; FetchSettled 0 Page.FetchThrows;
            WsMessage (ui_update showTwo)].

(** In a live session the product page is mounted and its first fetch is
    still in flight when the far end pushes [showTwo]. *)
Definition voiceWindowWithStraggler : World :=
  run live [PageMount; WsMessage (ui_update showTwo)].

(** In a live session the product page is mounted and the user has picked
    [Q1] for comparison. *)
Definition onePicked : World :=
  run live [PageMount; CompareToggle Q1].

(** A session plays [A] while [B], [C] and [D] are queued. *)
Definition oneSoundingThreeQueued : World :=
  run View.ready [WsAudio A; WsAudio B; WsAudio C; WsAudio D].
End Scenario.

(** ** The rest of the cart (CartContext.js, pages/Cart.js) *)

Module CartContext.
Import Cart.

(** [item.id === productId] *)
Definition has_id (productId : jsval) (it : item) : bool :=
  bool_decide (id it = productId).

(** The updater of [removeFromCart]. *)
Definition removeFromCart (productId : jsval) (prev : list item) : list item :=
  List.filter (fun it => negb (has_id productId it)) prev.

(** [updateQuantity]: a quantity of zero or less removes the entry. *)
Definition updateQuantity (productId : jsval) (quantity_ : Z)
    (prev : list item) : list item :=
  if quantity_ <=? 0 then removeFromCart productId prev
  else map (fun it => if has_id productId it
                      then Item (id it) (fields it) quantity_
                      else it) prev.

Definition clearCart (prev : list item) : list item := [].

(** [items.some(item => item.id === productId)] *)
Definition isInCart (productId : jsval) (items : list item) : bool :=
  existsb (has_id productId) items.

(** [items.find(item => item.id === productId)] *)
Definition getCartItem (productId : jsval) (items : list item) : option item :=
  find (has_id productId) items.

(** [items.reduce((sum, item) => sum + item.quantity, 0)]: the sums are
    sums of doubles, which are the integer sums as long as they stay within
    [2^53] (see [countable]). *)
Definition itemCount (items : list item) : Z :=
  fold_left (fun sum it => sum + quantity it) items 0.

(** A cart whose count the code computes exactly, also after one more unit
    is added: no quantity is negative, so that every partial sum of the
    [reduce] is at most the total, and the total is below [2^53]. *)
Definition countable (items : list item) : Prop :=
  Forall (fun it => 0 <= quantity it) items /\ itemCount items < 2 ^ 53.

(** The minus and plus buttons of a row of the cart page:
    [updateQuantity(item.id, item.quantity - 1)] and
    [updateQuantity(item.id, item.quantity + 1)], for a [safe] quantity. *)
Definition minusButton (it : item) (prev : list item) : list item :=
  updateQuantity (id it) (quantity it - 1) prev.

Definition plusButton (it : item) (prev : list item) : list item :=
  updateQuantity (id it) (quantity it + 1) prev.

(** What can be done to the cart: the operations that [CartProvider]
    exposes, the quantity being whatever the caller passes. *)
Inductive operation : Type :=
  | AddToCart (pr : product)
  | RemoveFromCart (productId : jsval)
  | UpdateQuantity (productId : jsval) (quantity_ : Z)
  | ClearCart.

Definition apply (items : list item) (op : operation) : list item :=
  match op with
  | AddToCart pr => addToCart pr items
  | RemoveFromCart productId => removeFromCart productId items
  | UpdateQuantity productId q => updateQuantity productId q items
  | ClearCart => clearCart items
  end.

Definition applyAll (items : list item) (ops : list operation) : list item :=
  fold_left apply ops items.

(** A cart in order: no two entries with one id, every quantity at least
    one. *)
Definition well_formed (items : list item) : Prop :=
  NoDup (ids items) /\ Forall (fun it => 1 <= quantity it) items.
End CartContext.

(** ** The rest of the product page (pages/Products.js) and the detail view
    (components/ProductModal.js) *)

Module ProductsPage.
Import Cart Page.

(** [clearFilters] *)
Definition clearFilters (p : Products) : Products :=
  setSortBy (JStr "relevance")
    (setPriceRange (fun _ => {| min := JStr ""; max := JStr "" |})
       (setSelectedBrand (JStr "")
          (setSelectedCategory (JStr "")
             (setSearchQuery (JStr "") p)))).

(** [hasActiveFilters], as the condition it is used for. *)
Definition hasActiveFilters (p : Products) : bool :=
  truthy (searchQuery p) || truthy (selectedCategory p) ||
  truthy (selectedBrand p) || truthy (min (priceRange p)) ||
  truthy (max (priceRange p)) ||
  negb (bool_decide (sortBy p = JStr "relevance")).

(** [handleProductClick] *)
Definition handleProductClick (pr : product) (p : Products) : Products :=
  setIsModalOpen true (setSelectedProduct (Some pr) p).

(** ProductModal: [if (!isOpen || !product) return null;] with
    [product = selectedProduct] and [isOpen = isModalOpen]. *)
Definition ProductModal_renders (product_ : option product) (isOpen : bool)
  : bool :=
  negb (negb isOpen || negb (bool_decide (is_Some product_))).

Definition detailViewOpen (p : Products) : bool :=
  ProductModal_renders (selectedProduct p) (isModalOpen p).

(** The ids of the products picked for comparison. *)
Definition productIds (l : list product) : list jsval := map product_id l.
End ProductsPage.

(** ** The controller's view of the session (components/VoiceController.js) *)

Module VoiceController.
Import Voice.

(** The keys of [stateStyles], [stateIcons] and [stateLabels]. *)
Inductive mode : Type :=
  | idle | muted | speaking | processing | listening | connected.

(** [getState] *)
Definition getState (s : State) : mode :=
  if negb (isConnected s) then idle
  else if isMuted s then muted
  else if isSpeaking s then speaking
  else if isProcessing s then processing
  else if isListening s then listening
  else connected.

(** The track that the provider holds, if any:
    [mediaStreamRef.current.getAudioTracks()[0]]. *)
Definition currentTrack (w : World) : option Track :=
  mediaStreamRef (refs w) ≫= (streams (browser w) !!.).
End VoiceController.

(** ** Further views and states of the world *)

Module Watch.
Import Voice.

(** The five callback refs that the product page registers. *)
Definition callbacks (w : World) :=
  (onProductsUpdateRef (refs w), onFiltersUpdateRef (refs w),
   onProductDetailRef (refs w), onCompareRef (refs w), onAddToCartRef (refs w)).

(** Every window has a timer: while the in-flight flag is up, a timer that
    will lower it is pending. *)
Definition flag_backed (w : World) : Prop :=
  voiceUpdateFlagRef (refs w) = true -> (0 < flagTimers (browser w))%nat.

(** The re-entrancy guard is held though no call of [playNextAudio] waits
    in [resume()] and no source sounds. *)
Definition wedged (w : World) : Prop :=
  isPlayingRef (refs w) = true /\ resuming (browser w) = [] /\
  sounding (browser w) = [].

(** An event other than the mount of the product page. *)
Definition not_mount (e : event) : Prop := e <> PageMount.

(** An event other than the grant of the microphone. *)
Definition not_grant (e : event) : Prop := e <> MicGranted.

(** A frame that decodes and can be scheduled. *)
Definition decodes (f : frame) : bool := negb (render_throws f).

(** The events of playback with frames of any kind: a frame is pushed,
    whether it decodes or not, or a source ends. *)
Definition feeds (e : event) : Prop :=
  e = SourceEnded \/ exists f, e = WsAudio f.

(** Playback on a running context: no call waits, and either nothing plays
    and nothing is queued, or one source sounds under the guard. *)
Definition playing (w : World) : Prop :=
  (exists c, audioContextRef (refs w) = Some c /\
             contexts (browser w) !! c = Some running) /\
  resuming (browser w) = [] /\
  ((isPlayingRef (refs w) = false /\ playbackQueueRef (refs w) = [] /\
    sounding (browser w) = []) \/
   (isPlayingRef (refs w) = true /\ exists f, sounding (browser w) = [f])).

(** A socket that has been asked to close, or is closed. *)
Definition closing (s : readyState) : bool :=
  match s with
  | CLOSING | CLOSED => true
  | _ => false
  end.
End Watch.

(** * Properties *)

(** ** Codec *)

(** Closed comparisons of rationals, by computation on the numerators. *)
Ltac q_closed := unfold Qle, Qlt; simpl; lia.

Section CodecFacts.
Import Codec.
Local Open Scope Q_scope.

Lemma trunc_num_den (n : Z) (d : positive) : trunc (n # d) = (n ÷ Zpos d)%Z.
Proof. reflexivity. Qed.

(** A value in the 16-bit range is stored unchanged. *)
Lemma toInt16_in_range (v : Q) :
  (-32768 <= trunc v <= 32767)%Z -> toInt16 v = trunc v.
Proof.
  intros Hr. unfold toInt16. cbv zeta.
  destruct (Z_lt_le_dec (trunc v) 0) as [Hneg|Hpos].
  - replace (trunc v mod 65536)%Z with (trunc v + 65536)%Z.
    + destruct (32768 <=? trunc v + 65536)%Z eqn:E; [lia|].
      apply Z.leb_gt in E. lia.
    + apply Z.mod_unique with (q := (-1)%Z); lia.
  - rewrite Z.mod_small by lia.
    destruct (32768 <=? trunc v)%Z eqn:E; [|reflexivity].
    apply Z.leb_le in E. lia.
Qed.

(** Rounding toward zero of a scaled sample, on numerators and
    denominators. *)
Lemma quot_scaled_neg (n k : Z) (d : positive) :
  (- Zpos d <= n < 0)%Z -> (0 < k)%Z ->
  let q := ((n * k) ÷ Zpos d)%Z in
  (- k <= q <= 0 /\ n * k <= q * Zpos d < n * k + Zpos d)%Z.
Proof.
  intros Hn Hk q.
  pose proof (Z.quot_rem' (n * k) (Zpos d)) as Hqr.
  assert (Hrem : (- Zpos d < Z.rem (n * k) (Zpos d) <= 0)%Z).
  { pose proof (Z.rem_bound_abs (n * k) (Zpos d) ltac:(lia)) as Hb.
    pose proof (Z.rem_nonpos (n * k) (Zpos d) ltac:(lia) ltac:(nia)) as Hs.
    lia. }
  fold q in Hqr. nia.
Qed.

Lemma quot_scaled_nonneg (n k : Z) (d : positive) :
  (0 <= n <= Zpos d)%Z -> (0 < k)%Z ->
  let q := ((n * k) ÷ Zpos d)%Z in
  (0 <= q <= k /\ q * Zpos d <= n * k < q * Zpos d + Zpos d)%Z.
Proof.
  intros Hn Hk q.
  pose proof (Z.quot_rem' (n * k) (Zpos d)) as Hqr.
  assert (Hrem : (0 <= Z.rem (n * k) (Zpos d) < Zpos d)%Z).
  { apply Z.rem_bound_pos; nia. }
  fold q in Hqr. nia.
Qed.

Lemma scale_neg (n : Z) (d : positive) :
  (n < 0)%Z -> scale (n # d) = (n # d) * 32768.
Proof.
  intros Hn. unfold scale. destruct (Qlt_le_dec (n # d) 0) as [_|H]; [reflexivity|].
  unfold Qle in H. simpl in H. lia.
Qed.

Lemma scale_nonneg (n : Z) (d : positive) :
  (0 <= n)%Z -> scale (n # d) = (n # d) * 32767.
Proof.
  intros Hn. unfold scale. destruct (Qlt_le_dec (n # d) 0) as [H|_]; [|reflexivity].
  unfold Qlt in H. simpl in H. lia.
Qed.

(** What [encodeSample] stores for a sample that needs no clamping. *)
Lemma int16_of_neg (n : Z) (d : positive) :
  (- Zpos d <= n < 0)%Z ->
  toInt16 (scale (n # d)) = ((n * 32768) ÷ Zpos d)%Z.
Proof.
  intros Hn. rewrite scale_neg by lia.
  assert (Ht : trunc ((n # d) * 32768) = ((n * 32768) ÷ Zpos d)%Z).
  { unfold Qmult. simpl Qnum. simpl Qden. rewrite trunc_num_den, Pos.mul_1_r.
    reflexivity. }
  rewrite toInt16_in_range; rewrite Ht; [reflexivity|].
  pose proof (quot_scaled_neg n 32768 d Hn ltac:(lia)) as [Hq _]. lia.
Qed.

Lemma int16_of_nonneg (n : Z) (d : positive) :
  (0 <= n <= Zpos d)%Z ->
  toInt16 (scale (n # d)) = ((n * 32767) ÷ Zpos d)%Z.
Proof.
  intros Hn. rewrite scale_nonneg by lia.
  assert (Ht : trunc ((n # d) * 32767) = ((n * 32767) ÷ Zpos d)%Z).
  { unfold Qmult. simpl Qnum. simpl Qden. rewrite trunc_num_den, Pos.mul_1_r.
    reflexivity. }
  rewrite toInt16_in_range; rewrite Ht; [reflexivity|].
  pose proof (quot_scaled_nonneg n 32767 d Hn ltac:(lia)) as [Hq _]. lia.
Qed.

(** Negative samples come back from above, less than one step away. *)
Lemma roundtrip_neg (s : Q) :
  -1 <= s -> s < 0 ->
  let y := decodeSample (toInt16 (scale s)) in
  0 <= y - s /\ y - s < quantum.
Proof.
  destruct s as [n d]. intros Hlo Hneg.
  unfold Qle in Hlo. unfold Qlt in Hneg. simpl in Hlo, Hneg.
  assert (Hn : (- Zpos d <= n < 0)%Z) by lia.
  cbv zeta. rewrite int16_of_neg by exact Hn.
  pose proof (quot_scaled_neg n 32768 d Hn ltac:(lia)) as [_ Hq].
  cbv zeta in Hq. set (q := ((n * 32768) ÷ Zpos d)%Z) in *.
  unfold decodeSample, quantum, Qdiv, Qinv, Qmult, Qminus, Qplus, Qopp, Qle, Qlt,
    inject_Z. simpl. nia.
Qed.

(** Non-negative samples come back from below, less than two steps away:
    scaling by 32767 and dividing by 32768 adds up to one step to the
    truncation error. *)
Lemma roundtrip_nonneg (s : Q) :
  0 <= s -> s <= 1 ->
  let y := decodeSample (toInt16 (scale s)) in
  0 <= s - y /\ s - y < 2 * quantum.
Proof.
  destruct s as [n d]. intros Hlo Hhi.
  unfold Qle in Hlo, Hhi. simpl in Hlo, Hhi.
  assert (Hn : (0 <= n <= Zpos d)%Z) by lia.
  cbv zeta. rewrite int16_of_nonneg by exact Hn.
  pose proof (quot_scaled_nonneg n 32767 d Hn ltac:(lia)) as [_ Hq].
  cbv zeta in Hq. set (q := ((n * 32767) ÷ Zpos d)%Z) in *.
  unfold decodeSample, quantum, Qdiv, Qinv, Qmult, Qminus, Qplus, Qopp, Qle, Qlt,
    inject_Z. simpl. nia.
Qed.

(** Inside [[-1,1]] the clamp returns its argument, or one of the bounds
    when the argument is equal to it. *)
Lemma clamp_in_range (x : Q) :
  in_range x -> clamp x == x /\ in_range (clamp x).
Proof.
  intros [Hlo Hhi]. unfold clamp, Math_max, Math_min.
  destruct (Qlt_le_dec x 1) as [H1|H1].
  - destruct (Qlt_le_dec (-1) x) as [H2|H2].
    + split; [reflexivity|split; assumption].
    + assert (Hx : x == -1) by (apply Qle_antisym; assumption).
      split; [symmetry; exact Hx|]. split; [apply Qle_refl|q_closed].
  - destruct (Qlt_le_dec (-1) 1) as [_|H2]; [|exfalso; revert H2; q_closed].
    assert (Hx : x == 1) by (apply Qle_antisym; assumption).
    split; [symmetry; exact Hx|]. split; [q_closed|apply Qle_refl].
Qed.

Lemma roundtrip_sample (x : Q) :
  in_range x ->
  let y := decodeSample (encodeSample x) in
  Qabs (y - x) < 2 * quantum /\ (x < 0 -> Qabs (y - x) < quantum).
Proof.
  intros Hx. cbv zeta. unfold encodeSample.
  destruct (clamp_in_range x Hx) as [Hc [Hlo Hhi]].
  set (s := clamp x) in *.
  assert (Habs : Qabs (decodeSample (toInt16 (scale s)) - x)
                 == Qabs (decodeSample (toInt16 (scale s)) - s))
    by (apply Qabs_wd; unfold Qminus; apply Qplus_comp;
        [reflexivity|apply Qopp_comp; symmetry; exact Hc]).
  rewrite Habs.
  destruct (Qlt_le_dec s 0) as [Hneg|Hpos].
  - destruct (roundtrip_neg s Hlo Hneg) as [H0 H1].
    rewrite Qabs_pos by exact H0.
    split; [|intros _; exact H1].
    eapply Qlt_trans; [exact H1|q_closed].
  - destruct (roundtrip_nonneg s Hpos Hhi) as [H0 H1].
    assert (Hsym : Qabs (decodeSample (toInt16 (scale s)) - s)
                   == s - decodeSample (toInt16 (scale s))).
    { rewrite Qabs_Qminus. apply Qabs_pos. exact H0. }
    rewrite Hsym. split; [exact H1|].
    intros Hx0. exfalso. rewrite <- Hc in Hx0.
    exact (Qlt_not_le _ _ Hx0 Hpos).
Qed.

(** Equal rationals have the same integer part, whatever their
    representation. *)
Lemma trunc_Qeq (a b : Q) : a == b -> trunc a = trunc b.
Proof.
  destruct a as [n1 d1], b as [n2 d2]. unfold Qeq, trunc. simpl. intros H.
  rewrite <- (Z.quot_mul_cancel_r n1 (Zpos d1) (Zpos d2)) by lia.
  rewrite <- (Z.quot_mul_cancel_r n2 (Zpos d2) (Zpos d1)) by lia.
  rewrite H. f_equal. lia.
Qed.

Lemma scale_Qeq (a b : Q) : a == b -> scale a == scale b.
Proof.
  intros H. unfold scale.
  destruct (Qlt_le_dec a 0) as [Ha|Ha], (Qlt_le_dec b 0) as [Hb|Hb].
  - rewrite H. reflexivity.
  - exfalso. rewrite H in Ha. exact (Qlt_not_le _ _ Ha Hb).
  - exfalso. rewrite <- H in Hb. exact (Qlt_not_le _ _ Hb Ha).
  - rewrite H. reflexivity.
Qed.

(** A scaled sample of [[-1,1]] fits in 16 bits: nothing wraps around. *)
Lemma toInt16_scale (s : Q) : in_range s -> toInt16 (scale s) = trunc (scale s).
Proof.
  destruct s as [n d]. intros [Hlo Hhi]. unfold Qle in Hlo, Hhi. simpl in Hlo, Hhi.
  apply toInt16_in_range.
  destruct (Z_lt_le_dec n 0) as [Hn|Hn].
  - rewrite scale_neg by exact Hn.
    unfold Qmult. simpl Qnum. simpl Qden. rewrite trunc_num_den, Pos.mul_1_r.
    pose proof (quot_scaled_neg n 32768 d ltac:(lia) ltac:(lia)) as [Hq _]. lia.
  - rewrite scale_nonneg by exact Hn.
    unfold Qmult. simpl Qnum. simpl Qden. rewrite trunc_num_den, Pos.mul_1_r.
    pose proof (quot_scaled_nonneg n 32767 d ltac:(lia) ltac:(lia)) as [Hq _]. lia.
Qed.

(** On [[-1,1]] the clamp changes nothing of what is stored. *)
Lemma encodeSample_unclamped (x : Q) :
  in_range x -> encodeSample x = trunc (scale x).
Proof.
  intros Hx. unfold encodeSample.
  destruct (clamp_in_range x Hx) as [Hc Hr].
  rewrite toInt16_scale by exact Hr.
  apply trunc_Qeq, scale_Qeq, Hc.
Qed.

(** On the samples below the double-precision codec and the rational model
    store the same integers, and the doubles decoded are the rationals
    decoded: 1 - 2^-16 comes back as 1 - 2^-14, which is 3 * 2^-16 away. *)
Lemma codec_double_agrees_on_samples :
  map CodecDouble.encodeSample [0.9999847412109375; 1; -1; -0.5; 0.25; 3; -7]%float
  = encode [65535 # 65536; 1; -1; - (1 # 2); 1 # 4; 3; -7] /\
  CodecDouble.decodeSample (CodecDouble.encodeSample 0.9999847412109375)
  = 0.99993896484375%float /\
  (0.9999847412109375 - 0.99993896484375 = 4.57763671875e-05)%float /\
  PrimFloat.ltb (1 / 32767) 4.57763671875e-05 = true /\
  decodeSample (encodeSample (65535 # 65536)) == 16383 # 16384 /\
  (65535 # 65536) - (16383 # 16384) == 3 # 65536.
Proof. repeat split; vm_compute; reflexivity. Qed.

End CodecFacts.

(** ** Cart *)

Section CartFacts.
Import Cart.

Implicit Types (pr : product) (prev : list item) (it : item).

Lemma find_same_id_None pr prev :
  find (same_id pr) prev = None <-> product_id pr ∉ ids prev.
Proof.
  induction prev as [|x prev IH]; simpl.
  - split; [intros _; apply not_elem_of_nil|reflexivity].
  - unfold same_id at 1. rewrite not_elem_of_cons. case_bool_decide as Hx.
    + split; [discriminate|]. intros [Hne _]. congruence.
    + rewrite IH. split; [intros H; split; [congruence|exact H]|intros [_ H]; exact H].
Qed.

Lemma find_same_id_Some pr prev it :
  find (same_id pr) prev = Some it -> id it = product_id pr /\ it ∈ prev.
Proof.
  induction prev as [|x prev IH]; simpl; [discriminate|].
  unfold same_id at 1. case_bool_decide as Hx.
  - intros [= <-]. split; [exact Hx|left].
  - intros H. destruct (IH H) as [H1 H2]. split; [exact H1|right; exact H2].
Qed.

(** The [map] of [addToCart] keeps every id. *)
Lemma ids_bump pr prev :
  ids (map (fun it => if same_id pr it then bump it else it) prev) = ids prev.
Proof.
  unfold ids. rewrite map_map. apply map_ext. intros it.
  destruct (same_id pr it); reflexivity.
Qed.

(** With unique ids the [map] of [addToCart] rewrites one position. *)
Lemma map_bump_insert pr prev :
  NoDup (ids prev) ->
  forall i it, prev !! i = Some it -> id it = product_id pr ->
  map (fun it => if same_id pr it then bump it else it) prev
  = <[i := bump it]> prev.
Proof.
  induction prev as [|x prev IH]; intros Hnd i it Hi Hid; [discriminate|].
  apply NoDup_cons in Hnd as [Hx Hnd]. destruct i as [|i]; simpl in *.
  - injection Hi as ->. unfold same_id at 1.
    rewrite bool_decide_eq_true_2 by exact Hid. f_equal.
    rewrite <- (map_id prev) at 2. apply map_ext_in. intros y Hy.
    unfold same_id. case_bool_decide as Hyid; [|reflexivity].
    exfalso. apply Hx. rewrite Hid, <- Hyid.
    apply list_elem_of_In, in_map, Hy.
  - unfold same_id at 1. case_bool_decide as Hxid.
    + exfalso. apply Hx. rewrite Hxid, <- Hid.
      apply list_elem_of_fmap_2, list_elem_of_lookup_2 with i, Hi.
    + f_equal. apply IH; assumption.
Qed.

End CartFacts.

(** ** Filters pushed by voice *)

Section FilterFacts.
Import Page.

(** One conditional assignment of the callback, seen through an observation
    [f] of the page that its setter does not change... *)
Lemma whenTruthy_frame {A} (f : Products -> A) (filters : jsobj) (k : string)
    (set : jsval -> Products -> Products) (p : Products) :
  (forall v q, f (set v q) = f q) ->
  f (whenTruthy filters k set p) = f p.
Proof.
  intros Hset. unfold whenTruthy.
  destruct (filters !! k) as [v|]; [|reflexivity].
  destruct (truthy v); [apply Hset|reflexivity].
Qed.

(** ... and through the cell that its setter writes. *)
Lemma whenTruthy_hit (f : Products -> option jsval) (filters : jsobj)
    (k : string) (set : jsval -> Products -> Products) (p : Products) :
  (forall v q, f (set v q) = Some v) ->
  f (whenTruthy filters k set p)
  = match filters !! k with
    | Some v => if truthy v then Some v else f p
    | None => f p
    end.
Proof.
  intros Hset. unfold whenTruthy.
  destruct (filters !! k) as [v|]; [|reflexivity].
  destruct (truthy v); [apply Hset|reflexivity].
Qed.

Lemma applyFilters_cells (filters : jsobj) (p : Products) (k : string) :
  k ∈ filterKeys ->
  filterCell k (applyFilters filters p)
  = match filters !! k with
    | Some v => if truthy v then Some v else filterCell k p
    | None => filterCell k p
    end.
Proof.
  intros Hk. unfold filterKeys in Hk.
  repeat (apply elem_of_cons in Hk as [->|Hk]); [..|by apply elem_of_nil in Hk];
    unfold applyFilters; cbv zeta;
    match goal with
    | |- filterCell ?key _ = _ =>
        rewrite ?(whenTruthy_frame (filterCell key)) by reflexivity;
        rewrite (whenTruthy_hit (filterCell key)) by reflexivity;
        rewrite ?(whenTruthy_frame (filterCell key)) by reflexivity;
        reflexivity
    end.
Qed.

(** The callback writes nothing but the six filter cells. *)
Lemma applyFilters_others (filters : jsobj) (p : Products) :
  let p' := applyFilters filters p in
  products p' = products p /\ total p' = total p /\ loading p' = loading p /\
  error p' = error p /\ selectedProduct p' = selectedProduct p /\
  isModalOpen p' = isModalOpen p /\ compareList p' = compareList p /\
  isCompareOpen p' = isCompareOpen p.
Proof.
  unfold applyFilters. cbv zeta.
  repeat split;
    match goal with
    | |- ?f _ = _ => rewrite !(whenTruthy_frame f) by reflexivity; reflexivity
    end.
Qed.

End FilterFacts.

(** ** UI updates *)

Section SyncFacts.
Import Voice.

Implicit Types (w : World) (event : UIUpdate).

(** The page after a SHOW_PRODUCTS event that carries products. *)
Lemma showProducts_page event w ps :
  products_of event = Some ps ->
  page (showProducts event w)
  = (fun p =>
       let p := if onProductsUpdateRef (refs w)
                then Page.onProductsUpdate ps (total_of event) p else p in
       match filters event with
       | Some fs => if onFiltersUpdateRef (refs w) then Page.applyFilters fs p else p
       | None => p
       end) <$> page w.
Proof.
  intros Hps. unfold showProducts. rewrite Hps.
  destruct (truthy_opt (navigate_to event)), (filters event) as [fs|];
    cbn; destruct (onProductsUpdateRef (refs w));
    cbn; try destruct (onFiltersUpdateRef (refs w)); cbn;
    destruct (page w); reflexivity.
Qed.

(** Whatever the event, the filter cell of a key that the event does not
    provide keeps its value. *)
Lemma handleUIUpdate_filter_frame event w k p :
  page w = Some p -> k ∈ Page.filterKeys ->
  filters event ≫= (.!! k) = None ->
  exists p', page (handleUIUpdate event w) = Some p' /\
             Page.filterCell k p' = Page.filterCell k p.
Proof.
  intros Hp Hk Hnone. unfold handleUIUpdate.
  set (w0 := match navigate_to event with
             | Some to => if truthy to then navigate to w else w
             | None => w
             end).
  assert (Hp0 : page w0 = Some p).
  { unfold w0. destruct (navigate_to event) as [to|]; [|exact Hp].
    destruct (truthy to); exact Hp. }
  clearbody w0.
  destruct (String.eqb (action event) "SHOW_PRODUCTS").
  { destruct (products_of event) as [ps|] eqn:Hps.
    - rewrite (showProducts_page _ _ _ Hps), Hp0. cbn.
      eexists; split; [reflexivity|].
      destruct (filters event) as [fs|]; cbn in Hnone.
      + destruct (onFiltersUpdateRef (refs w0)).
        * rewrite applyFilters_cells, Hnone by exact Hk.
          destruct (onProductsUpdateRef (refs w0)); reflexivity.
        * destruct (onProductsUpdateRef (refs w0)); reflexivity.
      + destruct (onProductsUpdateRef (refs w0)); reflexivity.
    - unfold showProducts. rewrite Hps. eauto. }
  destruct (String.eqb (action event) "SHOW_PRODUCT_DETAILS").
  { destruct (product_of event) as [pr|]; [|eauto].
    destruct (onProductDetailRef (refs w0)); [|eauto].
    cbn. rewrite Hp0. cbn. eauto. }
  destruct (String.eqb (action event) "COMPARE_PRODUCTS").
  { destruct (products_of event) as [ps|]; [|eauto].
    destruct (onCompareRef (refs w0)); [|eauto].
    cbn. rewrite Hp0. cbn. eauto. }
  destruct (String.eqb (action event) "ADD_TO_CART"); [|eauto].
  destruct (product_of event) as [pr|]; [|eauto].
  destruct (onAddToCartRef (refs w0)); eauto.
Qed.

End SyncFacts.

(** ** Footprints of the handlers *)

(** Case analysis on every branch of a handler without recursion; the
    views of the two sides then agree by computation. *)
Ltac handler := intros; cbv zeta; repeat case_match; reflexivity.

Section Footprints.
Import Voice.

Implicit Types (w : World) (e : event).

(** *** Playback handlers leave the UI and the channel alone *)

Lemma ui_playNextAudio_from q :
  forall w, View.ui (playNextAudio_from q w) = View.ui w.
Proof.
  induction q as [|f q IH]; intros w; [reflexivity|].
  cbn [playNextAudio_from]. cbv zeta.
  repeat case_match; try reflexivity; rewrite IH; reflexivity.
Qed.

Lemma ui_playNextAudio w : View.ui (playNextAudio w) = View.ui w.
Proof.
  unfold playNextAudio. repeat case_match; try reflexivity.
  apply ui_playNextAudio_from.
Qed.

Lemma ui_playNextAudio_resumed f c w :
  View.ui (playNextAudio_resumed f c w) = View.ui w.
Proof.
  unfold playNextAudio_resumed, playNextAudio_catch.
  repeat case_match; rewrite ?ui_playNextAudio; reflexivity.
Qed.

Lemma channel_playNextAudio_from q :
  forall w, View.channel (playNextAudio_from q w) = View.channel w.
Proof.
  induction q as [|f q IH]; intros w; [reflexivity|].
  cbn [playNextAudio_from]. cbv zeta.
  repeat case_match; try reflexivity; rewrite IH; reflexivity.
Qed.

Lemma channel_playNextAudio w : View.channel (playNextAudio w) = View.channel w.
Proof.
  unfold playNextAudio. repeat case_match; try reflexivity.
  apply channel_playNextAudio_from.
Qed.

Lemma channel_playNextAudio_resumed f c w :
  View.channel (playNextAudio_resumed f c w) = View.channel w.
Proof.
  unfold playNextAudio_resumed, playNextAudio_catch.
  repeat case_match; rewrite ?channel_playNextAudio; reflexivity.
Qed.

(** *** UI handlers leave the channel alone *)

Lemma channel_handleUIUpdate event w :
  View.channel (handleUIUpdate event w) = View.channel w.
Proof. unfold handleUIUpdate, showProducts. handler. Qed.

Lemma channel_mount w : View.channel (mount w) = View.channel w.
Proof.
  unfold mount, refreshEffect, voiceEffect, fetchProducts,
    consumePendingVoiceData, isVoiceUpdateInProgress. handler.
Qed.

(** *** The session handlers leave the UI alone *)

Lemma ui_cleanup w : View.ui (cleanup w) = View.ui w.
Proof. unfold cleanup. handler. Qed.

Lemma ui_stopVoice w : View.ui (stopVoice w) = View.ui w.
Proof. unfold stopVoice. cbv zeta. rewrite <- (ui_cleanup w). reflexivity. Qed.

(** *** Steps *)

(** An event that does not concern the UI leaves the UI view as it is. *)
Lemma ui_step w e : View.drives_ui e = false -> View.ui (step w e) = View.ui w.
Proof.
  destruct e as [| | | | | |i|i|i|m| |f|p input|c st| | | | | | | |i r|pr];
    try discriminate; intros Hquiet; cbn [step].
  - reflexivity.
  - apply ui_stopVoice.
  - unfold toggleVoice. destruct (isConnected (state w)); [apply ui_stopVoice|reflexivity].
  - unfold toggleMute. handler.
  - unfold startVoice_granted. handler.
  - unfold startVoice_denied. handler.
  - unfold onopen, startAudioStreaming. handler.
  - unfold onerror. handler.
  - repeat case_match; try reflexivity; unfold onclose; cbv zeta;
      rewrite ui_cleanup; reflexivity.
  - destruct m; try discriminate Hquiet; reflexivity.
  - reflexivity.
  - unfold onmessage_audio. rewrite ui_playNextAudio. reflexivity.
  - unfold onaudioprocess, channelOpen. handler.
  - handler.
  - destruct (resuming (browser w)) as [|[f c] rest]; [reflexivity|].
    rewrite ui_playNextAudio_resumed. reflexivity.
  - destruct (sounding (browser w)) as [|f rest]; [reflexivity|].
    unfold onended. rewrite ui_playNextAudio. reflexivity.
Qed.

End Footprints.

(** ** Playback queue *)

Section PlaybackFacts.
Import Voice.

Implicit Types (w : World) (e : event) (f : frame) (q : list frame).



(** *** Events that do not run the queue *)

Lemma playback_cleanup w :
  View.playback (cleanup w)
  = ([], isPlayingRef (refs w), isSpeaking (state w),
     (resuming (browser w), sounding (browser w), rendered (browser w),
      pushed (browser w))).
Proof. unfold cleanup. handler. Qed.

Lemma playback_stopVoice w :
  View.playback (stopVoice w)
  = ([], isPlayingRef (refs w), false,
     (resuming (browser w), sounding (browser w), rendered (browser w),
      pushed (browser w))).
Proof. unfold stopVoice, cleanup. handler. Qed.

Lemma playback_onclose w :
  View.playback (onclose w)
  = ([], isPlayingRef (refs w), isSpeaking (state w),
     (resuming (browser w), sounding (browser w), rendered (browser w),
      pushed (browser w))).
Proof. unfold onclose. cbv zeta. rewrite playback_cleanup. reflexivity. Qed.

Lemma playback_handleUIUpdate event w :
  View.playback (handleUIUpdate event w) = View.playback w.
Proof. unfold handleUIUpdate, showProducts. handler. Qed.

Lemma playback_mount w : View.playback (mount w) = View.playback w.
Proof.
  unfold mount, refreshEffect, voiceEffect, fetchProducts,
    consumePendingVoiceData, isVoiceUpdateInProgress. handler.
Qed.

(** An event that does not run the queue can only flush it and clear the
    speaking flag: the guard and the frames in decode and render stay. *)
Lemma playback_step_quiet w e :
  View.drives_playback e = false ->
  exists q' s',
    View.playback (step w e)
    = (q', isPlayingRef (refs w), s',
       (resuming (browser w), sounding (browser w), rendered (browser w),
        pushed (browser w))) /\
    (q' = playbackQueueRef (refs w) \/ q' = []) /\
    (s' = isSpeaking (state w) \/ s' = false).
Proof.
  assert (Hsame : forall w', View.playback w' = View.playback w ->
            exists q' s',
              View.playback w'
              = (q', isPlayingRef (refs w), s',
                 (resuming (browser w), sounding (browser w),
                  rendered (browser w), pushed (browser w))) /\
              (q' = playbackQueueRef (refs w) \/ q' = []) /\
              (s' = isSpeaking (state w) \/ s' = false)).
  { intros w' ->. eexists _, _. split; [reflexivity|]. split; left; reflexivity. }
  assert (Hflush : forall w' s',
            View.playback w'
            = ([], isPlayingRef (refs w), s',
               (resuming (browser w), sounding (browser w),
                rendered (browser w), pushed (browser w))) ->
            (s' = isSpeaking (state w) \/ s' = false) ->
            exists q' s',
              View.playback w'
              = (q', isPlayingRef (refs w), s',
                 (resuming (browser w), sounding (browser w),
                  rendered (browser w), pushed (browser w))) /\
              (q' = playbackQueueRef (refs w) \/ q' = []) /\
              (s' = isSpeaking (state w) \/ s' = false)).
  { intros w' s' Hv Hs. exists [], s'. split; [exact Hv|]. split; [right; reflexivity|exact Hs]. }
  destruct e as [| | | | | |i|i|i|m| |f|p input|c st| | | | | | | |i r|pr];
    try discriminate; intros _; cbn [step].
  - apply Hsame. reflexivity.
  - eapply Hflush; [apply playback_stopVoice|right; reflexivity].
  - unfold toggleVoice. destruct (isConnected (state w)).
    + eapply Hflush; [apply playback_stopVoice|right; reflexivity].
    + apply Hsame. reflexivity.
  - apply Hsame. unfold toggleMute. handler.
  - apply Hsame. unfold startVoice_granted. handler.
  - apply Hsame. unfold startVoice_denied. handler.
  - apply Hsame. unfold onopen, startAudioStreaming. handler.
  - apply Hsame. unfold onerror. handler.
  - destruct (sockets (browser w) !! i) as [[]|];
      try (apply Hsame; reflexivity);
      (eapply Hflush; [rewrite playback_onclose; reflexivity|left; reflexivity]).
  - destruct m; try (apply Hsame; reflexivity).
    + apply Hsame. apply playback_handleUIUpdate.
    + eapply Hflush; [reflexivity|right; reflexivity].
  - apply Hsame. reflexivity.
  - apply Hsame. unfold onaudioprocess, channelOpen. handler.
  - apply Hsame. handler.
  - apply Hsame. handler.
  - destruct (page w); apply Hsame; [reflexivity|apply playback_mount].
  - apply Hsame. reflexivity.
  - apply Hsame. unfold refreshEffect, fetchProducts, isVoiceUpdateInProgress. handler.
  - apply Hsame. unfold tryAgain, fetchProducts. handler.
  - apply Hsame. unfold fetchSettled. handler.
  - apply Hsame. reflexivity.
Qed.

(** *** The playback queue stays in order *)

(** [playback_ok] looks at the playback view only. *)
Lemma playback_ok_view w w' :
  View.playback w' = View.playback w -> View.playback_ok w -> View.playback_ok w'.
Proof.
  unfold View.playback, View.playback_ok, View.active, View.waiting.
  intros [= -> -> _ -> -> -> ->]. exact id.
Qed.








(** *** After a flush *)

(** [flushed] looks at the queue, the speaking flag, the waiting calls and
    the rendered frames only. *)
Lemma flushed_view done owed w w' :
  playbackQueueRef (refs w') = [] ->
  isSpeaking (state w') = false ->
  resuming (browser w') = resuming (browser w) ->
  rendered (browser w') = rendered (browser w) ->
  View.flushed done owed w -> View.flushed done owed w'.
Proof.
  unfold View.flushed, View.waiting.
  intros -> -> -> -> (_ & _ & Hsince).
  split; [reflexivity|]. split; [reflexivity|exact Hsince].
Qed.

Lemma flushed_playNextAudio done owed w :
  isPlayingRef (refs w) = false ->
  View.flushed done owed w -> View.flushed done owed (playNextAudio w).
Proof.
  intros Hplaying Hfl. pose proof Hfl as (Hq & _).
  unfold playNextAudio. rewrite Hplaying, Hq. cbn.
  eapply flushed_view; [..|exact Hfl]; try reflexivity. exact Hq.
Qed.

Lemma flushed_step done owed w e :
  View.not_push e ->
  View.flushed done owed w -> View.flushed done owed (step w e).
Proof.
  intros Hnp Hfl. destruct (View.drives_playback e) eqn:He.
  - destruct e; try discriminate He; cbn [step].
    + exfalso. eapply Hnp. reflexivity.
    + destruct (resuming (browser w)) as [|[f c] rest] eqn:Hres; [exact Hfl|].
      destruct Hfl as (Hq & Hsp & since & Hrd & Hsub).
      unfold View.waiting in Hsub. rewrite Hres in Hsub. cbn in Hsub.
      assert (Hdrop : View.flushed done owed (onBrowser (set_resuming rest) w)).
      { split; [exact Hq|]. split; [exact Hsp|]. exists since. split; [exact Hrd|].
        etransitivity; [|exact Hsub].
        apply sublist_app; [reflexivity|apply sublist_cons, reflexivity]. }
      unfold playNextAudio_resumed, playNextAudio_catch.
      assert (Hcatch : forall w',
                playbackQueueRef (refs w') = [] ->
                isPlayingRef (refs w') = false ->
                isSpeaking (state w') = false ->
                resuming (browser w') = rest ->
                rendered (browser w') = rendered (browser w) ->
                View.flushed done owed (playNextAudio w')).
      { intros w' H1 H2 H3 H4 H5. apply flushed_playNextAudio; [exact H2|].
        eapply flushed_view; [..|exact Hdrop]; assumption. }
      assert (Hstart : forall w',
                playbackQueueRef (refs w') = [] ->
                isSpeaking (state w') = false ->
                resuming (browser w') = rest ->
                rendered (browser w') = rendered (browser w) ->
                View.flushed done owed (start f w')).
      { intros w' H1 H2 H3 H4.
        unfold View.flushed, View.waiting. cbn. rewrite H1, H2, H3, H4.
        split; [reflexivity|]. split; [reflexivity|].
        exists (since ++ [f]). rewrite Hrd, <- !app_assoc. split; [reflexivity|].
        exact Hsub. }
      repeat case_match;
        first [apply Hcatch | apply Hstart]; cbn; first [assumption|reflexivity].
    + destruct (sounding (browser w)) as [|f rest] eqn:Hsnd; [exact Hfl|].
      unfold onended. apply flushed_playNextAudio; [reflexivity|].
      pose proof Hfl as (Hq & Hsp & _).
      eapply flushed_view; [..|exact Hfl]; first [assumption|reflexivity].
  - destruct (playback_step_quiet w e He) as (q' & s' & Hv & Hq' & Hs').
    pose proof Hfl as (Hq & Hsp & _).
    unfold View.playback in Hv. injection Hv as H1 _ H3 H4 _ H6 _.
    eapply flushed_view; [..|exact Hfl]; try assumption.
    + rewrite H1. destruct Hq' as [->| ->]; [exact Hq|reflexivity].
    + rewrite H3. destruct Hs' as [->| ->]; [exact Hsp|reflexivity].
Qed.

Lemma flushed_run done owed events :
  forall w, Forall View.not_push events ->
            View.flushed done owed w -> View.flushed done owed (run w events).
Proof.
  induction events as [|e events IH]; intros w Hnp Hfl; [exact Hfl|].
  apply Forall_cons in Hnp as [He Hnp].
  cbn. apply IH; [exact Hnp|]. apply flushed_step; assumption.
Qed.

(** *** Undisturbed playback renders every frame, in the order of the
    pushes *)





(** *** Undisturbed playback drains the queue *)



End PlaybackFacts.

(** ** The in-flight flag and the outbound channel *)

Section FlagAndChannelFacts.
Import Voice.

Implicit Types (w : World) (e : event) (event : UIUpdate).

(** The refs after a SHOW_PRODUCTS event that carries products: the flag is
    up, and the pending slot is written when the event navigates. *)
Lemma showProducts_refs event w ps :
  products_of event = Some ps ->
  voiceUpdateFlagRef (refs (showProducts event w)) = true /\
  pendingVoiceUpdateRef (refs (showProducts event w))
  = (if truthy_opt (navigate_to event)
     then Some {| pending_products := ps;
                  pending_total := total_of event;
                  pending_filters := filters_or_empty event |}
     else pendingVoiceUpdateRef (refs w)) /\
  flagTimers (browser (showProducts event w)) = S (flagTimers (browser w)) /\
  requests (browser (showProducts event w)) = requests (browser w).
Proof.
  intros Hps. unfold showProducts. rewrite Hps. cbv zeta.
  repeat case_match; repeat split; reflexivity.
Qed.

Lemma flag_handleUIUpdate event w :
  voiceUpdateFlagRef (refs w) = true ->
  voiceUpdateFlagRef (refs (handleUIUpdate event w)) = true.
Proof.
  intros Hflag. unfold handleUIUpdate. cbv zeta.
  set (w0 := match navigate_to event with
             | Some to => if truthy to then navigate to w else w
             | None => w
             end).
  assert (Hflag0 : voiceUpdateFlagRef (refs w0) = true).
  { unfold w0. repeat case_match; exact Hflag. }
  clearbody w0.
  repeat case_match; try exact Hflag0.
  unfold showProducts. repeat case_match; first [exact Hflag0|reflexivity].
Qed.

Lemma flag_mount w :
  voiceUpdateFlagRef (refs (mount w)) = voiceUpdateFlagRef (refs w).
Proof.
  unfold mount, refreshEffect, voiceEffect, fetchProducts,
    consumePendingVoiceData, isVoiceUpdateInProgress. handler.
Qed.

(** The flag goes down on no event but the timer. *)
Lemma flag_step w e :
  e <> FlagTimer ->
  voiceUpdateFlagRef (refs w) = true ->
  voiceUpdateFlagRef (refs (step w e)) = true.
Proof.
  intros Hne Hflag. destruct (View.drives_ui e) eqn:He.
  - destruct e as [| | | | | |i|i|i|m| |f|p input|c st| | | | | | | |i r|pr];
      try discriminate He; cbn [step].
    + destruct m; try discriminate He. apply flag_handleUIUpdate, Hflag.
    + congruence.
    + destruct (page w); [exact Hflag|]. rewrite flag_mount. exact Hflag.
    + exact Hflag.
    + unfold refreshEffect, isVoiceUpdateInProgress. rewrite Hflag. exact Hflag.
    + unfold tryAgain, fetchProducts. repeat case_match; exact Hflag.
    + unfold fetchSettled. repeat case_match; exact Hflag.
    + exact Hflag.
  - pose proof (ui_step w e He) as Hv. unfold View.ui in Hv.
    injection Hv as Hf _. congruence.
Qed.

(** An empty pending slot stays empty until a [ui_update] arrives. *)
Lemma pending_mount w :
  pendingVoiceUpdateRef (refs (mount w)) = None.
Proof.
  unfold mount, refreshEffect, voiceEffect, fetchProducts,
    consumePendingVoiceData, isVoiceUpdateInProgress. handler.
Qed.

Lemma pending_step w e :
  View.not_ui_update e ->
  pendingVoiceUpdateRef (refs w) = None ->
  pendingVoiceUpdateRef (refs (step w e)) = None.
Proof.
  intros Hne Hnone. destruct (View.drives_ui e) eqn:He.
  - destruct e as [| | | | | |i|i|i|m| |f|p input|c st| | | | | | | |i r|pr];
      try discriminate He; cbn [step].
    + destruct m; try discriminate He. exfalso. eapply Hne. reflexivity.
    + repeat case_match; exact Hnone.
    + destruct (page w); [exact Hnone|apply pending_mount].
    + exact Hnone.
    + unfold refreshEffect, fetchProducts. repeat case_match; exact Hnone.
    + unfold tryAgain, fetchProducts. repeat case_match; exact Hnone.
    + unfold fetchSettled. repeat case_match; exact Hnone.
    + exact Hnone.
  - pose proof (ui_step w e He) as Hv. unfold View.ui in Hv.
    injection Hv as _ Hp _. congruence.
Qed.

Lemma pending_run events :
  forall w, Forall View.not_ui_update events ->
            pendingVoiceUpdateRef (refs w) = None ->
            pendingVoiceUpdateRef (refs (run w events)) = None.
Proof.
  induction events as [|e events IH]; intros w Hev Hnone; [exact Hnone|].
  apply Forall_cons in Hev as [He Hev].
  cbn. apply IH; [exact Hev|]. apply pending_step; assumption.
Qed.

(** Nothing but [onaudioprocess] sends on the channel. *)
Lemma sent_step w e :
  (forall p inputData, e <> AudioProcess p inputData) ->
  sent (browser (step w e)) = sent (browser w).
Proof.
  assert (Hv : forall w', View.channel w' = View.channel w ->
                          sent (browser w') = sent (browser w)).
  { unfold View.channel. intros w' [= _ _ _ _ _ _ _ _ _ _ H _]. exact H. }
  intros Hne.
  destruct e as [| | | | | |i|i|i|m| |f|p input|c st| | | | | | | |i r|pr]; cbn [step].
  - reflexivity.
  - unfold stopVoice, cleanup. handler.
  - unfold toggleVoice, stopVoice, cleanup, startVoice. handler.
  - unfold toggleMute. handler.
  - unfold startVoice_granted. handler.
  - unfold startVoice_denied. handler.
  - unfold onopen, startAudioStreaming. handler.
  - unfold onerror. handler.
  - unfold onclose, cleanup. handler.
  - destruct m; try reflexivity. apply Hv, channel_handleUIUpdate.
  - reflexivity.
  - unfold onmessage_audio. cbv zeta. apply Hv.
    rewrite channel_playNextAudio. reflexivity.
  - exfalso. eapply Hne. reflexivity.
  - handler.
  - destruct (resuming (browser w)) as [|[f c] rest]; [reflexivity|].
    apply Hv. rewrite channel_playNextAudio_resumed. reflexivity.
  - destruct (sounding (browser w)) as [|f rest]; [reflexivity|].
    unfold onended. apply Hv. rewrite channel_playNextAudio. reflexivity.
  - handler.
  - destruct (page w); [reflexivity|]. apply Hv, channel_mount.
  - reflexivity.
  - unfold refreshEffect, fetchProducts, isVoiceUpdateInProgress. handler.
  - unfold tryAgain, fetchProducts. handler.
  - unfold fetchSettled. handler.
  - reflexivity.
Qed.

Lemma length_closeSocket i l : length (closeSocket i l) = length l.
Proof.
  unfold closeSocket. repeat case_match; rewrite ?length_insert; reflexivity.
Qed.

(** [cleanup] creates no browser object. *)
Lemma cleanup_creates_nothing w :
  length (sockets (browser (cleanup w))) = length (sockets (browser w)) /\
  length (streams (browser (cleanup w))) = length (streams (browser w)) /\
  length (contexts (browser (cleanup w))) = length (contexts (browser w)) /\
  length (processors (browser (cleanup w))) = length (processors (browser w)) /\
  micRequests (browser (cleanup w)) = micRequests (browser w).
Proof.
  unfold cleanup. cbv zeta.
  repeat case_match; cbn;
    rewrite ?length_closeSocket, ?length_insert, ?length_alter;
    repeat split; reflexivity.
Qed.

End FlagAndChannelFacts.

(** * Main results *)

(** ** Codec round trip *)

Section CodecResults.
Import Codec.
Local Open Scope Q_scope.

(** C4, as stated, fails: the sample 65535/65536 (a 32-bit float, so that
    every operation on it is exact) lies in [-1,1], is encoded as 32766 and
    decoded as 32766/32768, which is 3/65536 below it: one and a half
    quantization steps, more than 1/32768 and more than 1/32767. *)
Lemma codec_roundtrip_exceeds_one_step :
  let x := 65535 # 65536 in
  in_range x /\
  encode [x] = [32766%Z] /\
  Forall2 (fun x y => Qabs (y - x) == 3 # 65536) [x] (decode (encode [x])) /\
  ~ Forall2 (fun x y => Qabs (y - x) <= quantum) [x] (decode (encode [x])) /\
  ~ Forall2 (fun x y => Qabs (y - x) <= 1 # 32767) [x] (decode (encode [x])).
Proof.
  cbv zeta. split; [split; q_closed|]. split; [reflexivity|].
  split; [constructor; [reflexivity|constructor]|].
  split; intros H; apply Forall2_cons_1 in H as [H _]; revert H;
    vm_compute; intros H; apply H; reflexivity.
Qed.

(** C4, amended: for every array of samples in [-1,1], the encoder stores
    for each sample the integer part of the sample times 32768 (negative
    sample) or times 32767 (non-negative sample), without clamping or
    wrap-around; the decoder divides by 32768; and each decoded sample
    differs from the original by less than two quantization steps (less
    than one step for a negative sample). *)
Theorem codec_roundtrip_within_two_steps (xs : list Q) :
  Forall in_range xs ->
  encode xs = map (fun x => trunc (scale x)) xs /\
  decode (encode xs) = map (fun v => inject_Z v / 32768) (encode xs) /\
  Forall2 (fun x y => Qabs (y - x) < 2 * quantum /\
                      (x < 0 -> Qabs (y - x) < quantum))
          xs (decode (encode xs)).
Proof.
  intros Hxs. split; [|split; [reflexivity|]].
  - unfold encode. apply map_ext_in. intros x Hx.
    rewrite Forall_forall in Hxs. apply list_elem_of_In in Hx.
    apply encodeSample_unclamped, Hxs, Hx.
  - induction Hxs as [|x xs Hx _ IH]; simpl; constructor.
    + apply roundtrip_sample, Hx.
    + exact IH.
Qed.

Lemma codec_roundtrip_within_two_steps_witness :
  Forall2 (fun x y => Qabs (y - x) < 2 * quantum /\
                      (x < 0 -> Qabs (y - x) < quantum))
          [65535 # 65536; - (1 # 3)]
          (decode (encode [65535 # 65536; - (1 # 3)])).
Proof.
  apply (codec_roundtrip_within_two_steps [65535 # 65536; - (1 # 3)]).
  repeat constructor; unfold Qle; simpl; lia.
Defined.

End CodecResults.

(** ** Cart *)

Section CartResults.
Import Cart.

(** C10: on a cart whose ids are unique, [addToCart] keeps the ids unique;
    when an entry has the product's id, that entry (and no other) gets its
    quantity increased by one, at its position, and the cart keeps its
    length; otherwise one entry with the product's fields and quantity 1 is
    appended and the existing entries stay.  The quantity of the entry that
    is increased is taken in the range where the sum of the code is exact
    (an integer from [-2^53] to [2^53 - 1]); the entry found is in that
    range, and the new quantity is at most [2^53]. *)
Theorem addToCart_unique_ids (pr : product) (prev : list item) :
  NoDup (ids prev) ->
  (forall it, it ∈ prev -> id it = product_id pr -> safe (quantity it)) ->
  NoDup (ids (addToCart pr prev)) /\
  (product_id pr ∈ ids prev ->
     exists i it,
       prev !! i = Some it /\ id it = product_id pr /\
       safe (quantity it) /\ - 2 ^ 53 < quantity it + 1 <= 2 ^ 53 /\
       addToCart pr prev
       = <[i := Item (id it) (fields it) (quantity it + 1)]> prev /\
       length (addToCart pr prev) = length prev) /\
  (product_id pr ∉ ids prev ->
     addToCart pr prev = prev ++ [Item (product_id pr) (product_fields pr) 1]).
Proof.
  intros Hnd Hsafe. unfold addToCart.
  destruct (find (same_id pr) prev) as [existing|] eqn:Hfind.
  - destruct (find_same_id_Some _ _ _ Hfind) as [Hid Hin].
    split; [rewrite ids_bump; exact Hnd|]. split.
    + intros _. pose proof (Hsafe existing Hin Hid) as Hq.
      apply list_elem_of_lookup in Hin as [i Hi].
      exists i, existing. split; [exact Hi|]. split; [exact Hid|].
      split; [exact Hq|]. split; [unfold safe in Hq; lia|].
      rewrite (map_bump_insert pr prev Hnd i existing Hi Hid).
      split; [reflexivity|apply length_insert].
    + intros Hnot. apply find_same_id_None in Hnot. congruence.
  - pose proof (proj1 (find_same_id_None pr prev) Hfind) as Hnot.
    split; [|split; [intros Hin; contradiction|reflexivity]].
    unfold ids. rewrite map_app. simpl. apply NoDup_app. split; [exact Hnd|].
    split; [|apply NoDup_singleton].
    intros x Hx Hx'. apply list_elem_of_singleton in Hx'. subst x.
    exact (Hnot Hx).
Qed.

Lemma addToCart_unique_ids_witness :
  let pr := Product (JNum 7) ∅ in
  let prev := [Item (JNum 3) ∅ 2; Item (JNum 7) ∅ 1] in
  NoDup (ids (addToCart pr prev)) /\
  length (addToCart pr prev) = length prev.
Proof.
  cbv zeta.
  assert (Hnd : NoDup (ids [Item (JNum 3) ∅ 2; Item (JNum 7) ∅ 1])).
  { simpl. apply NoDup_cons. split.
    - intros H. apply list_elem_of_singleton in H. discriminate H.
    - apply NoDup_singleton. }
  assert (Hsafe : forall it, it ∈ [Item (JNum 3) ∅ 2; Item (JNum 7) ∅ 1] ->
                             id it = JNum 7 -> safe (quantity it)).
  { intros it Hin _. apply elem_of_cons in Hin as [->|Hin];
      [|apply list_elem_of_singleton in Hin; subst it]; unfold safe; simpl; lia. }
  destruct (addToCart_unique_ids (Product (JNum 7) ∅)
              [Item (JNum 3) ∅ 2; Item (JNum 7) ∅ 1] Hnd Hsafe) as (H1 & H2 & _).
  split; [exact H1|].
  destruct H2 as (i & it & _ & _ & _ & _ & _ & Hlen); [|exact Hlen].
  simpl. apply elem_of_cons. right. apply elem_of_cons. left. reflexivity.
Defined.

End CartResults.

(** ** Filters pushed by voice *)

Section FilterResults.
Import Page.

(** C8, as stated, fails: a key that the event provides is not always
    merged.  On a mounted page whose minimum price a first voice event has
    set to 500, a second event that provides [category: 'mobiles'] and
    [min_price: 0] writes the category and leaves the minimum price at 500:
    the callback tests the value of a key ([if (filters.min_price)]), not
    its presence. *)
Lemma voice_filter_falsy_value_not_merged :
  let w := Voice.run Scenario.live
             [Voice.PageMount; Voice.WsMessage (Voice.ui_update Scenario.fromFiveHundred)] in
  let w' := Voice.step w (Voice.WsMessage (Voice.ui_update Scenario.mobilesFromZero)) in
  Voice.filters Scenario.mobilesFromZero ≫= (.!! "min_price") = Some (JNum 0) /\
  filterCell "min_price" <$> Voice.page w = Some (Some (JNum 500)) /\
  filterCell "min_price" <$> Voice.page w' = Some (Some (JNum 500)) /\
  filterCell "min_price" <$> Voice.page w' <> Some (Some (JNum 0)) /\
  filterCell "category" <$> Voice.page w' = Some (Some (JStr "mobiles")).
Proof. vm_compute. repeat split; first [reflexivity|discriminate]. Qed.

(** C8, amended: the callback that applies voice filters writes a filter
    cell (category, brand, min_price, max_price, sort_by, query) exactly
    when the event carries a truthy value under that key, and then writes
    that value; the cell of every key that the event does not provide, or
    provides with a falsy value ([null], [0], the empty string), keeps its
    value, and no other cell of the page changes: never a full overwrite.
    So does the event itself on the mounted page: a SHOW_PRODUCTS event
    that carries products and filters leaves in each filter cell the
    event's value when it is truthy and the cell's previous value
    otherwise, and whatever [ui_update] event is handled, the cell of a key
    that it does not provide keeps its value. *)
Theorem voice_filters_partial_merge (filters : jsobj) (p : Products) :
  (forall k, k ∈ filterKeys -> filters !! k = None ->
     filterCell k (applyFilters filters p) = filterCell k p) /\
  (forall k v, k ∈ filterKeys -> filters !! k = Some v -> truthy v = true ->
     filterCell k (applyFilters filters p) = Some v) /\
  (forall k v, k ∈ filterKeys -> filters !! k = Some v -> truthy v = false ->
     filterCell k (applyFilters filters p) = filterCell k p) /\
  (let p' := applyFilters filters p in
   products p' = products p /\ total p' = total p /\ loading p' = loading p /\
   error p' = error p /\ selectedProduct p' = selectedProduct p /\
   isModalOpen p' = isModalOpen p /\ compareList p' = compareList p /\
   isCompareOpen p' = isCompareOpen p) /\
  (forall (event : Voice.UIUpdate) (w : Voice.World) k,
     Voice.page w = Some p -> k ∈ filterKeys ->
     Voice.filters event ≫= (.!! k) = None ->
     exists p', Voice.page (Voice.handleUIUpdate event w) = Some p' /\
                filterCell k p' = filterCell k p) /\
  (forall (event : Voice.UIUpdate) (w : Voice.World) (ps : list Cart.product) k,
     Voice.page w = Some p -> Voice.onFiltersUpdateRef (Voice.refs w) = true ->
     Voice.action event = "SHOW_PRODUCTS" -> Voice.products_of event = Some ps ->
     Voice.filters event = Some filters -> k ∈ filterKeys ->
     exists p', Voice.page (Voice.handleUIUpdate event w) = Some p' /\
                filterCell k p'
                = match filters !! k with
                  | Some v => if truthy v then Some v else filterCell k p
                  | None => filterCell k p
                  end).
Proof.
  split; [|split; [|split; [|split; [|split]]]].
  - intros k Hk Hnone. rewrite applyFilters_cells, Hnone by exact Hk. reflexivity.
  - intros k v Hk Hsome Ht. rewrite applyFilters_cells, Hsome, Ht by exact Hk.
    reflexivity.
  - intros k v Hk Hsome Ht. rewrite applyFilters_cells, Hsome, Ht by exact Hk.
    reflexivity.
  - apply applyFilters_others.
  - intros event w k Hp Hk Hnone.
    apply handleUIUpdate_filter_frame; assumption.
  - intros event w ps k Hp Hreg Hact Hps Hfs Hk.
    unfold Voice.handleUIUpdate. rewrite Hact. cbv zeta.
    set (w0 := match Voice.navigate_to event with
               | Some to => if truthy to then Voice.navigate to w else w
               | None => w
               end).
    assert (Hp0 : Voice.page w0 = Some p)
      by (unfold w0; repeat case_match; exact Hp).
    assert (Hr0 : Voice.onFiltersUpdateRef (Voice.refs w0) = true)
      by (unfold w0; repeat case_match; exact Hreg).
    clearbody w0. cbn [String.eqb Ascii.eqb Bool.eqb].
    rewrite (showProducts_page _ _ _ Hps), Hp0, Hfs, Hr0. cbn.
    eexists. split; [reflexivity|].
    rewrite applyFilters_cells by exact Hk.
    destruct (Voice.onProductsUpdateRef (Voice.refs w0)); reflexivity.
Qed.

Lemma voice_filters_partial_merge_witness :
  let w := Voice.run Scenario.live [Voice.PageMount] in
  exists p',
    Voice.page (Voice.handleUIUpdate Scenario.showTwo w) = Some p' /\
    filterCell "category" p' = Some (JStr "mobiles") /\
    filterCell "max_price" p' = Some (JNum 10000) /\
    filterCell "brand" p' = filterCell "brand" initial.
Proof.
  cbv zeta.
  pose proof (voice_filters_partial_merge
                {["category" := JStr "mobiles"; "max_price" := JNum 10000]}
                (fetchProducts_issue initial)) as (_ & _ & _ & _ & _ & H).
  assert (Hin : forall k, k ∈ ["category"; "max_price"; "brand"] -> k ∈ filterKeys).
  { intros k Hk. unfold filterKeys.
    repeat (apply elem_of_cons in Hk as [->|Hk]); [..|by apply elem_of_nil in Hk];
      set_solver. }
  destruct (H Scenario.showTwo (Voice.run Scenario.live [Voice.PageMount])
              [Scenario.P1; Scenario.P2] "category"
              eq_refl eq_refl eq_refl eq_refl eq_refl (Hin _ ltac:(left)))
    as (p1 & Hp1 & Hc).
  destruct (H Scenario.showTwo (Voice.run Scenario.live [Voice.PageMount])
              [Scenario.P1; Scenario.P2] "max_price"
              eq_refl eq_refl eq_refl eq_refl eq_refl (Hin _ ltac:(right; left)))
    as (p2 & Hp2 & Hm).
  destruct (H Scenario.showTwo (Voice.run Scenario.live [Voice.PageMount])
              [Scenario.P1; Scenario.P2] "brand"
              eq_refl eq_refl eq_refl eq_refl eq_refl (Hin _ ltac:(right; right; left)))
    as (p3 & Hp3 & Hb).
  assert (E2 : p2 = p1) by congruence. assert (E3 : p3 = p1) by congruence.
  subst p2 p3. exists p1. split; [exact Hp1|]. split; [exact Hc|]. split; [exact Hm|].
  exact Hb.
Defined.

End FilterResults.

(** ** The in-flight flag and the HTTP refresh *)

Section FlagResults.
Import Voice Scenario.

(** C1, as stated, fails: not every HTTP refresh is skipped while the flag
    is up.  In [voiceWindow] the flag is up and the page shows the two
    products pushed by voice; a click on Try Again (rendered while [error] is
    set, and wired to [fetchProducts] with no look at the flag) sends a
    request, and its response replaces the voice-provided list and total
    while the flag is still up.  So does, in [voiceWindowWithStraggler], the
    response to a request that left before the voice update. *)
Lemma refresh_not_always_skipped :
  isVoiceUpdateInProgress voiceWindow = true /\
  Page.products <$> page voiceWindow = Some [P1; P2] /\
  requests (browser voiceWindow) = [] /\
  (let w := step voiceWindow TryAgain in
   isVoiceUpdateInProgress w = true /\
   requests (browser w) = [[("category", JStr "mobiles"); ("max_price", JNum 10000)]]) /\
  (let w := run voiceWindow
              [TryAgain; FetchSettled 0 (Page.FetchSuccess [Q1] (Some (JNum 1)))] in
   isVoiceUpdateInProgress w = true /\
   Page.products <$> page w = Some [Q1] /\
   Page.total <$> page w = Some (Some (JNum 1))) /\
  (let w := step voiceWindowWithStraggler
              (FetchSettled 0 (Page.FetchSuccess [Q1] (Some (JNum 1)))) in
   Page.products <$> page voiceWindowWithStraggler = Some [P1; P2] /\
   isVoiceUpdateInProgress w = true /\
   Page.products <$> page w = Some [Q1]).
Proof. vm_compute. repeat split; reflexivity. Qed.

(** C1, amended: a SHOW_PRODUCTS event that carries products raises the
    flag and arms one timer; while the flag is up the refresh effect of the
    product page (the refresh driven by filter changes, and the one run on
    mount) is skipped entirely: it changes nothing at all, in particular it
    sends no request and leaves the product list and the total as they are,
    however often it runs; and no event but the firing of a timer lowers the
    flag. *)
Theorem refresh_effect_skipped_in_window (w : World) :
  isVoiceUpdateInProgress w = true ->
  refreshEffect w = w /\
  (forall n, run w (repeat FiltersChanged n) = w) /\
  (page w = None ->
     requests (browser (step w PageMount)) = requests (browser w)) /\
  (forall e, e <> FlagTimer -> isVoiceUpdateInProgress (step w e) = true) /\
  (forall event ps w0,
     action event = "SHOW_PRODUCTS" -> products_of event = Some ps ->
     isVoiceUpdateInProgress (handleUIUpdate event w0) = true /\
     flagTimers (browser (handleUIUpdate event w0)) = S (flagTimers (browser w0))).
Proof.
  intros Hflag.
  assert (Hskip : refreshEffect w = w) by (unfold refreshEffect; rewrite Hflag; reflexivity).
  split; [exact Hskip|]. split; [|split; [|split]].
  - induction n as [|n IH]; [reflexivity|]. cbn. rewrite Hskip. exact IH.
  - intros Hpage. cbn [step]. rewrite Hpage.
    unfold isVoiceUpdateInProgress in Hflag.
    unfold mount, refreshEffect, voiceEffect, consumePendingVoiceData,
      isVoiceUpdateInProgress. cbn.
    destruct (pendingVoiceUpdateRef (refs w)); cbn; rewrite Hflag; cbn;
      rewrite ?Hflag; reflexivity.
  - intros e He. apply flag_step; assumption.
  - intros event ps w0 Hact Hps. unfold handleUIUpdate. rewrite Hact. cbn.
    unfold isVoiceUpdateInProgress.
    destruct (showProducts_refs event
                (match navigate_to event with
                 | Some to => if truthy to then navigate to w0 else w0
                 | None => w0
                 end) ps Hps) as (Hf & _ & Ht & _).
    split; [exact Hf|]. rewrite Ht. repeat case_match; reflexivity.
Qed.

Lemma refresh_effect_skipped_in_window_witness :
  refreshEffect voiceWindow = voiceWindow /\
  run voiceWindow (repeat FiltersChanged 3) = voiceWindow.
Proof.
  pose proof (refresh_effect_skipped_in_window voiceWindow eq_refl) as (H1 & H2 & _).
  split; [exact H1|exact (H2 3%nat)].
Defined.

End FlagResults.

(** ** The pending update *)

Section PendingResults.
Import Voice Scenario.

(** C2: a SHOW_PRODUCTS event that carries products and a navigation target
    stores its products, total and filters in the pending slot; the first
    read returns them and empties the slot, and a second read returns
    nothing, at once or after any events other than a further [ui_update].
    When the product page then mounts, its mount-time read takes them (the
    page shows the stored products, total and filters) and leaves the slot
    empty, so that a later mount reads nothing and starts from the initial
    page. *)
Theorem pending_update_consumed_once (event : UIUpdate) (w : World)
    (ps : list Cart.product) :
  action event = "SHOW_PRODUCTS" ->
  truthy_opt (navigate_to event) = true ->
  products_of event = Some ps ->
  let stored := {| pending_products := ps;
                   pending_total := total_of event;
                   pending_filters := filters_or_empty event |} in
  let w1 := handleUIUpdate event w in
  let first := consumePendingVoiceData w1 in
  let second := consumePendingVoiceData first.2 in
  first.1 = Some stored /\
  pendingVoiceUpdateRef (refs first.2) = None /\
  second.1 = None /\
  (forall events, Forall View.not_ui_update events ->
                  (consumePendingVoiceData (run first.2 events)).1 = None) /\
  (page w = None ->
     let w2 := step w1 PageMount in
     let w3 := step (step w2 PageUnmount) PageMount in
     page w2 = Some (Page.applyFilters (pending_filters stored)
                       (Page.setLoading false
                          (Page.setTotal (pending_total stored)
                             (Page.setProducts ps Page.initial)))) /\
     pendingVoiceUpdateRef (refs w2) = None /\
     (consumePendingVoiceData w2).1 = None /\
     page w3 = Some Page.initial).
Proof.
  intros Hact Hnav Hps. cbv zeta.
  set (w0 := match navigate_to event with
             | Some to => if truthy to then navigate to w else w
             | None => w
             end).
  assert (Hw1 : handleUIUpdate event w = showProducts event w0).
  { unfold handleUIUpdate. rewrite Hact. reflexivity. }
  rewrite Hw1.
  destruct (showProducts_refs event w0 ps Hps) as (Hflag & Hpend & _ & _).
  rewrite Hnav in Hpend.
  split; [exact Hpend|]. split; [reflexivity|]. split; [reflexivity|].
  split; [intros events Hev; apply pending_run; [exact Hev|reflexivity]|].
  intros Hpage.
  assert (Hpage1 : page (showProducts event w0) = None).
  { rewrite (showProducts_page _ _ _ Hps).
    replace (page w0) with (page w); [rewrite Hpage; reflexivity|].
    unfold w0. repeat case_match; reflexivity. }
  cbn [step]. rewrite Hpage1.
  unfold mount, unmount, refreshEffect, voiceEffect, consumePendingVoiceData,
    isVoiceUpdateInProgress.
  repeat (progress (cbn; rewrite ?Hpend, ?Hflag)).
  repeat split; reflexivity.
Qed.

Lemma pending_update_consumed_once_witness :
  (consumePendingVoiceData (handleUIUpdate showTwo live)).1
  = Some {| pending_products := [P1; P2];
            pending_total := Some (JNum 2);
            pending_filters := filters_or_empty showTwo |} /\
  (consumePendingVoiceData
     (consumePendingVoiceData (handleUIUpdate showTwo live)).2).1 = None.
Proof.
  pose proof (pending_update_consumed_once showTwo live [P1; P2]
                eq_refl eq_refl eq_refl) as (H1 & _ & H3 & _).
  split; [exact H1|exact H3].
Defined.

End PendingResults.

(** ** The comparison view *)

Section CompareResults.
Import Voice Scenario.

(** C7, as stated, fails: a COMPARE_PRODUCTS event with one product is not
    a no-op.  On a mounted page where the user has picked [Q1] for
    comparison, the event replaces the pick by [P1] and raises the open flag
    of the comparison view; the view stays hidden only because the list is
    short, and it opens by itself as soon as the user picks a second
    product, which it does not without the event. *)
Lemma compare_one_product_not_noop :
  let w := onePicked in
  let w1 := step w (WsMessage (ui_update compareOne)) in
  Page.compareList <$> page w = Some [Q1] /\
  Page.isCompareOpen <$> page w = Some false /\
  Page.compareList <$> page w1 = Some [P1] /\
  Page.isCompareOpen <$> page w1 = Some true /\
  w1 <> w /\
  Page.compareViewOpen <$> page (step w1 (CompareToggle P2)) = Some true /\
  Page.compareViewOpen <$> page (step w (CompareToggle P2)) = Some false.
Proof.
  cbv zeta. repeat split; try (vm_compute; reflexivity).
  intros Heq. apply (f_equal (fun w => Page.isCompareOpen <$> page w)) in Heq.
  vm_compute in Heq. discriminate Heq.
Qed.

(** C7, amended: a COMPARE_PRODUCTS event whose [data.products] has fewer
    than 2 entries opens no comparison view: when the page has registered
    its callback the view is not rendered after the event, and otherwise the
    page is left as it is.  The event is not a no-op on the page: the
    callback stores the products as the comparison list and raises the open
    flag. *)
Theorem compare_below_two_opens_no_view (event : UIUpdate) (w : World)
    (ps : list Cart.product) :
  action event = "COMPARE_PRODUCTS" ->
  products_of event = Some ps ->
  (length ps < 2)%nat ->
  let w1 := handleUIUpdate event w in
  (onCompareRef (refs w) = true ->
     page w1 = Page.onCompare ps <$> page w /\
     forall p1, page w1 = Some p1 ->
                Page.compareViewOpen p1 = false /\
                Page.compareList p1 = ps /\ Page.isCompareOpen p1 = true) /\
  (onCompareRef (refs w) = false -> page w1 = page w) /\
  (forall p0 p1, page w = Some p0 -> page w1 = Some p1 ->
                 Page.compareViewOpen p1 = true -> Page.compareViewOpen p0 = true).
Proof.
  intros Hact Hps Hlen. cbv zeta.
  set (w0 := match navigate_to event with
             | Some to => if truthy to then navigate to w else w
             | None => w
             end).
  assert (Hw1 : handleUIUpdate event w
                = if onCompareRef (refs w0) then onPage (Page.onCompare ps) w0 else w0).
  { unfold handleUIUpdate. rewrite Hact, Hps. reflexivity. }
  assert (Hrefs : onCompareRef (refs w0) = onCompareRef (refs w))
    by (unfold w0; repeat case_match; reflexivity).
  assert (Hpage : page w0 = page w)
    by (unfold w0; repeat case_match; reflexivity).
  rewrite Hw1, Hrefs.
  assert (Hhidden : forall p, Page.compareViewOpen (Page.onCompare ps p) = false).
  { intros p. destruct ps as [|a [|b ps']]; [reflexivity..|cbn in Hlen; lia]. }
  split; [|split].
  - intros ->. cbn. rewrite Hpage. split; [reflexivity|].
    intros p1 Hp1. destruct (page w) as [p0|]; [|discriminate Hp1].
    injection Hp1 as <-. split; [apply Hhidden|]. split; reflexivity.
  - intros ->. exact Hpage.
  - intros p0 p1 Hp0 Hp1 Hopen.
    destruct (onCompareRef (refs w)).
    + cbn in Hp1. rewrite Hpage, Hp0 in Hp1. injection Hp1 as <-.
      rewrite Hhidden in Hopen. discriminate Hopen.
    + rewrite Hpage, Hp0 in Hp1. injection Hp1 as <-. exact Hopen.
Qed.

Lemma compare_below_two_opens_no_view_witness :
  page (handleUIUpdate compareOne onePicked) = Page.onCompare [P1] <$> page onePicked.
Proof.
  pose proof (compare_below_two_opens_no_view compareOne onePicked [P1]
                eq_refl eq_refl ltac:(cbn; lia)) as (H & _).
  exact (proj1 (H eq_refl)).
Defined.

End CompareResults.

(** ** Starting and toggling *)

Section SessionResults.
Import Voice Scenario.

(** C3, as stated, fails: two toggles before the channel has opened start
    two sessions.  [isConnected] is still false at the second toggle, so
    [startVoice] runs again; both microphone requests are granted, two
    sockets, two streams and two playback contexts exist, and the refs point
    at the second of each.  Once both sockets are open, a further toggle
    stops the session the refs point at and leaves the first socket open,
    with its microphone stream live. *)
Lemma rapid_toggle_opens_two_connections :
  let w := run initial [ToggleVoice; ToggleVoice; MicGranted; MicGranted] in
  let w' := run w [WsOpen 0; WsOpen 1; ToggleVoice] in
  sockets (browser w) = [CONNECTING; CONNECTING] /\
  length (streams (browser w)) = 2%nat /\
  length (contexts (browser w)) = 2%nat /\
  wsRef (refs w) = Some 1%nat /\
  sockets (browser w') = [OPEN; CLOSING] /\
  streams (browser w')
  = [{| enabled := true; stopped := false |}; {| enabled := true; stopped := true |}].
Proof. vm_compute. repeat split; reflexivity. Qed.

(** C3, amended: a toggle while [isConnected] is true does not start a
    session: it stops the live one, opens no connection, asks for no
    microphone and creates no audio context.  [startVoice] itself looks at no
    state: every call asks for the microphone, and every grant creates a
    stream, a playback context and a socket. *)
Theorem toggle_while_connected_stops (w : World) :
  isConnected (state w) = true ->
  toggleVoice w = stopVoice w /\
  length (sockets (browser (toggleVoice w))) = length (sockets (browser w)) /\
  length (streams (browser (toggleVoice w))) = length (streams (browser w)) /\
  length (contexts (browser (toggleVoice w))) = length (contexts (browser w)) /\
  micRequests (browser (toggleVoice w)) = micRequests (browser w) /\
  isConnected (state (toggleVoice w)) = false /\
  (forall w0, micRequests (browser (startVoice w0)) = S (micRequests (browser w0))) /\
  (forall w0,
     micRequests (browser w0) <> 0%nat ->
     length (sockets (browser (step w0 MicGranted))) = S (length (sockets (browser w0))) /\
     length (streams (browser (step w0 MicGranted))) = S (length (streams (browser w0))) /\
     length (contexts (browser (step w0 MicGranted))) = S (length (contexts (browser w0)))).
Proof.
  intros Hconn. unfold toggleVoice. rewrite Hconn.
  destruct (cleanup_creates_nothing w) as (H1 & H2 & H3 & _ & H5).
  split; [reflexivity|].
  unfold stopVoice. cbn.
  split; [exact H1|]. split; [exact H2|]. split; [exact H3|]. split; [exact H5|].
  split; [reflexivity|]. split; [reflexivity|].
  intros w0 Hreq. cbn [step].
  destruct (micRequests (browser w0)); [contradiction|].
  unfold startVoice_granted. cbn. rewrite !length_app. cbn.
  repeat split; lia.
Qed.

Lemma toggle_while_connected_stops_witness :
  toggleVoice live = stopVoice live /\
  length (sockets (browser (toggleVoice live))) = length (sockets (browser live)).
Proof.
  pose proof (toggle_while_connected_stops live eq_refl) as (H1 & H2 & _).
  split; [exact H1|exact H2].
Defined.

End SessionResults.

(** ** Outbound audio *)

Section SendResults.
Import Voice Scenario.

(** C9: [onaudioprocess] sends the encoded capture buffer on the socket
    that [wsRef] holds exactly when that socket is open; otherwise it does
    nothing (the world is unchanged: nothing is sent, nothing is kept for
    later, nothing fails); and no other event ever sends, so a dropped frame
    is never transmitted afterwards. *)
Theorem outbound_frame_sent_iff_open (inputData : list Q) (w : World) :
  (forall i, channelOpen w = Some i <->
             wsRef (refs w) = Some i /\ sockets (browser w) !! i = Some OPEN) /\
  (forall i, channelOpen w = Some i ->
             onaudioprocess inputData w
             = onBrowser (fun b => set_sent (sent b ++ [(i, Codec.encode inputData)]) b) w) /\
  (channelOpen w = None -> onaudioprocess inputData w = w) /\
  (sent (browser (onaudioprocess inputData w)) <> sent (browser w) <->
   exists i, channelOpen w = Some i) /\
  (forall e, (forall p input, e <> AudioProcess p input) ->
             sent (browser (step w e)) = sent (browser w)).
Proof.
  split; [|split; [|split; [|split]]].
  - intros i. unfold channelOpen. split.
    + intros H. destruct (wsRef (refs w)) as [j|]; [|discriminate H].
      destruct (sockets (browser w) !! j) as [[]|] eqn:Hs; try discriminate H.
      injection H as ->. split; [reflexivity|exact Hs].
    + intros [-> ->]. reflexivity.
  - intros i Hopen. unfold onaudioprocess. rewrite Hopen. reflexivity.
  - intros Hclosed. unfold onaudioprocess. rewrite Hclosed. reflexivity.
  - unfold onaudioprocess. destruct (channelOpen w) as [i|]; cbn.
    + split; [intros _; eauto|]. intros _ Heq.
      apply (f_equal length) in Heq. rewrite length_app in Heq. cbn in Heq. lia.
    + split; [intros H; contradiction|intros [i H]; discriminate H].
  - intros e He. apply sent_step, He.
Qed.

End SendResults.

(** ** The playback queue *)

Section PlaybackResults.
Import Voice Scenario.

(** C5: a clear_audio_queue event empties the playback queue and lowers the
    speaking flag ([isSpeaking], the flag that tells the UI that playback is
    active; the source that sounds is left to end and holds the re-entrancy
    guard until then), and as long as no new frame is pushed, whatever else
    happens, the queue stays empty, the flag stays down and no queued frame
    is ever rendered: the rendered frames can only grow by the frame of a
    call that was waiting in [resume()] at the flush, and do not grow at all
    when no call was waiting (the frame in render had been started). *)
Theorem clear_audio_queue_flushes (w : World) (events : list event) :
  Forall View.not_push events ->
  let w1 := step w (WsMessage clear_audio_queue) in
  let w2 := run w1 events in
  playbackQueueRef (refs w1) = [] /\
  isSpeaking (state w1) = false /\
  sounding (browser w1) = sounding (browser w) /\
  isPlayingRef (refs w1) = isPlayingRef (refs w) /\
  playbackQueueRef (refs w2) = [] /\
  isSpeaking (state w2) = false /\
  (exists since, rendered (browser w2) = rendered (browser w) ++ since /\
                 sublist since (View.waiting w)) /\
  (resuming (browser w) = [] -> rendered (browser w2) = rendered (browser w)).
Proof.
  intros Hev. cbv zeta.
  assert (Hfl : View.flushed (rendered (browser w)) (View.waiting w)
                  (step w (WsMessage clear_audio_queue))).
  { split; [reflexivity|]. split; [reflexivity|].
    exists []. split; [cbn; rewrite app_nil_r; reflexivity|reflexivity]. }
  destruct (flushed_run _ _ events _ Hev Hfl) as (Hq & Hsp & since & Hrd & Hsub).
  split; [reflexivity|]. split; [reflexivity|]. split; [reflexivity|].
  split; [reflexivity|]. split; [exact Hq|]. split; [exact Hsp|].
  assert (Hsince : sublist since (View.waiting w)).
  { etransitivity; [|exact Hsub]. apply sublist_inserts_r. reflexivity. }
  split; [exists since; split; assumption|].
  intros Hres. unfold View.waiting in Hsince. rewrite Hres in Hsince.
  apply sublist_nil_r in Hsince. rewrite Hrd, Hsince, app_nil_r. reflexivity.
Qed.

Lemma clear_audio_queue_flushes_witness :
  let w := oneSoundingThreeQueued in
  let w2 := run (step w (WsMessage clear_audio_queue))
              [SourceEnded; FlagTimer; SourceEnded] in
  sounding (browser w) = [A] /\
  playbackQueueRef (refs w) = [B; C; D] /\
  playbackQueueRef (refs w2) = [] /\
  isSpeaking (state w2) = false /\
  rendered (browser w2) = [A].
Proof.
  cbv zeta.
  pose proof (clear_audio_queue_flushes oneSoundingThreeQueued
                [SourceEnded; FlagTimer; SourceEnded]) as H.
  destruct H as (_ & _ & _ & _ & Hq & Hsp & _ & Hrd).
  - repeat constructor; intros f; discriminate.
  - split; [reflexivity|]. split; [reflexivity|]. split; [exact Hq|].
    split; [exact Hsp|]. exact (Hrd eq_refl).
Defined.



End PlaybackResults.

(** * Further properties of the code *)

(** ** Codec: saturation, monotonicity, the other round trip *)

Section CodecMore.
Import Codec.
Local Open Scope Q_scope.

(** The clamp always lands in [[-1,1]], on the nearer bound for an argument
    outside. *)
Lemma clamp_any (x : Q) :
  in_range (clamp x) /\
  (1 <= x -> clamp x == 1) /\
  (x <= -1 -> clamp x == -1) /\
  (in_range x -> clamp x == x).
Proof.
  unfold clamp, Math_max, Math_min, in_range.
  destruct (Qlt_le_dec x 1) as [H1|H1].
  - destruct (Qlt_le_dec (-1) x) as [H2|H2].
    + split; [split; [apply Qlt_le_weak, H2|apply Qlt_le_weak, H1]|].
      split; [intros H; exfalso; exact (Qlt_not_le _ _ H1 H)|].
      split; [intros H; exfalso; exact (Qlt_not_le _ _ H2 H)|].
      intros _. reflexivity.
    + split; [split; q_closed|].
      split; [intros H; exfalso; exact (Qlt_not_le _ _ H1 H)|].
      split; [intros _; reflexivity|].
      intros [Hlo _]. apply Qle_antisym; assumption.
  - destruct (Qlt_le_dec (-1) 1) as [_|H2]; [|exfalso; revert H2; q_closed].
    split; [split; q_closed|].
    split; [intros _; reflexivity|].
    split.
    + intros H. exfalso. assert (Hc : 1 <= -1) by (eapply Qle_trans; eassumption).
      revert Hc. q_closed.
    + intros [_ Hhi]. apply Qle_antisym; assumption.
Qed.

Lemma clamp_mono (x y : Q) : x <= y -> clamp x <= clamp y.
Proof.
  intros Hxy. unfold clamp, Math_max, Math_min.
  destruct (Qlt_le_dec x 1) as [Hx|Hx], (Qlt_le_dec y 1) as [Hy|Hy].
  - destruct (Qlt_le_dec (-1) x) as [Hx'|Hx'], (Qlt_le_dec (-1) y) as [Hy'|Hy'].
    + exact Hxy.
    + exfalso. apply (Qlt_not_le _ _ Hx'). eapply Qle_trans; eassumption.
    + apply Qlt_le_weak, Hy'.
    + apply Qle_refl.
  - destruct (Qlt_le_dec (-1) x) as [Hx'|Hx'], (Qlt_le_dec (-1) 1) as [H1|H1];
      try (exfalso; revert H1; q_closed).
    + apply Qlt_le_weak, Hx.
    + q_closed.
  - exfalso. apply (Qlt_not_le _ _ Hy). eapply Qle_trans; eassumption.
  - apply Qle_refl.
Qed.

Lemma scale_mono (s t : Q) : s <= t -> scale s <= scale t.
Proof.
  intros Hst. unfold scale.
  destruct (Qlt_le_dec s 0) as [Hs|Hs], (Qlt_le_dec t 0) as [Ht|Ht].
  - apply Qmult_le_compat_r; [exact Hst|q_closed].
  - destruct s as [n1 d1], t as [n2 d2].
    unfold Qle, Qlt, Qmult in *. simpl in *. nia.
  - exfalso. apply (Qlt_not_le _ _ Ht). eapply Qle_trans; eassumption.
  - apply Qmult_le_compat_r; [exact Hst|q_closed].
Qed.

Lemma trunc_mono (a b : Q) : a <= b -> (trunc a <= trunc b)%Z.
Proof.
  destruct a as [n1 d1], b as [n2 d2]. unfold Qle, trunc. simpl. intros H.
  rewrite <- (Z.quot_mul_cancel_r n1 (Zpos d1) (Zpos d2)) by lia.
  rewrite <- (Z.quot_mul_cancel_r n2 (Zpos d2) (Zpos d1)) by lia.
  replace (Zpos d2 * Zpos d1)%Z with (Zpos d1 * Zpos d2)%Z by lia.
  apply Z.quot_le_mono; lia.
Qed.

(** X1: whatever the sample, the encoder stores a 16-bit value, and a
    sample beyond full scale is stored as full scale: nothing wraps. *)
Theorem encode_saturates (x : Q) :
  (-32768 <= encodeSample x <= 32767)%Z /\
  (1 <= x -> encodeSample x = 32767%Z) /\
  (x <= -1 -> encodeSample x = (-32768)%Z).
Proof.
  destruct (clamp_any x) as (Hr & Hhi & Hlo & _).
  unfold encodeSample. rewrite (toInt16_scale _ Hr).
  split; [|split].
  - destruct Hr as [Hr1 Hr2].
    pose proof (trunc_mono _ _ (scale_mono _ _ Hr1)) as H1.
    pose proof (trunc_mono _ _ (scale_mono _ _ Hr2)) as H2.
    change (trunc (scale (-1))) with (-32768)%Z in H1.
    change (trunc (scale 1)) with 32767%Z in H2. lia.
  - intros H. rewrite (trunc_Qeq _ _ (scale_Qeq _ _ (Hhi H))). reflexivity.
  - intros H. rewrite (trunc_Qeq _ _ (scale_Qeq _ _ (Hlo H))). reflexivity.
Qed.

(** X2: the encoder is monotone: a larger sample is never stored as a
    smaller value. *)
Theorem encode_monotone (x y : Q) :
  x <= y -> (encodeSample x <= encodeSample y)%Z.
Proof.
  intros Hxy. unfold encodeSample.
  destruct (clamp_any x) as (Hx & _), (clamp_any y) as (Hy & _).
  rewrite (toInt16_scale _ Hx), (toInt16_scale _ Hy).
  apply trunc_mono, scale_mono, clamp_mono, Hxy.
Qed.

Lemma encode_monotone_witness :
  (encodeSample (1 # 3) <= encodeSample (1 # 2))%Z.
Proof. apply (encode_monotone (1 # 3) (1 # 2)). q_closed. Defined.

(** X3: a 16-bit value is decoded into [[-1, 1)], and encoding what was
    decoded gives the value back when it is zero or negative, and the value
    minus one when it is positive: decoding divides by 32768, encoding
    multiplies positive samples by 32767 only. *)
Theorem decode_then_encode (v : Z) :
  (-32768 <= v <= 32767)%Z ->
  -1 <= decodeSample v /\ decodeSample v < 1 /\
  encodeSample (decodeSample v) = (if (0 <? v)%Z then v - 1 else v)%Z.
Proof.
  intros Hv.
  assert (Hlo : -1 <= decodeSample v)
    by (unfold decodeSample, Qdiv, Qinv, Qmult, Qle, inject_Z; simpl; lia).
  assert (Hhi : decodeSample v < 1)
    by (unfold decodeSample, Qdiv, Qinv, Qmult, Qlt, inject_Z; simpl; lia).
  split; [exact Hlo|]. split; [exact Hhi|].
  rewrite encodeSample_unclamped by (split; [exact Hlo|apply Qlt_le_weak, Hhi]).
  unfold decodeSample, Qdiv, Qinv, Qmult, inject_Z. simpl Qnum. simpl Qden.
  destruct (Z.ltb_spec 0 v) as [Hpos|Hneg].
  - rewrite scale_nonneg by lia. unfold Qmult. simpl Qnum. simpl Qden.
    rewrite trunc_num_den. change (Zpos (1 * 32768 * 1)) with 32768%Z.
    rewrite Z.quot_div_nonneg by lia.
    symmetry. apply Z.div_unique with (r := (32768 - v)%Z); lia.
  - destruct (Z.eq_dec v 0%Z) as [->|Hne]; [reflexivity|].
    rewrite scale_neg by lia. unfold Qmult. simpl Qnum. simpl Qden.
    rewrite trunc_num_den. change (Zpos (1 * 32768 * 1)) with 32768%Z.
    replace (v * 1 * 32768)%Z with (v * 32768)%Z by lia.
    apply Z.quot_mul. lia.
Qed.

Lemma decode_then_encode_witness :
  encodeSample (decodeSample 12345) = 12344%Z /\
  encodeSample (decodeSample (-12345)) = (-12345)%Z.
Proof.
  split.
  - apply (decode_then_encode 12345). lia.
  - apply (decode_then_encode (-12345)). lia.
Defined.

End CodecMore.

(** ** Cart: removing, updating, looking up, counting *)

Section CartMore.
Import Cart CartContext.

Implicit Types (pr : product) (prev items : list item) (it : item)
  (productId : jsval).

Lemma has_id_true productId it : has_id productId it = true <-> id it = productId.
Proof. unfold has_id. apply bool_decide_eq_true. Qed.

Lemma has_id_false productId it : has_id productId it = false <-> id it <> productId.
Proof. unfold has_id. apply bool_decide_eq_false. Qed.

Lemma same_id_has_id pr it : same_id pr it = has_id (product_id pr) it.
Proof. reflexivity. Qed.

Lemma elem_of_removeFromCart productId prev it :
  it ∈ removeFromCart productId prev <-> it ∈ prev /\ id it <> productId.
Proof.
  unfold removeFromCart. rewrite !list_elem_of_In, filter_In.
  rewrite negb_true_iff, has_id_false. reflexivity.
Qed.

Lemma removeFromCart_absent productId prev :
  productId ∉ ids prev -> removeFromCart productId prev = prev.
Proof.
  induction prev as [|x prev IH]; intros Hnot; [reflexivity|].
  unfold ids in Hnot. cbn in Hnot. apply not_elem_of_cons in Hnot as [Hx Hnot].
  unfold removeFromCart. cbn.
  replace (has_id productId x) with false
    by (symmetry; apply has_id_false; congruence).
  cbn. f_equal. apply IH, Hnot.
Qed.

(** With unique ids, removing an id deletes one position. *)
Lemma removeFromCart_delete productId prev i it :
  NoDup (ids prev) -> prev !! i = Some it -> id it = productId ->
  removeFromCart productId prev = delete i prev.
Proof.
  revert i. induction prev as [|x prev IH]; intros i Hnd Hi Hid; [discriminate|].
  change (ids (x :: prev)) with (id x :: ids prev) in Hnd.
  apply NoDup_cons in Hnd as [Hx Hnd]. destruct i as [|i]; cbn in Hi.
  - injection Hi as ->. unfold removeFromCart. cbn.
    replace (has_id productId it) with true by (symmetry; apply has_id_true, Hid).
    cbn. apply removeFromCart_absent. rewrite <- Hid. exact Hx.
  - unfold removeFromCart. cbn.
    replace (has_id productId x) with false.
    + cbn. f_equal. apply IH; assumption.
    + symmetry. apply has_id_false. intros Hxid. apply Hx.
      rewrite Hxid, <- Hid. apply list_elem_of_fmap_2, list_elem_of_lookup_2 with i, Hi.
Qed.

Lemma ids_removeFromCart productId prev :
  ids (removeFromCart productId prev)
  = List.filter (fun j => negb (bool_decide (j = productId))) (ids prev).
Proof.
  induction prev as [|x prev IH]; [reflexivity|].
  unfold removeFromCart, ids in *. cbn. unfold has_id at 1.
  destruct (bool_decide (id x = productId)); cbn; [exact IH|].
  f_equal. exact IH.
Qed.

Lemma NoDup_removeFromCart productId prev :
  NoDup (ids prev) -> NoDup (ids (removeFromCart productId prev)).
Proof.
  intros Hnd. rewrite ids_removeFromCart.
  apply NoDup_ListNoDup, List.NoDup_filter, NoDup_ListNoDup, Hnd.
Qed.

(** X4: [removeFromCart] takes out every entry with the given id and
    nothing else: the other entries stay, in their order; the id is no
    longer in the cart; unique ids stay unique; with unique ids exactly one
    position is deleted; and removing an id that is not in the cart changes
    nothing. *)
Theorem removeFromCart_removes_only_that_id productId prev :
  (forall it, it ∈ removeFromCart productId prev <-> it ∈ prev /\ id it <> productId) /\
  sublist (removeFromCart productId prev) prev /\
  isInCart productId (removeFromCart productId prev) = false /\
  getCartItem productId (removeFromCart productId prev) = None /\
  (NoDup (ids prev) -> NoDup (ids (removeFromCart productId prev))) /\
  (forall i it, NoDup (ids prev) -> prev !! i = Some it -> id it = productId ->
                removeFromCart productId prev = delete i prev) /\
  (productId ∉ ids prev -> removeFromCart productId prev = prev).
Proof.
  split; [intros it; apply elem_of_removeFromCart|].
  split.
  { induction prev as [|x l IH]; [constructor|]. unfold removeFromCart. cbn.
    destruct (has_id productId x); cbn;
      [apply sublist_cons, IH|apply sublist_skip, IH]. }
  assert (Hgone : forall l, existsb (has_id productId) (removeFromCart productId l) = false
                            /\ find (has_id productId) (removeFromCart productId l) = None).
  { induction l as [|x l [IH1 IH2]]; [split; reflexivity|].
    unfold removeFromCart. cbn. destruct (has_id productId x) eqn:Hx; cbn.
    - split; [exact IH1|exact IH2].
    - rewrite Hx. cbn. split; [exact IH1|exact IH2]. }
  split; [apply Hgone|]. split; [apply Hgone|].
  split; [apply NoDup_removeFromCart|].
  split; [intros i it Hnd Hi Hid; eapply removeFromCart_delete; eassumption|].
  apply removeFromCart_absent.
Qed.

Lemma ids_updateQuantity productId q prev :
  0 < q -> ids (updateQuantity productId q prev) = ids prev.
Proof.
  intros Hq. unfold updateQuantity. rewrite (proj2 (Z.leb_gt q 0) Hq).
  unfold ids. rewrite map_map. apply map_ext. intros it.
  destruct (has_id productId it); reflexivity.
Qed.

Lemma updateQuantity_insert productId q prev :
  0 < q -> NoDup (ids prev) ->
  forall i it, prev !! i = Some it -> id it = productId ->
  updateQuantity productId q prev = <[i := Item (id it) (fields it) q]> prev.
Proof.
  intros Hq. unfold updateQuantity. rewrite (proj2 (Z.leb_gt q 0) Hq).
  induction prev as [|x prev IH]; intros Hnd i it Hi Hid; [discriminate|].
  change (ids (x :: prev)) with (id x :: ids prev) in Hnd.
  apply NoDup_cons in Hnd as [Hx Hnd]. destruct i as [|i]; cbn in Hi |- *.
  - injection Hi as ->.
    replace (has_id productId it) with true by (symmetry; apply has_id_true, Hid).
    f_equal. rewrite <- (map_id prev) at 2. apply map_ext_in. intros y Hy.
    destruct (has_id productId y) eqn:Hyid; [|reflexivity].
    exfalso. apply has_id_true in Hyid. apply Hx. rewrite Hid, <- Hyid.
    apply list_elem_of_In, in_map, Hy.
  - replace (has_id productId x) with false.
    + f_equal. apply IH; assumption.
    + symmetry. apply has_id_false. intros Hxid. apply Hx.
      rewrite Hxid, <- Hid. apply list_elem_of_fmap_2, list_elem_of_lookup_2 with i, Hi.
Qed.

(** X5: [updateQuantity] with a quantity of zero or less is
    [removeFromCart]; with a positive quantity it keeps every id at its
    position (so the length and the uniqueness of ids), with unique ids it
    rewrites the quantity of the one entry with that id and nothing else,
    and for an id that is not in the cart it changes nothing. *)
Theorem updateQuantity_sets_or_removes productId (q : Z) prev :
  (q <= 0 -> updateQuantity productId q prev = removeFromCart productId prev) /\
  (0 < q ->
     ids (updateQuantity productId q prev) = ids prev /\
     length (updateQuantity productId q prev) = length prev /\
     (forall i it, NoDup (ids prev) -> prev !! i = Some it -> id it = productId ->
        updateQuantity productId q prev = <[i := Item (id it) (fields it) q]> prev) /\
     (productId ∉ ids prev -> updateQuantity productId q prev = prev)).
Proof.
  split.
  - intros Hq. unfold updateQuantity. rewrite (proj2 (Z.leb_le q 0) Hq). reflexivity.
  - intros Hq. split; [apply ids_updateQuantity, Hq|].
    split; [|split].
    + unfold updateQuantity. rewrite (proj2 (Z.leb_gt q 0) Hq). apply length_map.
    + intros i it Hnd Hi Hid. apply updateQuantity_insert; assumption.
    + intros Hnot. unfold updateQuantity. rewrite (proj2 (Z.leb_gt q 0) Hq).
      rewrite <- (map_id prev) at 2. apply map_ext_in. intros y Hy.
      destruct (has_id productId y) eqn:Hyid; [|reflexivity].
      exfalso. apply has_id_true in Hyid. apply Hnot. rewrite <- Hyid.
      apply list_elem_of_In, in_map, Hy.
Qed.

Lemma updateQuantity_sets_or_removes_witness :
  updateQuantity (JNum 7) 0 [Item (JNum 3) ∅ 2; Item (JNum 7) ∅ 1]
  = removeFromCart (JNum 7) [Item (JNum 3) ∅ 2; Item (JNum 7) ∅ 1].
Proof.
  apply (updateQuantity_sets_or_removes (JNum 7) 0
           [Item (JNum 3) ∅ 2; Item (JNum 7) ∅ 1]). lia.
Defined.

(** *** Looking up after adding *)

Lemma find_app_None (f : item -> bool) l x :
  find f l = None -> find f (l ++ [x]) = if f x then Some x else None.
Proof.
  induction l as [|y l IH]; cbn; [reflexivity|].
  destruct (f y); [discriminate|exact IH].
Qed.

Lemma find_app_Some (f : item -> bool) l x y :
  find f l = Some y -> find f (l ++ [x]) = Some y.
Proof.
  induction l as [|z l IH]; cbn; [discriminate|].
  destruct (f z); [intros H; exact H|exact IH].
Qed.

Lemma find_map_bump pr prev productId :
  find (has_id productId) (map (fun it => if same_id pr it then bump it else it) prev)
  = (fun it => if same_id pr it then bump it else it) <$> find (has_id productId) prev.
Proof.
  induction prev as [|x prev IH]; [reflexivity|]. cbn.
  assert (Hid : has_id productId (if same_id pr x then bump x else x) = has_id productId x)
    by (destruct (same_id pr x); reflexivity).
  rewrite Hid. destruct (has_id productId x); [reflexivity|exact IH].
Qed.

Lemma getCartItem_addToCart pr prev :
  getCartItem (product_id pr) (addToCart pr prev)
  = Some (match getCartItem (product_id pr) prev with
          | Some it => Item (id it) (fields it) (quantity it + 1)
          | None => Item (product_id pr) (product_fields pr) 1
          end).
Proof.
  unfold getCartItem, addToCart.
  change (find (same_id pr) prev) with (find (has_id (product_id pr)) prev).
  destruct (find (has_id (product_id pr)) prev) as [it|] eqn:Hfind.
  - rewrite find_map_bump, Hfind. cbn.
    destruct (find_same_id_Some pr prev it Hfind) as [Hid _].
    rewrite same_id_has_id, (proj2 (has_id_true _ _) Hid). reflexivity.
  - rewrite find_app_None by exact Hfind.
    rewrite (proj2 (has_id_true _ _)) by reflexivity. reflexivity.
Qed.

(** X6: after [addToCart] the product is in the cart, and the entry found
    under its id is the one found before with its quantity increased by
    one, or a new entry with quantity 1 when none was found; what is found
    under any other id is what was found before.  The quantity of the entry
    found before is taken in the range where the sum of the code is exact
    ([safe]); the quantity found afterwards is then at most [2^53]. *)
Theorem getCartItem_after_addToCart pr prev :
  (forall it, getCartItem (product_id pr) prev = Some it -> safe (quantity it)) ->
  getCartItem (product_id pr) (addToCart pr prev)
  = Some (match getCartItem (product_id pr) prev with
          | Some it => Item (id it) (fields it) (quantity it + 1)
          | None => Item (product_id pr) (product_fields pr) 1
          end) /\
  (forall it', getCartItem (product_id pr) (addToCart pr prev) = Some it' ->
     - 2 ^ 53 < quantity it' <= 2 ^ 53) /\
  isInCart (product_id pr) (addToCart pr prev) = true /\
  (forall productId, productId <> product_id pr ->
     getCartItem productId (addToCart pr prev) = getCartItem productId prev).
Proof.
  intros Hsafe.
  assert (Hsome : forall l k, is_Some (find (has_id k) l) -> existsb (has_id k) l = true).
  { induction l as [|x l IH]; intros k [y Hy]; [discriminate|]. cbn in *.
    destruct (has_id k x); [reflexivity|]. apply IH. eauto. }
  pose proof (getCartItem_addToCart pr prev) as Hget.
  split; [exact Hget|]. split; [|split].
  - intros it'. rewrite Hget. intros [= <-].
    destruct (getCartItem (product_id pr) prev) as [it|] eqn:Hit; cbn; [|lia].
    specialize (Hsafe it eq_refl). unfold safe in Hsafe. lia.
  - apply Hsome. unfold getCartItem in Hget. rewrite Hget. eauto.
  - intros productId Hne. unfold getCartItem, addToCart.
    destruct (find (same_id pr) prev) as [existing|] eqn:Hfind.
    + rewrite find_map_bump.
      destruct (find (has_id productId) prev) as [it|] eqn:Hit; [|reflexivity].
      cbn. destruct (find_same_id_Some {| product_id := productId; product_fields := ∅ |}
                       prev it Hit) as [Hid _]. cbn in Hid.
      rewrite same_id_has_id, (proj2 (has_id_false _ _)) by congruence. reflexivity.
    + destruct (find (has_id productId) prev) as [it|] eqn:Hit.
      * apply find_app_Some, Hit.
      * rewrite find_app_None by exact Hit.
        rewrite (proj2 (has_id_false _ _)) by (cbn; congruence). reflexivity.
Qed.

Lemma getCartItem_after_addToCart_witness :
  getCartItem (JNum 7)
    (addToCart (Product (JNum 7) ∅) [Item (JNum 3) ∅ 2; Item (JNum 7) ∅ 4])
  = Some (Item (JNum 7) ∅ 5).
Proof.
  refine (proj1 (getCartItem_after_addToCart (Product (JNum 7) ∅)
                   [Item (JNum 3) ∅ 2; Item (JNum 7) ∅ 4] _)).
  intros it [= <-]. unfold safe. simpl. lia.
Defined.

(** X7: adding a product that is not in the cart [n] times in a row, with
    [n] from 1 to [2^53], leaves one entry for it whose quantity is [n]:
    every one of the increments is on a quantity in the range where the sum
    of the code is exact. *)
Theorem addToCart_n_times pr prev (n : nat) :
  product_id pr ∉ ids prev -> (1 <= n)%nat -> Z.of_nat n <= 2 ^ 53 ->
  getCartItem (product_id pr) (Nat.iter n (addToCart pr) prev)
  = Some (Item (product_id pr) (product_fields pr) (Z.of_nat n)) /\
  (forall m, (1 <= m < n)%nat ->
     getCartItem (product_id pr) (Nat.iter m (addToCart pr) prev)
     = Some (Item (product_id pr) (product_fields pr) (Z.of_nat m)) /\
     safe (Z.of_nat m)).
Proof.
  intros Hnot Hn Hbound.
  assert (H : forall k, (1 <= k)%nat ->
            getCartItem (product_id pr) (Nat.iter k (addToCart pr) prev)
            = Some (Item (product_id pr) (product_fields pr) (Z.of_nat k))).
  { intros k Hk. destruct k as [|k]; [lia|]. clear Hk.
    induction k as [|k IH].
    - change (Nat.iter 1 (addToCart pr) prev) with (addToCart pr prev).
      rewrite getCartItem_addToCart.
      unfold getCartItem. change (has_id (product_id pr)) with (same_id pr).
      rewrite (proj2 (find_same_id_None pr prev) Hnot). reflexivity.
    - change (Nat.iter (S (S k)) (addToCart pr) prev)
        with (addToCart pr (Nat.iter (S k) (addToCart pr) prev)).
      rewrite getCartItem_addToCart.
      rewrite IH. cbn [id fields quantity]. do 2 f_equal. lia. }
  split; [apply H, Hn|].
  intros m Hm. split; [apply H; lia|]. unfold safe. lia.
Qed.

Lemma addToCart_n_times_witness :
  getCartItem (JNum 7) (Nat.iter 3 (addToCart (Product (JNum 7) ∅)) [Item (JNum 3) ∅ 2])
  = Some (Item (JNum 7) ∅ 3).
Proof.
  refine (proj1 (addToCart_n_times (Product (JNum 7) ∅) [Item (JNum 3) ∅ 2] 3 _ _ _)).
  - intros H. apply list_elem_of_singleton in H. discriminate H.
  - lia.
  - simpl. lia.
Defined.

End CartMore.

(** ** Cart: the item count and the cart invariant *)

Section CartInvariant.
Import Cart CartContext.

Implicit Types (pr : product) (prev items : list item) (it : item)
  (productId : jsval).

Lemma itemCount_acc items (a : Z) :
  fold_left (fun sum it => sum + quantity it) items a = a + itemCount items.
Proof.
  assert (H : forall l (a b : Z),
             fold_left (fun sum it => sum + quantity it) l (a + b)
             = a + fold_left (fun sum it => sum + quantity it) l b).
  { induction l as [|x l IH]; intros c b; cbn [fold_left]; [reflexivity|].
    rewrite <- IH. f_equal. lia. }
  unfold itemCount. rewrite <- H. f_equal. lia.
Qed.

Lemma itemCount_cons it items : itemCount (it :: items) = quantity it + itemCount items.
Proof. unfold itemCount at 1. cbn. apply itemCount_acc. Qed.

Lemma itemCount_app items items' :
  itemCount (items ++ items') = itemCount items + itemCount items'.
Proof.
  induction items as [|x l IH]; [reflexivity|].
  cbn [app]. rewrite !itemCount_cons, IH. lia.
Qed.

Lemma itemCount_insert items i it x :
  items !! i = Some it ->
  itemCount (<[i := x]> items) = itemCount items - quantity it + quantity x.
Proof.
  revert i. induction items as [|y l IH]; intros i Hi; [discriminate|].
  destruct i as [|i]; cbn in Hi.
  - injection Hi as ->. change (<[0%nat := x]> (it :: l)) with (x :: l).
    rewrite !itemCount_cons. lia.
  - change (<[S i := x]> (y :: l)) with (y :: <[i := x]> l).
    rewrite !itemCount_cons, (IH i Hi). lia.
Qed.

Lemma itemCount_delete items i it :
  items !! i = Some it -> itemCount (delete i items) = itemCount items - quantity it.
Proof.
  revert i. induction items as [|y l IH]; intros i Hi; [discriminate|].
  destruct i as [|i]; cbn in Hi.
  - injection Hi as ->. change (delete 0%nat (it :: l)) with l.
    rewrite itemCount_cons. lia.
  - change (delete (S i) (y :: l)) with (y :: delete i l).
    rewrite !itemCount_cons, (IH i Hi). lia.
Qed.

Lemma isInCart_ids productId items :
  isInCart productId items = true <-> productId ∈ ids items.
Proof.
  unfold isInCart, ids. rewrite existsb_exists, list_elem_of_In, in_map_iff.
  split; intros (x & H1 & H2); exists x.
  - apply has_id_true in H2. split; [exact H2|exact H1].
  - split; [exact H2|apply has_id_true, H1].
Qed.

Lemma NoDup_addToCart pr prev : NoDup (ids prev) -> NoDup (ids (addToCart pr prev)).
Proof.
  intros Hnd. unfold addToCart. destruct (find (same_id pr) prev) eqn:Hfind.
  - rewrite ids_bump. exact Hnd.
  - apply find_same_id_None in Hfind. unfold ids. rewrite map_app. cbn.
    apply NoDup_app. split; [exact Hnd|]. split; [|apply NoDup_singleton].
    intros x Hx Hx'. apply list_elem_of_singleton in Hx'. subst x. exact (Hfind Hx).
Qed.

Lemma itemCount_nonneg items :
  Forall (fun it => 0 <= quantity it) items -> 0 <= itemCount items.
Proof.
  induction 1 as [|x l Hx Hl IH]; [reflexivity|]. rewrite itemCount_cons. lia.
Qed.

(** In a cart without negative quantities no quantity exceeds the count. *)
Lemma quantity_le_itemCount items it :
  Forall (fun it => 0 <= quantity it) items -> it ∈ items ->
  quantity it <= itemCount items.
Proof.
  induction 1 as [|x l Hx Hl IH]; intros Hin; [by apply elem_of_nil in Hin|].
  rewrite itemCount_cons. pose proof (itemCount_nonneg l Hl).
  apply elem_of_cons in Hin as [->|Hin]; [lia|]. specialize (IH Hin). lia.
Qed.

Lemma nonneg_addToCart pr prev :
  Forall (fun it => 0 <= quantity it) prev ->
  Forall (fun it => 0 <= quantity it) (addToCart pr prev).
Proof.
  intros Hall. unfold addToCart. destruct (find (same_id pr) prev).
  - apply Forall_forall. intros x Hx.
    apply list_elem_of_In, in_map_iff in Hx as (y & <- & Hy).
    pose proof (proj1 (Forall_forall _ _) Hall y (proj2 (list_elem_of_In _ _) Hy)) as H.
    cbn beta in H. destruct (same_id pr y); cbn; lia.
  - apply Forall_app. split; [exact Hall|]. apply Forall_singleton. cbn. lia.
Qed.

(** X8: on a cart with unique ids whose count the code computes exactly
    ([countable]: no negative quantity, count below [2^53]), [addToCart]
    raises the item count (the sum of the quantities, the number of the
    cart badge) by exactly one, whether the product was in the cart or not;
    the new count is at most [2^53] and no quantity is negative, so every
    sum on the way is exact. *)
Theorem addToCart_counts_one pr prev :
  NoDup (ids prev) -> countable prev ->
  itemCount (addToCart pr prev) = itemCount prev + 1 /\
  itemCount (addToCart pr prev) <= 2 ^ 53 /\
  Forall (fun it => 0 <= quantity it) (addToCart pr prev) /\
  (forall it, it ∈ prev -> safe (quantity it)).
Proof.
  intros Hnd [Hpos Hlt].
  assert (Hcount : itemCount (addToCart pr prev) = itemCount prev + 1).
  { unfold addToCart. destruct (find (same_id pr) prev) as [existing|] eqn:Hfind.
    - destruct (find_same_id_Some _ _ _ Hfind) as [Hid Hin].
      apply list_elem_of_lookup in Hin as [i Hi].
      rewrite (map_bump_insert pr prev Hnd i existing Hi Hid).
      rewrite (itemCount_insert _ _ _ _ Hi). cbn. lia.
    - rewrite itemCount_app, itemCount_cons. cbn. lia. }
  split; [exact Hcount|]. split; [lia|]. split; [apply nonneg_addToCart, Hpos|].
  intros it Hin. pose proof (quantity_le_itemCount prev it Hpos Hin).
  pose proof (proj1 (Forall_forall _ _) Hpos it Hin) as H0. cbn beta in H0.
  unfold safe. lia.
Qed.

Lemma addToCart_counts_one_witness :
  itemCount (addToCart (Product (JNum 7) ∅) [Item (JNum 3) ∅ 2; Item (JNum 7) ∅ 1])
  = itemCount [Item (JNum 3) ∅ 2; Item (JNum 7) ∅ 1] + 1.
Proof.
  refine (proj1 (addToCart_counts_one (Product (JNum 7) ∅)
                   [Item (JNum 3) ∅ 2; Item (JNum 7) ∅ 1] _ _)).
  - apply NoDup_cons. split; [|apply NoDup_singleton].
    intros H. apply list_elem_of_singleton in H. discriminate H.
  - split; [repeat constructor; cbn; lia|]. cbn. lia.
Defined.

Lemma well_formed_removeFromCart productId prev :
  well_formed prev -> well_formed (removeFromCart productId prev).
Proof.
  intros [Hnd Hq]. split; [apply NoDup_removeFromCart, Hnd|].
  apply Forall_forall. intros x Hx. apply elem_of_removeFromCart in Hx as [Hx _].
  exact (proj1 (Forall_forall _ _) Hq x Hx).
Qed.

Lemma well_formed_updateQuantity productId (q : Z) prev :
  well_formed prev -> well_formed (updateQuantity productId q prev).
Proof.
  intros Hwf. destruct (Z_le_gt_dec q 0) as [Hq|Hq].
  - unfold updateQuantity. rewrite (proj2 (Z.leb_le q 0) Hq).
    apply well_formed_removeFromCart, Hwf.
  - destruct Hwf as [Hnd Hall]. split; [rewrite ids_updateQuantity by lia; exact Hnd|].
    unfold updateQuantity. rewrite (proj2 (Z.leb_gt q 0)) by lia.
    apply Forall_forall. intros x Hx.
    apply list_elem_of_In, in_map_iff in Hx as (y & <- & Hy).
    destruct (has_id productId y); cbn; [lia|].
    apply (proj1 (Forall_forall _ _) Hall y), list_elem_of_In, Hy.
Qed.

Lemma well_formed_addToCart pr prev :
  well_formed prev -> well_formed (addToCart pr prev).
Proof.
  intros [Hnd Hall]. split; [apply NoDup_addToCart, Hnd|].
  unfold addToCart. destruct (find (same_id pr) prev).
  - apply Forall_forall. intros x Hx.
    apply list_elem_of_In, in_map_iff in Hx as (y & <- & Hy).
    pose proof (proj1 (Forall_forall _ _) Hall y (proj2 (list_elem_of_In _ _) Hy)) as H.
    cbn beta in H. destruct (same_id pr y); cbn; lia.
  - apply Forall_app. split; [exact Hall|]. apply Forall_singleton. cbn. lia.
Qed.

(** X9: in a cart in order (unique ids, every quantity at least one) whose
    count is below [2^53], so that the quantities and the sums of the code
    are exact, the plus button of a row raises the item count by one and the
    minus button lowers it by one; the minus button on a row with quantity 1
    removes the row, on any other row it keeps it; and the cart stays in
    order. *)
Theorem quantity_buttons_step_by_one it prev :
  well_formed prev -> it ∈ prev -> itemCount prev < 2 ^ 53 ->
  safe (quantity it) /\
  itemCount (plusButton it prev) = itemCount prev + 1 /\
  itemCount (minusButton it prev) = itemCount prev - 1 /\
  isInCart (id it) (plusButton it prev) = true /\
  isInCart (id it) (minusButton it prev) = negb (quantity it =? 1) /\
  well_formed (plusButton it prev) /\
  well_formed (minusButton it prev).
Proof.
  intros Hwf Hin Hlt. pose proof Hwf as [Hnd Hall].
  pose proof (proj1 (Forall_forall _ _) Hall it Hin) as Hq. cbn beta in Hq.
  assert (Hpos : Forall (fun it => 0 <= quantity it) prev).
  { eapply Forall_impl; [exact Hall|]. cbn. intros; lia. }
  pose proof (quantity_le_itemCount prev it Hpos Hin) as Hle.
  pose proof Hin as Hin'. apply list_elem_of_lookup in Hin' as [i Hi].
  assert (Hid : id it ∈ ids prev) by (apply list_elem_of_fmap_2, Hin).
  unfold plusButton, minusButton.
  split; [unfold safe; lia|].
  split; [|split; [|split; [|split; [|split]]]].
  - rewrite (updateQuantity_insert (id it) (quantity it + 1) prev ltac:(lia)
               Hnd i it Hi eq_refl).
    rewrite (itemCount_insert _ _ _ _ Hi). cbn. lia.
  - destruct (Z.eq_dec (quantity it) 1) as [H1|H1].
    + rewrite H1. change (1 - 1) with 0. unfold updateQuantity.
      change (0 <=? 0) with true. cbv iota.
      rewrite (removeFromCart_delete _ _ i it Hnd Hi eq_refl).
      rewrite (itemCount_delete _ _ _ Hi). lia.
    + rewrite (updateQuantity_insert (id it) (quantity it - 1) prev ltac:(lia)
                 Hnd i it Hi eq_refl).
      rewrite (itemCount_insert _ _ _ _ Hi). cbn. lia.
  - apply isInCart_ids. rewrite ids_updateQuantity by lia. exact Hid.
  - destruct (Z.eqb_spec (quantity it) 1) as [H1|H1]; cbn.
    + rewrite H1. change (1 - 1) with 0. unfold updateQuantity.
      change (0 <=? 0) with true. cbv iota.
      destruct (isInCart (id it) (removeFromCart (id it) prev)) eqn:Hc; [|reflexivity].
      apply isInCart_ids in Hc. rewrite ids_removeFromCart in Hc.
      apply list_elem_of_In, filter_In in Hc as [_ Hc].
      rewrite bool_decide_eq_true_2 in Hc by reflexivity. discriminate Hc.
    + apply isInCart_ids. rewrite ids_updateQuantity by lia. exact Hid.
  - apply well_formed_updateQuantity, Hwf.
  - apply well_formed_updateQuantity, Hwf.
Qed.

Lemma quantity_buttons_step_by_one_witness :
  itemCount (plusButton (Item (JNum 7) ∅ 1) [Item (JNum 3) ∅ 2; Item (JNum 7) ∅ 1])
  = itemCount [Item (JNum 3) ∅ 2; Item (JNum 7) ∅ 1] + 1 /\
  itemCount (minusButton (Item (JNum 7) ∅ 1) [Item (JNum 3) ∅ 2; Item (JNum 7) ∅ 1])
  = itemCount [Item (JNum 3) ∅ 2; Item (JNum 7) ∅ 1] - 1.
Proof.
  assert (H : well_formed [Item (JNum 3) ∅ 2; Item (JNum 7) ∅ 1]).
  { split.
    - apply NoDup_cons. split; [|apply NoDup_singleton].
      intros H. apply list_elem_of_singleton in H. discriminate H.
    - repeat constructor; cbn; lia. }
  assert (Hin : Item (JNum 7) ∅ 1 ∈ [Item (JNum 3) ∅ 2; Item (JNum 7) ∅ 1])
    by (right; left).
  assert (Hlt : itemCount [Item (JNum 3) ∅ 2; Item (JNum 7) ∅ 1] < 2 ^ 53)
    by (cbn; lia).
  destruct (quantity_buttons_step_by_one _ _ H Hin Hlt) as (_ & H1 & H2 & _).
  split; [exact H1|exact H2].
Defined.

(** X10: whatever sequence of cart operations is applied ([addToCart],
    [removeFromCart], [updateQuantity] with any quantity, [clearCart]), a
    cart in order stays in order: no two entries share an id, and no entry
    has a quantity below one. *)
Theorem cart_stays_well_formed (ops : list operation) items :
  well_formed items -> well_formed (applyAll items ops).
Proof.
  unfold applyAll. revert items. induction ops as [|op ops IH]; intros items Hwf.
  - exact Hwf.
  - cbn [fold_left]. apply IH. destruct op as [pr|productId|productId q|]; cbn.
    + apply well_formed_addToCart, Hwf.
    + apply well_formed_removeFromCart, Hwf.
    + apply well_formed_updateQuantity, Hwf.
    + split; [apply NoDup_nil_2|apply Forall_nil_2].
Qed.

Lemma cart_stays_well_formed_witness :
  well_formed (applyAll [] [AddToCart (Product (JNum 7) ∅);
                            AddToCart (Product (JNum 7) ∅);
                            UpdateQuantity (JNum 7) (-3);
                            AddToCart (Product (JNum 3) ∅)]).
Proof.
  apply (cart_stays_well_formed _ []).
  split; [apply NoDup_nil_2|apply Forall_nil_2].
Defined.

End CartInvariant.

(** ** The product page: the request, the filters, the comparison list *)

Section PageMore.
Import Cart Page ProductsPage.

Implicit Types (p : Products) (pr : product) (k : string) (v : jsval).

Lemma elem_of_appendIf (c : bool) k v (params : list (string * jsval)) x :
  x ∈ appendIf c k v params <-> x ∈ params \/ (c = true /\ x = (k, v)).
Proof.
  unfold appendIf. destruct c.
  - rewrite elem_of_app, list_elem_of_singleton. intuition.
  - intuition discriminate.
Qed.

Lemma sortBy_active p :
  negb (bool_decide (sortBy p = JStr "relevance")) = true
  <-> sortBy p <> JStr "relevance".
Proof. rewrite negb_true_iff. apply bool_decide_eq_false. Qed.

(** What the request carries under a key: the value of the key's cell, when
    it is truthy (for the sort order: when it is not ["relevance"]). *)
Lemma elem_of_queryParams p k v :
  (k, v) ∈ queryParams p <->
  k ∈ filterKeys /\ filterCell k p = Some v /\
  (if String.eqb k "sort_by" then v <> JStr "relevance" else truthy v = true).
Proof.
  unfold queryParams. cbv zeta. rewrite !elem_of_appendIf. split.
  - intros [[[[[[H|[Hc H]]|[Hc H]]|[Hc H]]|[Hc H]]|[Hc H]]|[Hc H]];
      [by apply elem_of_nil in H|..];
      injection H as -> ->; (split; [unfold filterKeys; set_solver|]);
      (split; [reflexivity|]); cbn; try exact Hc.
    apply sortBy_active, Hc.
  - intros (Hk & Hcell & Hv). unfold filterKeys in Hk.
    repeat (apply elem_of_cons in Hk as [->|Hk]); [..|by apply elem_of_nil in Hk];
      cbn in Hcell, Hv; injection Hcell as <-.
    + do 4 left. right. split; [exact Hv|reflexivity].
    + do 3 left. right. split; [exact Hv|reflexivity].
    + do 2 left. right. split; [exact Hv|reflexivity].
    + do 1 left. right. split; [exact Hv|reflexivity].
    + right. split; [apply sortBy_active, Hv|reflexivity].
    + do 5 left. right. split; [exact Hv|reflexivity].
Qed.

Lemma queryParams_keys p :
  sublist (queryParams p).*1
          ["query"; "category"; "brand"; "min_price"; "max_price"; "sort_by"].
Proof.
  unfold queryParams, appendIf. cbv zeta.
  destruct (truthy (searchQuery p)), (truthy (selectedCategory p)),
    (truthy (selectedBrand p)), (truthy (min (priceRange p))),
    (truthy (max (priceRange p))),
    (negb (bool_decide (sortBy p = JStr "relevance")));
    cbn; repeat first [apply sublist_nil | apply sublist_skip | apply sublist_cons].
Qed.

(** X11: the request of [fetchProducts] carries under each key exactly the
    value of that key's filter cell, when the value is truthy (for the sort
    order: whenever it is not ["relevance"]); each key at most once, in the
    order query, category, brand, min_price, max_price, sort_by; and it
    carries no parameter at all exactly when [hasActiveFilters] is false. *)
Theorem request_carries_active_filters p :
  (forall k v, (k, v) ∈ queryParams p <->
     k ∈ filterKeys /\ filterCell k p = Some v /\
     (if String.eqb k "sort_by" then v <> JStr "relevance" else truthy v = true)) /\
  sublist (queryParams p).*1
          ["query"; "category"; "brand"; "min_price"; "max_price"; "sort_by"] /\
  (queryParams p = [] <-> hasActiveFilters p = false).
Proof.
  split; [intros k v; apply elem_of_queryParams|].
  split; [apply queryParams_keys|].
  unfold queryParams, hasActiveFilters, appendIf. cbv zeta.
  destruct (truthy (searchQuery p)), (truthy (selectedCategory p)),
    (truthy (selectedBrand p)), (truthy (min (priceRange p))),
    (truthy (max (priceRange p))),
    (negb (bool_decide (sortBy p = JStr "relevance")));
    cbn; split; first [discriminate | reflexivity].
Qed.

(** X12: a filter that a voice event provides with a truthy value is part
    of the next request of the page (a sort order when it is not
    ["relevance"]), whatever the page showed before; a key that the event
    does not provide is requested as before. *)
Theorem voice_filters_reach_request (filters : jsobj) p k v :
  k ∈ filterKeys -> filters !! k = Some v -> truthy v = true ->
  (k = "sort_by" -> v <> JStr "relevance") ->
  (k, v) ∈ queryParams (applyFilters filters p) /\
  (forall k' v', k' ∈ filterKeys -> filters !! k' = None ->
     ((k', v') ∈ queryParams (applyFilters filters p) <-> (k', v') ∈ queryParams p)).
Proof.
  intros Hk Hv Ht Hsort. split.
  - apply elem_of_queryParams. split; [exact Hk|].
    rewrite applyFilters_cells, Hv, Ht by exact Hk. split; [reflexivity|].
    destruct (String.eqb_spec k "sort_by") as [->|_]; [apply Hsort; reflexivity|reflexivity].
  - intros k' v' Hk' Hnone. rewrite !elem_of_queryParams.
    rewrite applyFilters_cells, Hnone by exact Hk'. reflexivity.
Qed.

Lemma voice_filters_reach_request_witness :
  ("category", JStr "mobiles")
  ∈ queryParams (applyFilters {["category" := JStr "mobiles"]}
                   (setSelectedCategory (JStr "laptops") initial)).
Proof.
  refine (proj1 (voice_filters_reach_request {["category" := JStr "mobiles"]}
                   (setSelectedCategory (JStr "laptops") initial)
                   "category" (JStr "mobiles") _ _ _ _)).
  - unfold filterKeys. left.
  - reflexivity.
  - reflexivity.
  - discriminate.
Defined.

(** X13: [clearFilters] leaves no active filter: the next request carries
    no parameter and [hasActiveFilters] is false; the products shown, the
    detail view and the comparison list are left as they are. *)
Theorem clearFilters_resets_request p :
  queryParams (clearFilters p) = [] /\
  hasActiveFilters (clearFilters p) = false /\
  (forall k, k ∈ filterKeys ->
     filterCell k (clearFilters p) = filterCell k initial) /\
  products (clearFilters p) = products p /\
  total (clearFilters p) = total p /\
  loading (clearFilters p) = loading p /\
  error (clearFilters p) = error p /\
  selectedProduct (clearFilters p) = selectedProduct p /\
  isModalOpen (clearFilters p) = isModalOpen p /\
  compareList (clearFilters p) = compareList p /\
  isCompareOpen (clearFilters p) = isCompareOpen p.
Proof.
  split; [reflexivity|]. split; [reflexivity|]. split; [|repeat split].
  intros k Hk. unfold filterKeys in Hk.
  repeat (apply elem_of_cons in Hk as [->|Hk]); [..|by apply elem_of_nil in Hk];
    reflexivity.
Qed.

(** *** The comparison list *)

Lemma isSelected_productIds pr (l : list product) :
  isSelected pr l = true <-> product_id pr ∈ productIds l.
Proof.
  unfold isSelected, productIds. rewrite existsb_exists, list_elem_of_In, in_map_iff.
  split; intros (x & H1 & H2); exists x.
  - apply bool_decide_eq_true in H2. split; [exact H2|exact H1].
  - split; [exact H2|apply bool_decide_eq_true, H1].
Qed.

Lemma isSelected_app pr (l l' : list product) :
  isSelected pr (l ++ l') = isSelected pr l || isSelected pr l'.
Proof. apply existsb_app. Qed.

Lemma isSelected_filter pr q (l : list product) :
  isSelected q (List.filter (fun x => negb (bool_decide (product_id x = product_id pr))) l)
  = isSelected q l && negb (bool_decide (product_id q = product_id pr)).
Proof.
  unfold isSelected. induction l as [|x l IH]; [reflexivity|]. cbn.
  destruct (bool_decide_reflect (product_id x = product_id pr)) as [Hx|Hx]; cbn;
    rewrite IH;
    destruct (bool_decide_reflect (product_id x = product_id q)) as [Hq|Hq]; cbn;
    try reflexivity.
  - rewrite bool_decide_eq_true_2 by congruence. cbn. apply andb_false_r.
  - rewrite bool_decide_eq_false_2 by congruence. reflexivity.
Qed.

Lemma filter_not_selected pr (l : list product) :
  isSelected pr l = false ->
  List.filter (fun x => negb (bool_decide (product_id x = product_id pr))) l = l.
Proof.
  unfold isSelected. induction l as [|x l IH]; [reflexivity|]. cbn.
  destruct (bool_decide (product_id x = product_id pr)); cbn; [discriminate|].
  intros H. f_equal. apply IH, H.
Qed.

Lemma NoDup_productIds_filter (f : product -> bool) (l : list product) :
  NoDup (productIds l) -> NoDup (productIds (List.filter f l)).
Proof.
  unfold productIds. induction l as [|x l IH]; [intros; constructor|].
  cbn. intros Hnd. apply NoDup_cons in Hnd as [Hx Hnd].
  destruct (f x); cbn; [|apply IH, Hnd].
  apply NoDup_cons. split; [|apply IH, Hnd].
  intros Hin. apply Hx. apply list_elem_of_In in Hin.
  apply in_map_iff in Hin as (y & Hy & Hin).
  apply filter_In in Hin as [Hin _]. apply list_elem_of_In, in_map_iff. eauto.
Qed.

(** X14: [handleCompareToggle] on a comparison list of at most four
    products with unique ids gives such a list again.  The product is
    selected afterwards exactly when it was not selected before and there
    was room for it; no other product's selection changes; and toggling a
    product that was not selected twice gives the list back. *)
Theorem compare_toggle_keeps_list_in_bounds pr p :
  (length (compareList p) <= 4)%nat -> NoDup (productIds (compareList p)) ->
  let p' := handleCompareToggle pr p in
  (length (compareList p') <= 4)%nat /\
  NoDup (productIds (compareList p')) /\
  isSelected pr (compareList p')
    = negb (isSelected pr (compareList p)) && (length (compareList p) <? 4)%nat /\
  (forall q, product_id q <> product_id pr ->
     isSelected q (compareList p') = isSelected q (compareList p)) /\
  (isSelected pr (compareList p) = false ->
     compareList (handleCompareToggle pr p') = compareList p).
Proof.
  intros Hlen Hnd. cbv zeta. unfold handleCompareToggle. cbn [compareList setCompareList].
  destruct (isSelected pr (compareList p)) eqn:Hsel.
  - split; [|split; [|split; [|split]]].
    + etransitivity; [apply List.filter_length_le|exact Hlen].
    + apply NoDup_productIds_filter, Hnd.
    + rewrite isSelected_filter, bool_decide_eq_true_2 by reflexivity.
      rewrite andb_false_r. reflexivity.
    + intros q Hq. rewrite isSelected_filter, bool_decide_eq_false_2 by exact Hq.
      apply andb_true_r.
    + discriminate.
  - destruct (Nat.leb_spec 4 (length (compareList p))) as [Hfull|Hroom].
    + replace (length (compareList p) <? 4)%nat with false
        by (symmetry; apply Nat.ltb_ge, Hfull).
      rewrite Hsel. split; [exact Hlen|]. split; [exact Hnd|]. split; [reflexivity|].
      split; [reflexivity|]. intros _.
      destruct (Nat.leb_spec 4 (length (compareList p))); [reflexivity|lia].
    + replace (length (compareList p) <? 4)%nat with true
        by (symmetry; apply Nat.ltb_lt, Hroom).
      split; [rewrite length_app; cbn; lia|]. split; [|split; [|split]].
      * unfold productIds. rewrite map_app. cbn. apply NoDup_app.
        split; [exact Hnd|]. split; [|apply NoDup_singleton].
        intros x Hx Hx'. apply list_elem_of_singleton in Hx'. subst x.
        apply isSelected_productIds in Hx. congruence.
      * rewrite isSelected_app, Hsel. cbn.
        rewrite bool_decide_eq_true_2 by reflexivity. reflexivity.
      * intros q Hq. rewrite isSelected_app. cbn.
        rewrite bool_decide_eq_false_2 by congruence.
        rewrite !orb_false_r. reflexivity.
      * intros _. rewrite isSelected_app. cbn.
        rewrite bool_decide_eq_true_2 by reflexivity. rewrite orb_true_r.
        rewrite List.filter_app. cbn. rewrite bool_decide_eq_true_2 by reflexivity.
        cbn. rewrite app_nil_r. apply filter_not_selected, Hsel.
Qed.

Lemma compare_toggle_keeps_list_in_bounds_witness :
  (length (compareList (handleCompareToggle (Product (JNum 1) ∅) initial)) <= 4)%nat.
Proof.
  apply (compare_toggle_keeps_list_in_bounds (Product (JNum 1) ∅) initial).
  - cbn. lia.
  - apply NoDup_nil_2.
Defined.

End PageMore.

(** ** The UI synchronization layer over runs *)

Section SyncMore.
Import Cart Voice.

Implicit Types (w : World) (e : event) (event : UIUpdate) (events : list event).

(** The world in which [handleUIUpdate] looks at the action: the navigation
    has been asked for. *)
Lemma handleUIUpdate_show event w :
  action event = "SHOW_PRODUCTS" ->
  handleUIUpdate event w
  = showProducts event
      (match navigate_to event with
       | Some to => if truthy to then navigate to w else w
       | None => w
       end).
Proof. intros Hact. unfold handleUIUpdate. rewrite Hact. reflexivity. Qed.

Lemma showProducts_state event w ps :
  products_of event = Some ps ->
  lastProducts (state (showProducts event w)) = ps /\
  lastFilters (state (showProducts event w)) = filters_or_empty event /\
  cart (showProducts event w) = cart w.
Proof.
  intros Hps. unfold showProducts. rewrite Hps. cbv zeta.
  repeat case_match; repeat split; reflexivity.
Qed.

(** *** The callbacks of the product page *)

Lemma callbacks_ui w w' : View.ui w' = View.ui w -> Watch.callbacks w' = Watch.callbacks w.
Proof. unfold View.ui, Watch.callbacks. intros [= _ _ -> -> -> -> -> _ _ _ _ _ _ _]. reflexivity. Qed.

Lemma callbacks_handleUIUpdate event w :
  Watch.callbacks (handleUIUpdate event w) = Watch.callbacks w.
Proof. unfold handleUIUpdate, showProducts. handler. Qed.

(** No event but the mount of the product page writes a callback ref. *)
Lemma callbacks_step w e :
  Watch.not_mount e -> Watch.callbacks (step w e) = Watch.callbacks w.
Proof.
  intros Hne. destruct (View.drives_ui e) eqn:He.
  - destruct e as [| | | | | |i|i|i|m| |f|p input|c st| | | | | | | |i r|pr];
      try discriminate He; cbn [step].
    + destruct m; try discriminate He. apply callbacks_handleUIUpdate.
    + handler.
    + exfalso. apply Hne. reflexivity.
    + reflexivity.
    + unfold refreshEffect, fetchProducts. handler.
    + unfold tryAgain, fetchProducts. handler.
    + unfold fetchSettled. handler.
    + reflexivity.
  - apply callbacks_ui, ui_step, He.
Qed.

Lemma callbacks_mount w :
  Watch.callbacks (mount w) = (true, true, true, true, true).
Proof.
  unfold mount, refreshEffect, voiceEffect, fetchProducts,
    consumePendingVoiceData, isVoiceUpdateInProgress. handler.
Qed.

(** A callback ref that is set stays set. *)
Lemma onAddToCartRef_step w e :
  onAddToCartRef (refs w) = true -> onAddToCartRef (refs (step w e)) = true.
Proof.
  intros Hset. destruct e as [| | | | | |i|i|i|m| |f|p input|c st| | | | |
                              | | |i r|pr] eqn:He.
  18:{ cbn [step]. destruct (page w); [exact Hset|].
       pose proof (callbacks_mount w) as H. unfold Watch.callbacks in H.
       injection H as _ _ _ _ H. exact H. }
  all: rewrite <- He;
    assert (Hnm : Watch.not_mount e) by (subst e; discriminate);
    pose proof (callbacks_step w e Hnm) as H; unfold Watch.callbacks in H;
    injection H as _ _ _ _ H; rewrite H; exact Hset.
Qed.

Lemma onAddToCartRef_run events :
  forall w, onAddToCartRef (refs w) = true ->
            onAddToCartRef (refs (run w events)) = true.
Proof.
  induction events as [|e events IH]; intros w Hset; [exact Hset|].
  cbn. apply IH, onAddToCartRef_step, Hset.
Qed.

(** *** The cart as the world sees it *)

Lemma cart_ui w w' : View.ui w' = View.ui w -> cart w' = cart w.
Proof. unfold View.ui. intros [= _ _ _ _ _ _ _ _ _ _ H _ _ _]. exact H. Qed.

Lemma cart_handleUIUpdate event w :
  cart (handleUIUpdate event w)
  = if String.eqb (action event) "ADD_TO_CART"
    then match product_of event with
         | Some pr => if onAddToCartRef (refs w) then addToCart pr (cart w) else cart w
         | None => cart w
         end
    else cart w.
Proof.
  unfold handleUIUpdate. cbv zeta.
  set (w0 := match navigate_to event with
             | Some to => if truthy to then navigate to w else w
             | None => w
             end).
  assert (Hc : cart w0 = cart w) by (unfold w0; repeat case_match; reflexivity).
  assert (Hr : refs w0 = refs w) by (unfold w0; repeat case_match; reflexivity).
  rewrite <- Hc, <- Hr. clearbody w0.
  destruct (String.eqb_spec (action event) "SHOW_PRODUCTS") as [Hs|_].
  { rewrite Hs. cbn. unfold showProducts. handler. }
  destruct (String.eqb_spec (action event) "SHOW_PRODUCT_DETAILS") as [Hs|_].
  { rewrite Hs. cbn. handler. }
  destruct (String.eqb_spec (action event) "COMPARE_PRODUCTS") as [Hs|_].
  { rewrite Hs. cbn. handler. }
  handler.
Qed.

(** The cart changes on no event but an ADD_TO_CART with the callback
    registered, and then by [addToCart]. *)
Lemma cart_step w e :
  cart (step w e) = cart w \/
  (onAddToCartRef (refs w) = true /\ exists pr, cart (step w e) = addToCart pr (cart w)).
Proof.
  destruct (View.drives_ui e) eqn:He.
  - destruct e as [| | | | | |i|i|i|m| |f|p input|c st| | | | | | | |i r|pr];
      try discriminate He; cbn [step].
    + destruct m as [t|t|ev| |err|ty]; try discriminate He.
      cbn [handleWebSocketEvent]. rewrite cart_handleUIUpdate.
      destruct (String.eqb (action ev) "ADD_TO_CART"); [|left; reflexivity].
      destruct (product_of ev) as [pr|]; [|left; reflexivity].
      destruct (onAddToCartRef (refs w)); [|left; reflexivity].
      right. split; [reflexivity|]. exists pr. reflexivity.
    + left. handler.
    + left. destruct (page w); [reflexivity|].
      unfold mount, refreshEffect, voiceEffect, fetchProducts,
        consumePendingVoiceData, isVoiceUpdateInProgress. handler.
    + left. reflexivity.
    + left. unfold refreshEffect, fetchProducts. handler.
    + left. unfold tryAgain, fetchProducts. handler.
    + left. unfold fetchSettled. handler.
    + left. reflexivity.
  - left. apply cart_ui, ui_step, He.
Qed.

(** X15: the ADD_TO_CART callback is registered by the product page only.
    In a run without a mount of the product page that starts with the
    callback unset (as in the initial state), the cart is at the end what it
    was at the start and the callback is still unset: every voice
    ADD_TO_CART of the run is dropped. *)
Theorem voice_add_to_cart_needs_a_visit w events :
  onAddToCartRef (refs w) = false -> Forall Watch.not_mount events ->
  cart (run w events) = cart w /\ onAddToCartRef (refs (run w events)) = false.
Proof.
  revert w. induction events as [|e events IH]; intros w Hoff Hev; [split; [reflexivity|exact Hoff]|].
  apply Forall_cons in Hev as [He Hev]. cbn [run fold_left].
  assert (Hoff' : onAddToCartRef (refs (step w e)) = false).
  { pose proof (callbacks_step w e He) as H. unfold Watch.callbacks in H.
    injection H as _ _ _ _ H. rewrite H. exact Hoff. }
  destruct (IH (step w e) Hoff' Hev) as [Hc Hr]. fold (run (step w e) events).
  split; [|exact Hr]. rewrite Hc.
  destruct (cart_step w e) as [H|[Hon _]]; [exact H|congruence].
Qed.

Lemma voice_add_to_cart_needs_a_visit_witness :
  cart (run initial
          [ToggleVoice; MicGranted; WsOpen 0;
           WsMessage (ui_update {| action := "ADD_TO_CART"; navigate_to := None;
                                   data := Some {| data_products := None;
                                                   data_product := Some Scenario.P1;
                                                   data_total := None |};
                                   filters := None |})])
  = [].
Proof.
  refine (proj1 (voice_add_to_cart_needs_a_visit initial _ eq_refl _)).
  repeat (apply List.Forall_cons; [discriminate|]). apply List.Forall_nil.
Defined.

(** X16: once the product page has mounted, the ADD_TO_CART callback stays
    registered whatever happens afterwards, also when the page has
    unmounted: a voice ADD_TO_CART that carries a product then adds it to
    the cart with [addToCart], on every route. *)
Theorem voice_add_to_cart_after_a_visit w events event (pr : product) :
  page w = None ->
  action event = "ADD_TO_CART" -> product_of event = Some pr ->
  let w' := run (step w PageMount) events in
  onAddToCartRef (refs w') = true /\
  cart (step w' (WsMessage (ui_update event))) = addToCart pr (cart w').
Proof.
  intros Hpage Hact Hpr. cbv zeta.
  assert (Hon : onAddToCartRef (refs (run (step w PageMount) events)) = true).
  { apply onAddToCartRef_run. cbn [step]. rewrite Hpage.
    pose proof (callbacks_mount w) as H. unfold Watch.callbacks in H.
    injection H as _ _ _ _ H. exact H. }
  split; [exact Hon|]. set (w' := run (step w PageMount) events) in *.
  change (step w' (WsMessage (ui_update event))) with (handleUIUpdate event w').
  rewrite cart_handleUIUpdate, Hact, Hpr, Hon. reflexivity.
Qed.

Lemma voice_add_to_cart_after_a_visit_witness :
  cart (run initial
          [PageMount; PageUnmount;
           WsMessage (ui_update {| action := "ADD_TO_CART"; navigate_to := None;
                                   data := Some {| data_products := None;
                                                   data_product := Some Scenario.P1;
                                                   data_total := None |};
                                   filters := None |})])
  = addToCart Scenario.P1 [].
Proof.
  exact (proj2 (voice_add_to_cart_after_a_visit initial [PageUnmount]
                  {| action := "ADD_TO_CART"; navigate_to := None;
                     data := Some {| data_products := None;
                                     data_product := Some Scenario.P1;
                                     data_total := None |};
                     filters := None |} Scenario.P1 eq_refl eq_refl eq_refl)).
Defined.

(** X17: over every run of the voice layer and the product page, where the
    cart is written by voice ADD_TO_CART events only, a cart in order stays
    in order: no two entries share an id and every quantity is at least
    one. *)
Theorem cart_in_order_over_runs w events :
  CartContext.well_formed (cart w) -> CartContext.well_formed (cart (run w events)).
Proof.
  revert w. induction events as [|e events IH]; intros w Hwf; [exact Hwf|].
  cbn [run fold_left]. apply IH.
  destruct (cart_step w e) as [->|[_ [pr ->]]]; [exact Hwf|].
  apply well_formed_addToCart, Hwf.
Qed.

Lemma cart_in_order_over_runs_witness :
  let add pr := WsMessage (ui_update
                  {| action := "ADD_TO_CART"; navigate_to := None;
                     data := Some {| data_products := None; data_product := Some pr;
                                     data_total := None |};
                     filters := None |}) in
  let w := run initial [PageMount; add Scenario.P1] in
  let events := [add Scenario.P1; PageUnmount; add Scenario.Q1; add Scenario.P1] in
  cart w = [Item (JNum 1) {["name" := JStr "Phone"]} 1] /\
  cart (run w events)
  = [Item (JNum 1) {["name" := JStr "Phone"]} 3;
     Item (JNum 9) {["name" := JStr "Cable"]} 1] /\
  CartContext.well_formed (cart (run w events)).
Proof.
  cbv zeta. split; [reflexivity|]. split; [reflexivity|].
  apply cart_in_order_over_runs.
  change (CartContext.well_formed [Item (JNum 1) {["name" := JStr "Phone"]} 1]).
  split.
  - apply NoDup_singleton.
  - apply Forall_singleton. simpl. lia.
Defined.

End SyncMore.

(** ** The in-flight window and the pending slot over runs *)

Section WindowMore.
Import Cart Voice.

Implicit Types (w : World) (e : event) (event : UIUpdate) (events : list event).

(** What the mount of the product page does, by the flag and the pending
    slot that it finds. *)
Lemma mount_spec w :
  page (mount w)
  = Some (if voiceUpdateFlagRef (refs w)
          then match pendingVoiceUpdateRef (refs w) with
               | Some d =>
                   Page.applyFilters (pending_filters d)
                     (Page.setLoading false
                        (Page.setTotal (pending_total d)
                           (Page.setProducts (pending_products d) Page.initial)))
               | None => Page.initial
               end
          else Page.fetchProducts_issue Page.initial) /\
  requests (browser (mount w))
  = (if voiceUpdateFlagRef (refs w) then requests (browser w)
     else requests (browser w) ++ [[]]) /\
  state (mount w) = state w /\
  flagTimers (browser (mount w)) = flagTimers (browser w).
Proof.
  unfold mount, refreshEffect, voiceEffect, fetchProducts,
    consumePendingVoiceData, isVoiceUpdateInProgress. cbn.
  destruct (pendingVoiceUpdateRef (refs w)) as [d|],
    (voiceUpdateFlagRef (refs w)) eqn:Hflag; cbn; rewrite ?Hflag; cbn;
    repeat split; reflexivity.
Qed.

Lemma navigated_frame event w :
  let w0 := match navigate_to event with
            | Some to => if truthy to then navigate to w else w
            | None => w
            end in
  state w0 = state w /\ refs w0 = refs w /\ page w0 = page w /\
  cart w0 = cart w /\ flagTimers (browser w0) = flagTimers (browser w) /\
  requests (browser w0) = requests (browser w).
Proof. cbv zeta. repeat case_match; repeat split; reflexivity. Qed.

(** The flag and the timers after a UI update: a SHOW_PRODUCTS event that
    carries products raises the flag and arms a timer; any other event
    leaves both. *)
Lemma flag_timers_handleUIUpdate event w :
  (voiceUpdateFlagRef (refs (handleUIUpdate event w)) = true /\
   flagTimers (browser (handleUIUpdate event w)) = S (flagTimers (browser w))) \/
  (voiceUpdateFlagRef (refs (handleUIUpdate event w)) = voiceUpdateFlagRef (refs w) /\
   flagTimers (browser (handleUIUpdate event w)) = flagTimers (browser w)).
Proof.
  destruct (navigated_frame event w) as (_ & Hr & _ & _ & Ht & _).
  unfold handleUIUpdate. cbv zeta.
  set (w0 := match navigate_to event with
             | Some to => if truthy to then navigate to w else w
             | None => w
             end) in *.
  rewrite <- Hr, <- Ht. clearbody w0.
  destruct (String.eqb (action event) "SHOW_PRODUCTS").
  { destruct (products_of event) as [ps|] eqn:Hps.
    - left. destruct (showProducts_refs event w0 ps Hps) as (H1 & _ & H2 & _).
      split; assumption.
    - right. unfold showProducts. rewrite Hps. split; reflexivity. }
  right. repeat case_match; split; reflexivity.
Qed.

Lemma flag_backed_step w e : Watch.flag_backed w -> Watch.flag_backed (step w e).
Proof.
  unfold Watch.flag_backed. intros Hb. destruct (View.drives_ui e) eqn:He.
  - destruct e as [| | | | | |i|i|i|m| |f|p input|c st| | | | | | | |i r|pr];
      try discriminate He; cbn [step].
    + destruct m as [t|t|ev| |err|ty]; try discriminate He.
      cbn [handleWebSocketEvent].
      destruct (flag_timers_handleUIUpdate ev w) as [[_ ->]|[-> ->]]; [lia|exact Hb].
    + destruct (flagTimers (browser w)) eqn:Ht; [rewrite Ht; exact Hb|discriminate].
    + destruct (page w); [exact Hb|].
      destruct (mount_spec w) as (_ & _ & _ & ->). rewrite flag_mount. exact Hb.
    + exact Hb.
    + unfold refreshEffect, fetchProducts, isVoiceUpdateInProgress.
      destruct (voiceUpdateFlagRef (refs w)) eqn:Hf; [rewrite Hf; exact Hb|].
      destruct (page w); cbn; rewrite Hf; discriminate.
    + unfold tryAgain, fetchProducts.
      destruct (page w) as [pg|] eqn:Hpg; [|exact Hb].
      destruct (Page.error pg); [|exact Hb]. rewrite ?Hpg. exact Hb.
    + unfold fetchSettled. destruct (requests (browser w) !! i); exact Hb.
    + exact Hb.
  - pose proof (ui_step w e He) as Hv. unfold View.ui in Hv.
    injection Hv as -> _ _ _ _ _ _ _ _ _ _ _ -> _. exact Hb.
Qed.

Lemma timers_lower_flag (n : nat) :
  forall w, flagTimers (browser w) = n -> Watch.flag_backed w ->
            voiceUpdateFlagRef (refs (run w (repeat FlagTimer n))) = false /\
            flagTimers (browser (run w (repeat FlagTimer n))) = 0%nat.
Proof.
  induction n as [|n IH]; intros w Hn Hb.
  - cbn. split; [|exact Hn]. unfold Watch.flag_backed in Hb. rewrite Hn in Hb.
    destruct (voiceUpdateFlagRef (refs w)); [|reflexivity]. specialize (Hb eq_refl). lia.
  - cbn [repeat run fold_left step]. rewrite Hn. apply IH; [reflexivity|].
    intros H. discriminate H.
Qed.

(** X18: every window closes.  Over every run from the initial state, the
    in-flight flag is up only while a timer that lowers it is pending; so
    once the pending timers have fired (and no new SHOW_PRODUCTS event has
    come) the flag is down and the refresh effect fetches again. *)
Theorem voice_window_always_closes events :
  let w := run initial events in
  let w' := run w (repeat FlagTimer (flagTimers (browser w))) in
  (voiceUpdateFlagRef (refs w) = true -> (0 < flagTimers (browser w))%nat) /\
  isVoiceUpdateInProgress w' = false /\
  refreshEffect w' = fetchProducts w'.
Proof.
  cbv zeta.
  assert (Hb : Watch.flag_backed (run initial events)).
  { assert (H : forall w, Watch.flag_backed w -> Watch.flag_backed (run w events)).
    { induction events as [|e events IH]; intros w Hw; [exact Hw|].
      cbn. apply IH, flag_backed_step, Hw. }
    apply H. intros Hf. discriminate Hf. }
  split; [exact Hb|].
  destruct (timers_lower_flag _ (run initial events) eq_refl Hb) as [Hf _].
  unfold isVoiceUpdateInProgress, refreshEffect, isVoiceUpdateInProgress.
  rewrite Hf. split; reflexivity.
Qed.

(** X19: the windows of two SHOW_PRODUCTS events that follow each other are
    not told apart: the first timer that fires lowers the flag though the
    timer of the second event is still pending, so from then on the refresh
    effect fetches again while the second event's window has not run out;
    the voice layer holds the second event's products. *)
Theorem second_window_cut_short w event1 event2 (ps1 ps2 : list product) :
  action event1 = "SHOW_PRODUCTS" -> products_of event1 = Some ps1 ->
  action event2 = "SHOW_PRODUCTS" -> products_of event2 = Some ps2 ->
  let w' := run w [WsMessage (ui_update event1); WsMessage (ui_update event2);
                   FlagTimer] in
  isVoiceUpdateInProgress (run w [WsMessage (ui_update event1);
                                  WsMessage (ui_update event2)]) = true /\
  isVoiceUpdateInProgress w' = false /\
  flagTimers (browser w') = S (flagTimers (browser w)) /\
  lastProducts (state w') = ps2 /\
  refreshEffect w' = fetchProducts w'.
Proof.
  intros Ha1 Hp1 Ha2 Hp2. cbv zeta. cbn [run fold_left].
  change (step w (WsMessage (ui_update event1))) with (handleUIUpdate event1 w).
  set (w1 := handleUIUpdate event1 w).
  change (step w1 (WsMessage (ui_update event2))) with (handleUIUpdate event2 w1).
  set (w2 := handleUIUpdate event2 w1).
  assert (H1 : flagTimers (browser w1) = S (flagTimers (browser w))).
  { unfold w1. rewrite (handleUIUpdate_show _ _ Ha1).
    destruct (showProducts_refs event1
                (match navigate_to event1 with
                 | Some to => if truthy to then navigate to w else w
                 | None => w
                 end) ps1 Hp1) as (_ & _ & -> & _).
    destruct (navigated_frame event1 w) as (_ & _ & _ & _ & -> & _). reflexivity. }
  assert (H2 : voiceUpdateFlagRef (refs w2) = true /\
               flagTimers (browser w2) = S (S (flagTimers (browser w))) /\
               lastProducts (state w2) = ps2).
  { unfold w2. rewrite (handleUIUpdate_show _ _ Ha2).
    destruct (showProducts_refs event2
                (match navigate_to event2 with
                 | Some to => if truthy to then navigate to w1 else w1
                 | None => w1
                 end) ps2 Hp2) as (-> & _ & -> & _).
    destruct (showProducts_state event2
                (match navigate_to event2 with
                 | Some to => if truthy to then navigate to w1 else w1
                 | None => w1
                 end) ps2 Hp2) as (-> & _ & _).
    destruct (navigated_frame event2 w1) as (_ & _ & _ & _ & -> & _).
    rewrite H1. repeat split; reflexivity. }
  destruct H2 as (Hf & Ht & Hl). clearbody w2.
  split; [exact Hf|]. cbn [step]. rewrite Ht.
  unfold isVoiceUpdateInProgress, refreshEffect, isVoiceUpdateInProgress. cbn.
  repeat split; try reflexivity. exact Hl.
Qed.

Lemma second_window_cut_short_witness :
  let w' := run Scenario.live
              [WsMessage (ui_update Scenario.showTwo);
               WsMessage (ui_update Scenario.showTwo); FlagTimer] in
  isVoiceUpdateInProgress w' = false /\ flagTimers (browser w') = 1%nat.
Proof.
  pose proof (second_window_cut_short Scenario.live Scenario.showTwo Scenario.showTwo
                [Scenario.P1; Scenario.P2] [Scenario.P1; Scenario.P2]
                eq_refl eq_refl eq_refl eq_refl) as (_ & H1 & H2 & _).
  split; [exact H1|exact H2].
Defined.

(** X20: pending data that has outlived its window is thrown away.  When
    the timer fires before the product page mounts, the mount still empties
    the pending slot but applies nothing of it: the page starts from its
    initial state and sends the unfiltered request, while the voice layer
    holds the event's products. *)
Theorem stale_pending_update_dropped w event (ps : list product) :
  page w = None ->
  action event = "SHOW_PRODUCTS" ->
  truthy_opt (navigate_to event) = true ->
  products_of event = Some ps ->
  let w1 := run w [WsMessage (ui_update event); FlagTimer] in
  let w' := step w1 PageMount in
  pendingVoiceUpdateRef (refs w1)
  = Some {| pending_products := ps; pending_total := total_of event;
            pending_filters := filters_or_empty event |} /\
  page w' = Some (Page.fetchProducts_issue Page.initial) /\
  pendingVoiceUpdateRef (refs w') = None /\
  requests (browser w') = requests (browser w) ++ [[]] /\
  lastProducts (state w') = ps.
Proof.
  intros Hpage Hact Hnav Hps. cbv zeta. cbn [run fold_left].
  change (step w (WsMessage (ui_update event))) with (handleUIUpdate event w).
  rewrite (handleUIUpdate_show _ _ Hact).
  destruct (navigated_frame event w) as (_ & _ & Hp0 & _ & _ & Hr0).
  set (w0 := match navigate_to event with
             | Some to => if truthy to then navigate to w else w
             | None => w
             end) in *.
  destruct (showProducts_refs event w0 ps Hps) as (Hf & Hpend & Ht & Hreq).
  destruct (showProducts_state event w0 ps Hps) as (Hl & _ & _).
  pose proof (showProducts_page event w0 ps Hps) as Hp.
  rewrite Hp0, Hpage in Hp. cbn in Hp. rewrite Hnav in Hpend.
  set (w1 := showProducts event w0) in *. clearbody w1.
  cbn [step]. rewrite Ht.
  set (w2 := onRefs (set_voiceUpdateFlagRef false) (onBrowser (set_flagTimers _) w1)).
  assert (Hp2 : page w2 = None) by exact Hp.
  rewrite Hp2. split; [exact Hpend|].
  destruct (mount_spec w2) as (-> & -> & -> & _).
  split; [reflexivity|]. split; [apply pending_mount|].
  split; [cbn; rewrite Hreq, Hr0; reflexivity|exact Hl].
Qed.

Lemma stale_pending_update_dropped_witness :
  page (run Scenario.live [WsMessage (ui_update Scenario.showTwo); FlagTimer; PageMount])
  = Some (Page.fetchProducts_issue Page.initial).
Proof.
  pose proof (stale_pending_update_dropped Scenario.live Scenario.showTwo
                [Scenario.P1; Scenario.P2] eq_refl eq_refl eq_refl eq_refl)
    as (_ & H & _).
  exact H.
Defined.

(** X21: the pending slot is written by navigating events only.  When a
    SHOW_PRODUCTS event that navigates is followed, before the product page
    mounts, by one that does not, the page that mounts shows the products
    and the total of the first, older event, while the voice layer holds
    the products of the second; no request is sent. *)
Theorem older_navigating_update_wins_on_mount w event1 event2
    (ps1 ps2 : list product) :
  page w = None ->
  action event1 = "SHOW_PRODUCTS" -> truthy_opt (navigate_to event1) = true ->
  products_of event1 = Some ps1 ->
  action event2 = "SHOW_PRODUCTS" -> truthy_opt (navigate_to event2) = false ->
  products_of event2 = Some ps2 ->
  let w' := run w [WsMessage (ui_update event1); WsMessage (ui_update event2);
                   PageMount] in
  Page.products <$> page w' = Some ps1 /\
  Page.total <$> page w' = Some (total_of event1) /\
  lastProducts (state w') = ps2 /\
  requests (browser w') = requests (browser w).
Proof.
  intros Hpage Ha1 Hn1 Hp1 Ha2 Hn2 Hp2. cbv zeta. cbn [run fold_left].
  change (step w (WsMessage (ui_update event1))) with (handleUIUpdate event1 w).
  rewrite (handleUIUpdate_show _ _ Ha1).
  destruct (navigated_frame event1 w) as (_ & _ & Hp0 & _ & _ & Hr0).
  set (w0 := match navigate_to event1 with
             | Some to => if truthy to then navigate to w else w
             | None => w
             end) in *.
  destruct (showProducts_refs event1 w0 ps1 Hp1) as (_ & Hpend1 & _ & Hreq1).
  pose proof (showProducts_page event1 w0 ps1 Hp1) as Hpg1.
  rewrite Hp0, Hpage in Hpg1. cbn in Hpg1. rewrite Hn1 in Hpend1.
  set (w1 := showProducts event1 w0) in *. clearbody w1.
  change (step w1 (WsMessage (ui_update event2))) with (handleUIUpdate event2 w1).
  rewrite (handleUIUpdate_show _ _ Ha2).
  destruct (navigated_frame event2 w1) as (_ & Hrf & Hp1' & _ & _ & Hr1).
  set (w1' := match navigate_to event2 with
              | Some to => if truthy to then navigate to w1 else w1
              | None => w1
              end) in *.
  destruct (showProducts_refs event2 w1' ps2 Hp2) as (Hf2 & Hpend2 & _ & Hreq2).
  destruct (showProducts_state event2 w1' ps2 Hp2) as (Hl2 & _ & _).
  pose proof (showProducts_page event2 w1' ps2 Hp2) as Hpg2.
  rewrite Hp1', Hpg1 in Hpg2. cbn in Hpg2. rewrite Hn2, Hrf, Hpend1 in Hpend2.
  set (w2 := showProducts event2 w1') in *. clearbody w2.
  cbn [step]. rewrite Hpg2.
  destruct (mount_spec w2) as (-> & -> & -> & _).
  rewrite Hf2, Hpend2. cbn [fmap option_fmap option_map pending_products
                            pending_total pending_filters].
  destruct (applyFilters_others (filters_or_empty event1)
              (Page.setLoading false
                 (Page.setTotal (total_of event1)
                    (Page.setProducts ps1 Page.initial)))) as (-> & -> & _).
  repeat split; [exact Hl2|]. rewrite Hreq2, Hr1, Hreq1, Hr0. reflexivity.
Qed.

Lemma older_navigating_update_wins_on_mount_witness :
  let second := {| action := "SHOW_PRODUCTS"; navigate_to := None;
                   data := Some {| data_products := Some [Scenario.Q1];
                                   data_product := None; data_total := None |};
                   filters := None |} in
  Page.products
    <$> page (run Scenario.live [WsMessage (ui_update Scenario.showTwo);
                                 WsMessage (ui_update second); PageMount])
  = Some [Scenario.P1; Scenario.P2].
Proof.
  cbv zeta.
  pose proof (older_navigating_update_wins_on_mount Scenario.live Scenario.showTwo
                {| action := "SHOW_PRODUCTS"; navigate_to := None;
                   data := Some {| data_products := Some [Scenario.Q1];
                                   data_product := None; data_total := None |};
                   filters := None |}
                [Scenario.P1; Scenario.P2] [Scenario.Q1]
                eq_refl eq_refl eq_refl eq_refl eq_refl eq_refl eq_refl) as (H & _).
  exact H.
Defined.

(** The views of a page that has just mounted are closed. *)
Lemma mount_views_closed w :
  Page.selectedProduct <$> page (mount w) = Some None /\
  Page.isModalOpen <$> page (mount w) = Some false /\
  Page.compareList <$> page (mount w) = Some [] /\
  Page.isCompareOpen <$> page (mount w) = Some false.
Proof.
  destruct (mount_spec w) as (-> & _).
  destruct (voiceUpdateFlagRef (refs w)); [|repeat split; reflexivity].
  destruct (pendingVoiceUpdateRef (refs w)) as [d|]; [|repeat split; reflexivity].
  cbn [fmap option_fmap option_map].
  destruct (applyFilters_others (pending_filters d)
              (Page.setLoading false
                 (Page.setTotal (pending_total d)
                    (Page.setProducts (pending_products d) Page.initial))))
    as (_ & _ & _ & _ & -> & -> & -> & ->).
  repeat split; reflexivity.
Qed.

(** X22: a voice request for the detail view acts like a click on the
    product when the product page is mounted: the product is selected and
    the detail view opens, the list shown stays.  When the page is not
    mounted (the event navigates to it from another route), the request is
    lost, as is one for the comparison view: nothing is kept for the page
    that is about to mount, and after its mount no view is open. *)
Theorem voice_view_requests_need_the_page w event :
  (forall (pr : product) p,
     action event = "SHOW_PRODUCT_DETAILS" -> product_of event = Some pr ->
     page w = Some p -> onProductDetailRef (refs w) = true ->
     page (handleUIUpdate event w) = Some (ProductsPage.handleProductClick pr p) /\
     ProductsPage.detailViewOpen (ProductsPage.handleProductClick pr p) = true /\
     Page.products (ProductsPage.handleProductClick pr p) = Page.products p) /\
  (page w = None ->
   action event = "SHOW_PRODUCT_DETAILS" \/ action event = "COMPARE_PRODUCTS" ->
   let w' := run w [WsMessage (ui_update event); PageMount] in
   ProductsPage.detailViewOpen <$> page w' = Some false /\
   Page.compareViewOpen <$> page w' = Some false /\
   Page.selectedProduct <$> page w' = Some None /\
   Page.compareList <$> page w' = Some []).
Proof.
  destruct (navigated_frame event w) as (_ & Hr0 & Hp0 & _).
  split.
  - intros pr p Hact Hpr Hpage Hreg. split; [|split; reflexivity].
    unfold handleUIUpdate. cbv zeta.
    set (w0 := match navigate_to event with
               | Some to => if truthy to then navigate to w else w
               | None => w
               end) in *.
    rewrite Hact. cbn [String.eqb Ascii.eqb Bool.eqb].
    rewrite Hpr, Hr0, Hreg. cbn. rewrite Hp0, Hpage. reflexivity.
  - intros Hpage Hact. cbv zeta. cbn [run fold_left].
    change (step w (WsMessage (ui_update event))) with (handleUIUpdate event w).
    assert (Hnone : page (handleUIUpdate event w) = None).
    { unfold handleUIUpdate. cbv zeta.
      set (w0 := match navigate_to event with
                 | Some to => if truthy to then navigate to w else w
                 | None => w
                 end) in *.
      rewrite Hpage in Hp0. clearbody w0.
      destruct Hact as [-> | ->]; cbn [String.eqb Ascii.eqb Bool.eqb];
        repeat case_match; cbn; rewrite ?Hp0; reflexivity. }
    cbn [step]. rewrite Hnone.
    destruct (mount_views_closed (handleUIUpdate event w)) as (H1 & H2 & H3 & H4).
    destruct (page (mount (handleUIUpdate event w))) as [p|]; [|discriminate H1].
    cbn in *. injection H1 as H1. injection H2 as H2. injection H3 as H3.
    injection H4 as H4.
    unfold ProductsPage.detailViewOpen, ProductsPage.ProductModal_renders,
      Page.compareViewOpen, Page.CompareModal_renders.
    rewrite H1, H2, H3, H4. repeat split; reflexivity.
Qed.

Lemma voice_view_requests_need_the_page_witness :
  let event := {| action := "SHOW_PRODUCT_DETAILS";
                  navigate_to := Some (JStr "/products");
                  data := Some {| data_products := None;
                                  data_product := Some Scenario.P1;
                                  data_total := None |};
                  filters := None |} in
  ProductsPage.detailViewOpen
    <$> page (run Scenario.live [WsMessage (ui_update event); PageMount])
  = Some false.
Proof.
  cbv zeta.
  refine (proj1 (proj2 (voice_view_requests_need_the_page Scenario.live _) eq_refl _)).
  left. reflexivity.
Defined.

End WindowMore.

(** ** Playback: a lost context, frames that do not decode, a stop *)

Section PlaybackMore.
Import Voice.

Implicit Types (w : World) (e : event) (f : frame) (q : list frame)
  (events : list event).

(** Under a guard that nobody will release, no event starts a frame. *)
Lemma wedged_step w e :
  Watch.wedged w ->
  Watch.wedged (step w e) /\ rendered (browser (step w e)) = rendered (browser w).
Proof.
  intros (Hp & Hres & Hsnd). unfold Watch.wedged.
  destruct (View.drives_playback e) eqn:He.
  - destruct e; try discriminate He; cbn [step].
    + unfold onmessage_audio, playNextAudio. cbn. rewrite Hp.
      destruct (playbackQueueRef (refs w) ++ [arrayBuffer]) as [|h rest] eqn:Hq.
      { apply app_eq_nil in Hq as [_ Hq]. discriminate Hq. }
      cbn. auto.
    + rewrite Hres. auto.
    + rewrite Hsnd. auto.
  - destruct (playback_step_quiet w e He) as (q' & s' & Hv & _).
    unfold View.playback in Hv. injection Hv as _ -> _ -> -> -> _. auto.
Qed.

Lemma wedged_run events :
  forall w, Watch.wedged w ->
            Watch.wedged (run w events) /\
            rendered (browser (run w events)) = rendered (browser w).
Proof.
  induction events as [|e events IH]; intros w Hw; [auto|].
  destruct (wedged_step w e Hw) as [Hw' Hr].
  destruct (IH (step w e) Hw') as [Hw'' Hr']. cbn [run fold_left].
  fold (run (step w e) events). split; [exact Hw''|congruence].
Qed.

(** X23: a frame that is handled while the provider holds no playback
    context (after a stop or a close, for a binary message that was still
    being read) takes the re-entrancy guard and returns without releasing
    it.  Nothing ever releases it: whatever happens afterwards, a new
    session included, the guard stays held and no frame is rendered any
    more. *)
Theorem playback_wedges_without_context w f events :
  isPlayingRef (refs w) = false -> audioContextRef (refs w) = None ->
  resuming (browser w) = [] -> sounding (browser w) = [] ->
  let w1 := step w (WsAudio f) in
  let w2 := run w1 events in
  isPlayingRef (refs w1) = true /\
  isPlayingRef (refs w2) = true /\
  sounding (browser w2) = [] /\
  rendered (browser w2) = rendered (browser w).
Proof.
  intros Hp Hctx Hres Hsnd. cbv zeta.
  assert (Hw1 : Watch.wedged (step w (WsAudio f)) /\
                rendered (browser (step w (WsAudio f))) = rendered (browser w)).
  { cbn [step]. unfold onmessage_audio, playNextAudio, Watch.wedged. cbn. rewrite Hp.
    destruct (playbackQueueRef (refs w) ++ [f]) as [|h rest] eqn:Hq.
    { apply app_eq_nil in Hq as [_ Hq]. discriminate Hq. }
    cbn. rewrite Hctx. cbn. auto. }
  destruct Hw1 as [Hw1 Hr1].
  destruct (wedged_run events _ Hw1) as [(Hp2 & _ & Hs2) Hr2].
  split; [apply Hw1|]. split; [exact Hp2|]. split; [exact Hs2|congruence].
Qed.

Lemma playback_wedges_without_context_witness :
  let w := run View.ready [StopVoice] in
  let w2 := run (step w (WsAudio Scenario.A))
              [ToggleVoice; MicGranted; WsOpen 1; ContextState 1 running;
               WsAudio Scenario.B; SourceEnded; WsAudio Scenario.C] in
  isPlayingRef (refs w2) = true /\ rendered (browser w2) = [].
Proof.
  cbv zeta.
  pose proof (playback_wedges_without_context (run View.ready [StopVoice]) Scenario.A
                [ToggleVoice; MicGranted; WsOpen 1; ContextState 1 running;
                 WsAudio Scenario.B; SourceEnded; WsAudio Scenario.C]
                eq_refl eq_refl eq_refl eq_refl) as (_ & H1 & _ & H2).
  split; [exact H1|exact H2].
Defined.

(** *** Frames that do not decode *)

(** A call of [playNextAudio] that passes the guard on a running context:
    it skips the frames at the head of the queue that throw and starts the
    first one that decodes, if there is one. *)
Lemma playNextAudio_from_skips q :
  forall w c,
    audioContextRef (refs w) = Some c ->
    contexts (browser w) !! c = Some running ->
    isPlayingRef (refs w) = false ->
    playbackQueueRef (refs w) = q ->
    let w' := playNextAudio_from q w in
    audioContextRef (refs w') = Some c /\
    contexts (browser w') = contexts (browser w) /\
    resuming (browser w') = resuming (browser w) /\
    pushed (browser w') = pushed (browser w) /\
    ((isPlayingRef (refs w') = false /\ playbackQueueRef (refs w') = [] /\
      rendered (browser w') = rendered (browser w) /\
      sounding (browser w') = sounding (browser w) /\
      List.filter Watch.decodes q = []) \/
     (exists g rest,
        isPlayingRef (refs w') = true /\ playbackQueueRef (refs w') = rest /\
        rendered (browser w') = rendered (browser w) ++ [g] /\
        sounding (browser w') = sounding (browser w) ++ [g] /\
        List.filter Watch.decodes q = g :: List.filter Watch.decodes rest)).
Proof.
  induction q as [|f rest IH]; intros w c Hc Hst Hp Hq; cbv zeta.
  - cbn. repeat split; try assumption. left. repeat split; assumption.
  - cbn [playNextAudio_from]. cbv zeta.
    replace (audioContextRef (refs (onRefs (set_playbackQueueRef rest)
               (onRefs (set_isPlayingRef true) w)))) with (Some c)
      by (symmetry; exact Hc).
    replace (contexts (browser (onRefs (set_playbackQueueRef rest)
               (onRefs (set_isPlayingRef true) w))) !! c) with (Some running)
      by (symmetry; exact Hst).
    assert (Hfilter : List.filter Watch.decodes (f :: rest)
                      = if render_throws f then List.filter Watch.decodes rest
                        else f :: List.filter Watch.decodes rest).
    { cbn. unfold Watch.decodes at 1. destruct (render_throws f); reflexivity. }
    rewrite Hfilter. clear Hfilter.
    destruct (render_throws f) eqn:Hf.
    + destruct (IH (onRefs (set_isPlayingRef false)
                     (onRefs (set_playbackQueueRef rest)
                        (onRefs (set_isPlayingRef true) w))) c)
        as (H1 & H2 & H3 & H4 & H5); [exact Hc|exact Hst|reflexivity|reflexivity|].
      cbv zeta in H1, H2, H3, H4, H5.
      split; [exact H1|]. split; [exact H2|]. split; [exact H3|]. split; [exact H4|].
      exact H5.
    + cbn. split; [exact Hc|]. repeat split. right. exists f, rest.
      repeat split.
Qed.

Lemma playing_step w e :
  Watch.feeds e -> Watch.playing w ->
  rendered (browser w) ++ List.filter Watch.decodes (playbackQueueRef (refs w))
  = List.filter Watch.decodes (pushed (browser w)) ->
  Watch.playing (step w e) /\
  rendered (browser (step w e))
    ++ List.filter Watch.decodes (playbackQueueRef (refs (step w e)))
  = List.filter Watch.decodes (pushed (browser (step w e))).
Proof.
  intros He ((c & Hc & Hst) & Hres & Hmode) Hall. unfold Watch.playing.
  destruct He as [->|(f & ->)]; cbn [step].
  - (* a source ends *)
    destruct Hmode as [(Hp & Hq & Hsnd)|(Hp & g & Hsnd)]; rewrite Hsnd.
    { split; [|exact Hall]. split; [eauto|]. split; [exact Hres|]. left. auto. }
    unfold onended, playNextAudio. cbn [isPlayingRef refs onRefs set_isPlayingRef
      playbackQueueRef onBrowser].
    destruct (playNextAudio_from_skips (playbackQueueRef (refs w))
                (onRefs (set_isPlayingRef false) (onBrowser (set_sounding []) w)) c)
      as (H1 & H2 & H3 & H4 & H5); [exact Hc|exact Hst|reflexivity|reflexivity|].
    cbv zeta in H1, H2, H3, H4, H5.
    split.
    + split; [exists c; split; [exact H1|rewrite H2; exact Hst]|].
      split; [rewrite H3; exact Hres|].
      destruct H5 as [(Ha & Hb & _ & Hd & _)|(g' & rest & Ha & _ & _ & Hd & _)].
      * left. rewrite Hd. auto.
      * right. split; [exact Ha|]. exists g'. rewrite Hd. reflexivity.
    + rewrite H4. cbn [pushed browser onRefs onBrowser set_sounding]. rewrite <- Hall.
      destruct H5 as [(_ & -> & -> & _ & ->)|(g' & rest & _ & -> & -> & _ & ->)].
      * reflexivity.
      * cbn. rewrite <- app_assoc. reflexivity.
  - (* a frame is pushed *)
    unfold onmessage_audio, playNextAudio. cbn.
    destruct Hmode as [(Hp & Hq & Hsnd)|(Hp & g & Hsnd)]; rewrite Hp.
    + rewrite Hq in *. cbn [app].
      match goal with
      | |- context [playNextAudio_from [f] ?w0] =>
          destruct (playNextAudio_from_skips [f] w0 c)
            as (H1 & H2 & H3 & H4 & H5);
            [exact Hc|exact Hst|exact Hp|cbn; rewrite Hq; reflexivity|];
          cbv zeta in H1, H2, H3, H4, H5;
          set (w1 := playNextAudio_from [f] w0) in *
      end.
      clearbody w1. cbn in H2, H3, H4, H5. rewrite Hsnd in H5. split.
      * split; [exists c; split; [exact H1|rewrite H2; exact Hst]|].
        split; [rewrite H3; exact Hres|].
        destruct H5 as [(Ha & Hb & _ & Hd & _)|(g' & rest & Ha & _ & _ & Hd & _)].
        -- left. auto.
        -- right. split; [exact Ha|]. exists g'. exact Hd.
      * rewrite H4, List.filter_app, <- Hall.
        destruct H5 as [(_ & -> & -> & _ & He)|(g' & rest & _ & -> & -> & _ & He)].
        -- cbn in He |- *. unfold Watch.decodes in He |- *.
           destruct (render_throws f);
             [cbn; rewrite !app_nil_r; reflexivity|discriminate He].
        -- cbn in He |- *. unfold Watch.decodes in He |- *.
           destruct (render_throws f); cbn in He |- *; [discriminate He|].
           injection He as -> He. rewrite <- He, !app_nil_r. reflexivity.
    + destruct (playbackQueueRef (refs w) ++ [f]) as [|h rest] eqn:Hq.
      { apply app_eq_nil in Hq as [_ Hq]. discriminate Hq. }
      cbn. split.
      * split; [eauto|]. split; [exact Hres|]. right. split; [exact Hp|].
        exists g. exact Hsnd.
      * rewrite !List.filter_app, <- Hall, app_assoc. reflexivity.
Qed.

Lemma playing_ready : Watch.playing View.ready.
Proof.
  unfold Watch.playing. cbn.
  split; [exists 0%nat; split; reflexivity|].
  split; [reflexivity|]. left. repeat split; reflexivity.
Qed.

(** X24: a frame that cannot be decoded does not stop playback.  When
    frames of any kind are pushed on a ready session and sources end, the
    frames rendered so far followed by the queued frames that decode are
    exactly the pushed frames that decode, in the order of the pushes; and
    whenever nothing plays, nothing is left in the queue. *)
Theorem undecodable_frames_are_skipped events :
  Forall Watch.feeds events ->
  let w := run View.ready events in
  rendered (browser w) ++ List.filter Watch.decodes (playbackQueueRef (refs w))
  = List.filter Watch.decodes (pushed (browser w)) /\
  (isPlayingRef (refs w) = false -> playbackQueueRef (refs w) = []) /\
  (length (sounding (browser w)) <= 1)%nat.
Proof.
  intros Hev. cbv zeta.
  assert (H : forall w,
            Watch.playing w ->
            rendered (browser w) ++ List.filter Watch.decodes (playbackQueueRef (refs w))
            = List.filter Watch.decodes (pushed (browser w)) ->
            Watch.playing (run w events) /\
            rendered (browser (run w events))
              ++ List.filter Watch.decodes (playbackQueueRef (refs (run w events)))
            = List.filter Watch.decodes (pushed (browser (run w events)))).
  { induction Hev as [|e events He Hev IH]; intros w Hon Hall; [auto|].
    destruct (playing_step w e He Hon Hall) as [Hon' Hall'].
    cbn [run fold_left]. apply IH; assumption. }
  destruct (H View.ready playing_ready eq_refl) as [(_ & _ & Hmode) Hall].
  split; [exact Hall|].
  destruct Hmode as [(Hp & Hq & Hsnd)|(Hp & g & Hsnd)].
  - split; [intros _; exact Hq|]. rewrite Hsnd. cbn. lia.
  - split; [intros Hf; congruence|]. rewrite Hsnd. cbn. lia.
Qed.

Lemma undecodable_frames_are_skipped_witness :
  let w := run View.ready [WsAudio Scenario.A; WsAudio [1]; WsAudio []; WsAudio Scenario.B;
                           SourceEnded] in
  rendered (browser w) ++ List.filter Watch.decodes (playbackQueueRef (refs w))
  = [Scenario.A; Scenario.B].
Proof.
  cbv zeta.
  refine (proj1 (undecodable_frames_are_skipped
                   [WsAudio Scenario.A; WsAudio [1]; WsAudio []; WsAudio Scenario.B;
                    SourceEnded] _)).
  repeat (apply List.Forall_cons;
          [first [left; reflexivity | right; eexists; reflexivity]|]).
  apply List.Forall_nil.
Defined.

(** X25: [stopVoice] flushes playback like a clear_audio_queue event: the
    queue is emptied and the speaking flag lowered, and as long as no new
    frame is pushed the queue stays empty, the flag stays down and none of
    the frames that were queued is rendered; only a call that was waiting
    in [resume()] at the stop can still try its frame. *)
Theorem stopVoice_flushes_playback w events :
  Forall View.not_push events ->
  let w1 := step w StopVoice in
  let w2 := run w1 events in
  playbackQueueRef (refs w1) = [] /\
  isSpeaking (state w1) = false /\
  playbackQueueRef (refs w2) = [] /\
  isSpeaking (state w2) = false /\
  (exists since, rendered (browser w2) = rendered (browser w) ++ since /\
                 sublist since (View.waiting w)) /\
  (resuming (browser w) = [] -> rendered (browser w2) = rendered (browser w)).
Proof.
  intros Hev. cbv zeta. cbn [step].
  assert (Hq : playbackQueueRef (refs (stopVoice w)) = [])
    by (unfold stopVoice, cleanup; handler).
  assert (Hsp : isSpeaking (state (stopVoice w)) = false)
    by (unfold stopVoice, cleanup; handler).
  assert (Hres : resuming (browser (stopVoice w)) = resuming (browser w))
    by (unfold stopVoice, cleanup; handler).
  assert (Hrd : rendered (browser (stopVoice w)) = rendered (browser w))
    by (unfold stopVoice, cleanup; handler).
  assert (Hfl : View.flushed (rendered (browser w)) (View.waiting w) (stopVoice w)).
  { split; [exact Hq|]. split; [exact Hsp|].
    exists []. unfold View.waiting. rewrite Hrd, Hres, app_nil_r. split; reflexivity. }
  destruct (flushed_run _ _ events _ Hev Hfl) as (Hq2 & Hsp2 & since & Hrd2 & Hsub).
  split; [exact Hq|]. split; [exact Hsp|]. split; [exact Hq2|]. split; [exact Hsp2|].
  assert (Hsince : sublist since (View.waiting w)).
  { etransitivity; [|exact Hsub]. apply sublist_inserts_r. reflexivity. }
  split; [exists since; split; assumption|].
  intros Hres0. unfold View.waiting in Hsince. rewrite Hres0 in Hsince.
  apply sublist_nil_r in Hsince. rewrite Hrd2, Hsince, app_nil_r. reflexivity.
Qed.

Lemma stopVoice_flushes_playback_witness :
  let w2 := run (step Scenario.oneSoundingThreeQueued StopVoice)
              [SourceEnded; FlagTimer; SourceEnded] in
  playbackQueueRef (refs w2) = [] /\ isSpeaking (state w2) = false.
Proof.
  cbv zeta.
  assert (Hev : Forall View.not_push [SourceEnded; FlagTimer; SourceEnded]).
  { repeat (apply List.Forall_cons; [intros f; discriminate|]). apply List.Forall_nil. }
  pose proof (stopVoice_flushes_playback Scenario.oneSoundingThreeQueued
                [SourceEnded; FlagTimer; SourceEnded] Hev) as (_ & _ & H1 & H2 & _).
  split; [exact H1|exact H2].
Defined.

End PlaybackMore.

(** ** The session: stop, close, start and mute *)

(** The sixteen cases of [cleanup], by the refs that are set. *)
Ltac cleanup_cases w :=
  unfold Voice.cleanup; cbv zeta;
  destruct (Voice.wsRef (Voice.refs w)); cbn;
  destruct (Voice.mediaStreamRef (Voice.refs w)); cbn;
  destruct (Voice.processorRef (Voice.refs w)); cbn;
  destruct (Voice.audioContextRef (Voice.refs w)); cbn.

Section SessionMore.
Import Voice VoiceController.

Implicit Types (w : World) (e : event) (events : list event).

Lemma cleanup_refs w :
  wsRef (refs (cleanup w)) = None /\ mediaStreamRef (refs (cleanup w)) = None /\
  processorRef (refs (cleanup w)) = None /\ audioContextRef (refs (cleanup w)) = None /\
  playbackQueueRef (refs (cleanup w)) = [] /\ state (cleanup w) = state w.
Proof.
  unfold cleanup. cbv zeta.
  repeat case_match; repeat split; first [reflexivity|assumption].
Qed.

Lemma cleanup_sockets w :
  sockets (browser (cleanup w))
  = match wsRef (refs w) with
    | Some i => closeSocket i (sockets (browser w))
    | None => sockets (browser w)
    end.
Proof. cleanup_cases w; reflexivity. Qed.

Lemma cleanup_streams w :
  streams (browser (cleanup w))
  = match mediaStreamRef (refs w) with
    | Some k => alter (fun t => {| enabled := enabled t; stopped := true |}) k
                  (streams (browser w))
    | None => streams (browser w)
    end.
Proof. cleanup_cases w; reflexivity. Qed.

Lemma cleanup_processors w :
  processors (browser (cleanup w))
  = match processorRef (refs w) with
    | Some p => <[p := false]> (processors (browser w))
    | None => processors (browser w)
    end.
Proof. cleanup_cases w; reflexivity. Qed.

Lemma cleanup_contexts w :
  contexts (browser (cleanup w))
  = match audioContextRef (refs w) with
    | Some c => <[c := closed]> (contexts (browser w))
    | None => contexts (browser w)
    end.
Proof. cleanup_cases w; reflexivity. Qed.

Lemma stopVoice_refs_closed w : wsRef (refs (stopVoice w)) = None.
Proof. apply (cleanup_refs w). Qed.

(** With no resource held, [cleanup] has nothing to release. *)
Lemma cleanup_released w :
  wsRef (refs w) = None -> mediaStreamRef (refs w) = None ->
  processorRef (refs w) = None -> audioContextRef (refs w) = None ->
  cleanup w = onRefs (set_playbackQueueRef []) w.
Proof. intros H1 H2 H3 H4. unfold cleanup. cbv zeta. rewrite H1, H2, H3, H4. reflexivity. Qed.

Lemma stopVoice_idempotent w : stopVoice (stopVoice w) = stopVoice w.
Proof.
  destruct (cleanup_refs w) as (H1 & H2 & H3 & H4 & H5 & _).
  unfold stopVoice at 1. cbv zeta.
  rewrite (cleanup_released (stopVoice w)) by assumption.
  unfold stopVoice. cbv zeta. revert H5. generalize (cleanup w).
  intros [st rf pg ct br] H5. destruct st, rf. cbn in H5. subst. reflexivity.
Qed.

(** *** The capture contexts *)

Lemma captures_playNextAudio_from q :
  forall w, captures (browser (playNextAudio_from q w)) = captures (browser w).
Proof.
  induction q as [|f q IH]; intros w; [reflexivity|].
  cbn [playNextAudio_from]. cbv zeta.
  repeat case_match; try reflexivity; rewrite IH; reflexivity.
Qed.

Lemma captures_playNextAudio w :
  captures (browser (playNextAudio w)) = captures (browser w).
Proof.
  unfold playNextAudio. repeat case_match; try reflexivity.
  apply captures_playNextAudio_from.
Qed.

Lemma captures_playNextAudio_resumed f c w :
  captures (browser (playNextAudio_resumed f c w)) = captures (browser w).
Proof.
  unfold playNextAudio_resumed, playNextAudio_catch.
  repeat case_match; rewrite ?captures_playNextAudio; reflexivity.
Qed.

Lemma captures_stopVoice w :
  captures (browser (stopVoice w)) = captures (browser w).
Proof. unfold stopVoice, cleanup. handler. Qed.

(** A capture context is created when a socket opens, and on no other
    event; no event closes one. *)
Lemma captures_step w e :
  captures (browser (step w e)) = captures (browser w) \/
  (exists i, e = WsOpen i /\ sockets (browser w) !! i = Some CONNECTING /\
             captures (browser (step w e)) = S (captures (browser w))).
Proof.
  destruct e as [| | | | | |i|i|i|m| |f|p input|c st| | | | | | | |i r|pr]; cbn [step].
  - left. reflexivity.
  - left. apply captures_stopVoice.
  - left. unfold toggleVoice. destruct (isConnected (state w));
      [apply captures_stopVoice|reflexivity].
  - left. unfold toggleMute. handler.
  - left. unfold startVoice_granted. handler.
  - left. unfold startVoice_denied. handler.
  - destruct (sockets (browser w) !! i) as [[]|] eqn:Hs; try (left; reflexivity).
    right. exists i. split; [reflexivity|]. split; [exact Hs|reflexivity].
  - left. unfold onerror. handler.
  - left. unfold onclose, cleanup. handler.
  - left. destruct m as [t|t|ev| |err|ty]; try reflexivity.
    unfold handleWebSocketEvent, handleUIUpdate, showProducts. handler.
  - left. reflexivity.
  - left. unfold onmessage_audio. cbv zeta. rewrite captures_playNextAudio. reflexivity.
  - left. unfold onaudioprocess, channelOpen. handler.
  - left. handler.
  - left. destruct (resuming (browser w)) as [|[f c] rest]; [reflexivity|].
    rewrite captures_playNextAudio_resumed. reflexivity.
  - left. destruct (sounding (browser w)) as [|f rest]; [reflexivity|].
    unfold onended. rewrite captures_playNextAudio. reflexivity.
  - left. handler.
  - left. destruct (page w); [reflexivity|].
    unfold mount, refreshEffect, voiceEffect, fetchProducts,
      consumePendingVoiceData, isVoiceUpdateInProgress. handler.
  - left. reflexivity.
  - left. unfold refreshEffect, fetchProducts, isVoiceUpdateInProgress. handler.
  - left. unfold tryAgain, fetchProducts. handler.
  - left. unfold fetchSettled. handler.
  - left. reflexivity.
Qed.

Lemma captures_run events :
  forall w, (captures (browser w) <= captures (browser (run w events)))%nat.
Proof.
  induction events as [|e events IH]; intros w; [reflexivity|].
  cbn [run fold_left]. etransitivity; [|apply (IH (step w e))].
  destruct (captures_step w e) as [->|(_ & _ & _ & ->)]; lia.
Qed.

(** X26: [stopVoice] releases what the refs of the provider hold: the four
    refs are cleared, the socket it held is closing or closed, the track of
    its microphone stream is stopped, its processor is disconnected and its
    playback context is closed; the controller shows the idle state and the
    mute flag is reset; the channel is not open any more; and a second
    [stopVoice] changes nothing.  It does not release the capture context
    (with its stream source) that [startAudioStreaming] created when the
    socket opened: no ref holds it and nothing closes it, so a session that
    opened and was stopped leaves one more capture context than there was,
    and over any run their number never goes down. *)
Theorem stopVoice_releases_what_the_refs_hold w :
  let w' := stopVoice w in
  (wsRef (refs w') = None /\ mediaStreamRef (refs w') = None /\
   processorRef (refs w') = None /\ audioContextRef (refs w') = None) /\
  (getState (state w') = idle /\ isMuted (state w') = false) /\
  (forall i s, wsRef (refs w) = Some i -> sockets (browser w) !! i = Some s ->
     exists s', sockets (browser w') !! i = Some s' /\ Watch.closing s' = true) /\
  (forall k t, mediaStreamRef (refs w) = Some k -> streams (browser w) !! k = Some t ->
     streams (browser w') !! k = Some {| enabled := enabled t; stopped := true |}) /\
  (forall p b, processorRef (refs w) = Some p -> processors (browser w) !! p = Some b ->
     processors (browser w') !! p = Some false) /\
  (forall c s, audioContextRef (refs w) = Some c -> contexts (browser w) !! c = Some s ->
     contexts (browser w') !! c = Some closed) /\
  channelOpen w' = None /\
  stopVoice w' = w' /\
  captures (browser w') = captures (browser w) /\
  (forall i, sockets (browser w) !! i = Some CONNECTING ->
     captures (browser (stopVoice (step w (WsOpen i)))) = S (captures (browser w))) /\
  (forall events,
     (captures (browser w) <= captures (browser (run w' events)))%nat).
Proof.
  cbv zeta. destruct (cleanup_refs w) as (H1 & H2 & H3 & H4 & H5 & H6).
  assert (Hr : refs (stopVoice w) = refs (cleanup w)) by reflexivity.
  assert (Hb : browser (stopVoice w) = browser (cleanup w)) by reflexivity.
  split; [rewrite Hr; auto|]. split; [split; reflexivity|].
  split; [|split; [|split; [|split; [|split; [|split; [|split; [|split]]]]]]].
  - intros i s Hi Hs. rewrite Hb, cleanup_sockets, Hi. unfold closeSocket. rewrite Hs.
    destruct s; first [exists CLOSING; split; [apply list_lookup_insert_eq;
                         apply lookup_lt_Some in Hs; exact Hs|reflexivity]
                      | exists CLOSED; split; [exact Hs|reflexivity]].
  - intros k t Hk Ht. rewrite Hb, cleanup_streams, Hk.
    rewrite list_lookup_alter, Ht.
    destruct (decide (k = k)); [reflexivity|congruence].
  - intros p b Hp Hpb. rewrite Hb, cleanup_processors, Hp.
    apply list_lookup_insert_eq. apply lookup_lt_Some in Hpb. exact Hpb.
  - intros c s Hc Hs. rewrite Hb, cleanup_contexts, Hc.
    apply list_lookup_insert_eq. apply lookup_lt_Some in Hs. exact Hs.
  - unfold channelOpen. rewrite Hr, H1. reflexivity.
  - apply stopVoice_idempotent.
  - apply captures_stopVoice.
  - intros i Hi. rewrite captures_stopVoice. cbn [step]. rewrite Hi. reflexivity.
  - intros events. rewrite <- (captures_stopVoice w). apply captures_run.
Qed.

Lemma stopVoice_releases_what_the_refs_hold_witness :
  let w := run initial [ToggleVoice; MicGranted] in
  captures (browser w) = 0%nat /\
  captures (browser (stopVoice (step w (WsOpen 0)))) = S (captures (browser w)).
Proof.
  cbv zeta. split; [reflexivity|].
  pose proof (stopVoice_releases_what_the_refs_hold
                (run initial [ToggleVoice; MicGranted])) as H.
  cbv zeta in H. destruct H as (_ & _ & _ & _ & _ & _ & _ & _ & _ & Hleak & _).
  apply (Hleak 0%nat). reflexivity.
Defined.

(** *** After a stop nothing leaves the browser *)

Lemma wsRef_step w e :
  Watch.not_grant e -> wsRef (refs w) = None -> wsRef (refs (step w e)) = None.
Proof.
  assert (Hv : forall w', View.channel w' = View.channel w ->
                          wsRef (refs w) = None -> wsRef (refs w') = None).
  { unfold View.channel. intros w' [= -> _ _ _ _ _ _ _ _ _ _ _]. auto. }
  intros Hne Hnone.
  destruct e as [| | | | | |i|i|i|m| |f|p input|c st| | | | | | | |i r|pr]; cbn [step].
  - exact Hnone.
  - apply cleanup_refs.
  - unfold toggleVoice. destruct (isConnected (state w)); [apply cleanup_refs|exact Hnone].
  - unfold toggleMute. repeat case_match; exact Hnone.
  - exfalso. apply Hne. reflexivity.
  - repeat case_match; exact Hnone.
  - unfold onopen, startAudioStreaming. repeat case_match; exact Hnone.
  - repeat case_match; exact Hnone.
  - repeat case_match; try exact Hnone; unfold onclose; cbv zeta; apply cleanup_refs.
  - destruct m as [t|t|ev| |err|ty]; try exact Hnone.
    apply (Hv _ (channel_handleUIUpdate ev w) Hnone).
  - exact Hnone.
  - unfold onmessage_audio. cbv zeta. eapply Hv; [|exact Hnone].
    rewrite channel_playNextAudio. reflexivity.
  - unfold onaudioprocess, channelOpen. rewrite Hnone. repeat case_match; exact Hnone.
  - repeat case_match; exact Hnone.
  - destruct (resuming (browser w)) as [|[f c] rest]; [exact Hnone|].
    eapply Hv; [|exact Hnone]. rewrite channel_playNextAudio_resumed. reflexivity.
  - destruct (sounding (browser w)) as [|f rest]; [exact Hnone|].
    unfold onended. eapply Hv; [|exact Hnone]. rewrite channel_playNextAudio. reflexivity.
  - repeat case_match; exact Hnone.
  - destruct (page w); [exact Hnone|]. apply (Hv _ (channel_mount w) Hnone).
  - exact Hnone.
  - unfold refreshEffect, fetchProducts. repeat case_match; exact Hnone.
  - unfold tryAgain, fetchProducts. repeat case_match; exact Hnone.
  - unfold fetchSettled. repeat case_match; exact Hnone.
  - exact Hnone.
Qed.

Lemma sent_step_closed w e :
  wsRef (refs w) = None -> sent (browser (step w e)) = sent (browser w).
Proof.
  intros Hnone.
  destruct (match e with AudioProcess _ _ => true | _ => false end) eqn:He.
  - destruct e; try discriminate He. cbn [step].
    unfold onaudioprocess, channelOpen. rewrite Hnone. repeat case_match; reflexivity.
  - apply sent_step. intros p x ->. discriminate He.
Qed.

(** X27: after [stopVoice] no audio leaves the browser: whatever happens,
    nothing is sent on any socket until the microphone is granted again (a
    grant that was still pending at the stop starts a new session). *)
Theorem nothing_sent_after_stop w events :
  Forall Watch.not_grant events ->
  let w' := run (step w StopVoice) events in
  sent (browser w') = sent (browser w) /\ channelOpen w' = None /\
  (forall inputData, onaudioprocess inputData w' = w').
Proof.
  intros Hev. cbv zeta.
  assert (H : forall w0, wsRef (refs w0) = None ->
                         wsRef (refs (run w0 events)) = None /\
                         sent (browser (run w0 events)) = sent (browser w0)).
  { induction Hev as [|e events He Hev IH]; intros w0 Hnone; [auto|].
    cbn [run fold_left].
    destruct (IH (step w0 e) (wsRef_step w0 e He Hnone)) as [H1 H2].
    split; [exact H1|]. etransitivity; [exact H2|apply sent_step_closed, Hnone]. }
  destruct (H (step w StopVoice)) as [H1 H2].
  { cbn [step]. apply (stopVoice_refs_closed w). }
  assert (Hch : channelOpen (run (step w StopVoice) events) = None)
    by (unfold channelOpen; rewrite H1; reflexivity).
  split; [rewrite H2; cbn [step]; unfold stopVoice, cleanup; handler|].
  split; [exact Hch|]. intros x. unfold onaudioprocess. rewrite Hch. reflexivity.
Qed.

Lemma nothing_sent_after_stop_witness :
  sent (browser (run (step Scenario.live StopVoice)
                   [AudioProcess 0 [1 # 2]; ToggleMute; AudioProcess 0 [1 # 2]]))
  = sent (browser Scenario.live).
Proof.
  refine (proj1 (nothing_sent_after_stop Scenario.live
                   [AudioProcess 0 [1 # 2]; ToggleMute; AudioProcess 0 [1 # 2]] _)).
  repeat (apply List.Forall_cons; [discriminate|]). apply List.Forall_nil.
Defined.

End SessionMore.

(** ** The mute flag and the microphone *)

Section MuteMore.
Import Voice VoiceController.

Implicit Types (w : World) (e : event).

(** A session started from a disconnected state, up to the opening of its
    socket. *)
Lemma startVoice_granted_spec w :
  let w' := startVoice_granted w in
  state w' = state w /\
  sockets (browser w') = sockets (browser w) ++ [CONNECTING] /\
  streams (browser w') = streams (browser w) ++ [{| enabled := true; stopped := false |}] /\
  wsRef (refs w') = Some (length (sockets (browser w))) /\
  mediaStreamRef (refs w') = Some (length (streams (browser w))).
Proof. cbv zeta. unfold startVoice_granted. cbv zeta. repeat split; reflexivity. Qed.

Lemma onopen_spec w :
  let w' := onopen w in
  isConnected (state w') = true /\ isListening (state w') = true /\
  isMuted (state w') = isMuted (state w) /\
  isSpeaking (state w') = isSpeaking (state w) /\
  isProcessing (state w') = isProcessing (state w) /\
  sockets (browser w') = sockets (browser w) /\
  streams (browser w') = streams (browser w) /\
  wsRef (refs w') = wsRef (refs w) /\
  mediaStreamRef (refs w') = mediaStreamRef (refs w).
Proof. cbv zeta. unfold onopen, startAudioStreaming. cbv zeta. repeat split; reflexivity. Qed.

Lemma start_opens_session w :
  isConnected (state w) = false ->
  let j := length (sockets (browser w)) in
  let w' := run w [ToggleVoice; MicGranted; WsOpen j] in
  isConnected (state w') = true /\ isListening (state w') = true /\
  isMuted (state w') = isMuted (state w) /\
  isSpeaking (state w') = isSpeaking (state w) /\
  isProcessing (state w') = isProcessing (state w) /\
  currentTrack w' = Some {| enabled := true; stopped := false |} /\
  channelOpen w' = Some j.
Proof.
  intros Hoff. cbv zeta.
  assert (H2 : run w [ToggleVoice; MicGranted]
               = startVoice_granted
                   (onBrowser (set_micRequests (micRequests (browser w))) (startVoice w))).
  { cbn [run fold_left]. cbn [step]. unfold toggleVoice. rewrite Hoff. reflexivity. }
  change (run w [ToggleVoice; MicGranted; WsOpen (length (sockets (browser w)))])
    with (step (run w [ToggleVoice; MicGranted]) (WsOpen (length (sockets (browser w))))).
  rewrite H2.
  set (w0 := onBrowser (set_micRequests (micRequests (browser w))) (startVoice w)).
  assert (Hs0 : state w0 = state w) by reflexivity.
  assert (Hk0 : sockets (browser w0) = sockets (browser w)) by reflexivity.
  rewrite <- Hk0, <- Hs0. clearbody w0.
  destruct (startVoice_granted_spec w0) as (Hst & Hsk & Hsm & Hws & Hms).
  cbv zeta in Hst, Hsk, Hsm, Hws, Hms.
  set (w2 := startVoice_granted w0) in *. clearbody w2.
  assert (Hlook : sockets (browser w2) !! length (sockets (browser w0)) = Some CONNECTING).
  { rewrite Hsk. rewrite lookup_app_r by lia. rewrite Nat.sub_diag. reflexivity. }
  cbn [step]. rewrite Hlook.
  set (w3 := onBrowser (fun b => set_sockets (<[length (sockets (browser w0)) := OPEN]> (sockets b)) b) w2).
  assert (F3 : state w3 = state w2 /\ refs w3 = refs w2 /\
               streams (browser w3) = streams (browser w2) /\
               sockets (browser w3) = <[length (sockets (browser w0)) := OPEN]> (sockets (browser w2)))
    by (repeat split; reflexivity).
  destruct F3 as (F3a & F3b & F3c & F3d). clearbody w3.
  destruct (onopen_spec w3) as (O1 & O2 & O3 & O4 & O5 & O6 & O7 & O8 & O9).
  cbv zeta in O1, O2, O3, O4, O5, O6, O7, O8, O9.
  set (w4 := onopen w3) in *. clearbody w4.
  split; [exact O1|]. split; [exact O2|].
  split; [rewrite O3, F3a, Hst; reflexivity|].
  split; [rewrite O4, F3a, Hst; reflexivity|].
  split; [rewrite O5, F3a, Hst; reflexivity|]. split.
  - unfold currentTrack. rewrite O9, F3b, Hms. cbn. rewrite O7, F3c, Hsm.
    rewrite lookup_app_r by lia. rewrite Nat.sub_diag. reflexivity.
  - unfold channelOpen. rewrite O8, F3b, Hws, O6, F3d.
    rewrite list_lookup_insert_eq by (rewrite Hsk, length_app; cbn; lia).
    reflexivity.
Qed.
(** X28: the mute flag outlives the session it was set in.  A close from
    the far end ([onclose], unlike [stopVoice]) leaves [isMuted] as it is,
    and a start does not reset it: a session started while [isMuted] is
    still true shows the muted state although its microphone track is
    enabled and every captured buffer is sent. *)
Theorem mute_flag_outlives_session w :
  isConnected (state w) = false -> isMuted (state w) = true ->
  let j := length (sockets (browser w)) in
  let w' := run w [ToggleVoice; MicGranted; WsOpen j] in
  getState (state w') = muted /\
  currentTrack w' = Some {| enabled := true; stopped := false |} /\
  (forall inputData,
     sent (browser (onaudioprocess inputData w'))
     = sent (browser w') ++ [(j, Codec.encode inputData)]) /\
  (forall w0, isMuted (state (onclose w0)) = isMuted (state w0) /\
              isConnected (state (onclose w0)) = false).
Proof.
  intros Hoff Hmuted. cbv zeta.
  destruct (start_opens_session w Hoff) as (Hc & _ & Hm & _ & _ & Ht & Hch).
  cbv zeta in Hc, Hm, Ht, Hch.
  set (w' := run w [ToggleVoice; MicGranted; WsOpen (length (sockets (browser w)))]) in *.
  clearbody w'. split; [|split; [exact Ht|split]].
  - unfold getState. rewrite Hc, Hm, Hmuted. reflexivity.
  - intros x. unfold onaudioprocess. rewrite Hch. reflexivity.
  - intros w0. unfold onclose. cbv zeta.
    destruct (cleanup_refs (onState (setIsListening false)
                              (onState (setIsConnected false) w0)))
      as (_ & _ & _ & _ & _ & ->).
    split; reflexivity.
Qed.

Lemma mute_flag_outlives_session_witness :
  let w := run Scenario.live [ToggleMute; WsClose 0] in
  let w' := run w [ToggleVoice; MicGranted; WsOpen (length (sockets (browser w)))] in
  isMuted (state w) = true /\
  getState (state w') = muted /\
  currentTrack w' = Some {| enabled := true; stopped := false |}.
Proof.
  cbv zeta.
  pose proof (mute_flag_outlives_session (run Scenario.live [ToggleMute; WsClose 0])
                eq_refl eq_refl) as H.
  cbv zeta in H. destruct H as (H1 & H2 & _).
  split; [reflexivity|]. split; [exact H1|exact H2].
Defined.

Lemma toggleMute_spec w k (t : Track) :
  mediaStreamRef (refs w) = Some k -> streams (browser w) !! k = Some t ->
  mediaStreamRef (refs (toggleMute w)) = Some k /\
  streams (browser (toggleMute w))
  = <[k := {| enabled := negb (enabled t); stopped := stopped t |}]> (streams (browser w)) /\
  isMuted (state (toggleMute w)) = enabled t /\
  wsRef (refs (toggleMute w)) = wsRef (refs w) /\
  sockets (browser (toggleMute w)) = sockets (browser w) /\
  sent (browser (toggleMute w)) = sent (browser w).
Proof.
  intros Hk Ht. unfold toggleMute. rewrite Hk, Ht. cbv zeta.
  split; [exact Hk|]. split; [reflexivity|].
  split; [apply negb_involutive|]. repeat split; reflexivity.
Qed.

(** X29: [toggleMute] flips the [enabled] bit of the track that the
    provider holds and sets [isMuted] to the opposite of the new bit; a
    second toggle gives the track and the flag of a first toggle's start
    back; no other track and nothing of the channel changes, so captured
    buffers are sent as before (muting relies on the browser silencing a
    disabled track); and without a stream [toggleMute] does nothing. *)
Theorem toggleMute_flips_the_track w k (t : Track) :
  mediaStreamRef (refs w) = Some k -> streams (browser w) !! k = Some t ->
  let w' := toggleMute w in
  currentTrack w' = Some {| enabled := negb (enabled t); stopped := stopped t |} /\
  isMuted (state w') = enabled t /\
  currentTrack (toggleMute w') = Some t /\
  isMuted (state (toggleMute w')) = negb (enabled t) /\
  (forall k', k' <> k -> streams (browser w') !! k' = streams (browser w) !! k') /\
  channelOpen w' = channelOpen w /\
  (forall inputData,
     sent (browser (onaudioprocess inputData w'))
     = sent (browser (onaudioprocess inputData w))) /\
  (forall w0, mediaStreamRef (refs w0) = None -> toggleMute w0 = w0).
Proof.
  intros Hk Ht. cbv zeta.
  assert (Hlt : (k < length (streams (browser w)))%nat) by (eapply lookup_lt_Some, Ht).
  destruct (toggleMute_spec w k t Hk Ht) as (Hk1 & Hs1 & Hm1 & Hws1 & Hsk1 & Hsn1).
  set (w1 := toggleMute w) in *. clearbody w1.
  assert (Ht1 : streams (browser w1) !! k
                = Some {| enabled := negb (enabled t); stopped := stopped t |})
    by (rewrite Hs1; apply list_lookup_insert_eq, Hlt).
  destruct (toggleMute_spec w1 k _ Hk1 Ht1) as (Hk2 & Hs2 & Hm2 & _).
  cbn [enabled stopped] in Hs2, Hm2.
  assert (Hch : channelOpen w1 = channelOpen w)
    by (unfold channelOpen; rewrite Hws1, Hsk1; reflexivity).
  split; [unfold currentTrack; rewrite Hk1; exact Ht1|]. split; [exact Hm1|].
  split; [|split; [exact Hm2|split; [|split; [exact Hch|split]]]].
  - unfold currentTrack. rewrite Hk2. cbn. rewrite Hs2.
    rewrite list_lookup_insert_eq by (rewrite Hs1, length_insert; exact Hlt).
    rewrite negb_involutive. destruct t; reflexivity.
  - intros k' Hne. rewrite Hs1. apply list_lookup_insert_ne. congruence.
  - intros x. unfold onaudioprocess. rewrite Hch.
    destruct (channelOpen w); cbn; rewrite Hsn1; reflexivity.
  - intros w0 Hnone. unfold toggleMute. rewrite Hnone. reflexivity.
Qed.

Lemma toggleMute_flips_the_track_witness :
  currentTrack (toggleMute Scenario.live) = Some {| enabled := false; stopped := false |} /\
  isMuted (state (toggleMute Scenario.live)) = true.
Proof.
  pose proof (toggleMute_flips_the_track Scenario.live 0
                {| enabled := true; stopped := false |} eq_refl eq_refl)
    as (H1 & H2 & _).
  split; [exact H1|exact H2].
Defined.

End MuteMore.
